(** * Wingocash: period sequencer, outcome generator, settlement and bet placement

    A shallow embedding of [server/routes.ts], [server/storage.ts] and
    [shared/schema.ts].  JavaScript numbers are IEEE-754 binary64 values
    ([spec_float] at precision 53); strings are sequences of code units
    below 256; the database is a record of tables whose decimal columns
    round what is written to two places; storage calls may be rejected,
    which is an input of the model (a schedule of failures). *)

From Stdlib Require Import ZArith Lia Bool List Ascii String.
From Stdlib Require Import Reals Lra.
From Stdlib Require Import Floats.SpecFloat.
From stdpp Require Import gmap strings list fin_maps.
Local Open Scope Z_scope.

(* ===================================================================== *)
(** * The JavaScript built-ins the server code uses *)
(* ===================================================================== *)

Module JS.

Abbreviation number := spec_float.
Definition prec : Z := 53.
Definition emax : Z := 1024.

Definition NaN : number := S754_nan.
Definition mul : number -> number -> number := SFmul prec emax.
Definition add : number -> number -> number := SFadd prec emax.
Definition sub : number -> number -> number := SFsub prec emax.
Definition ltb : number -> number -> bool := SFltb.
Definition eqb : number -> number -> bool := SFeqb.

(** The Number value of the decimal [d * 10^x] ([d >= 0]), correctly rounded. *)
Definition of_decimal (neg : bool) (d x : Z) : number :=
  match d with
  | Zpos p =>
      if 0 <=? x then binary_round prec emax neg (p * Z.to_pos (10 ^ x)) 0
      else
        let '(q, e, l) := SFdiv_core_binary prec emax d 0 (10 ^ (- x)) 0 in
        binary_round_aux prec emax neg q e l
  | _ => S754_zero neg
  end.

Definition of_Z (z : Z) : number :=
  binary_normalize prec emax z 0 false.

(** Code units. *)
Definition code (c : ascii) : Z := Z.of_N (N_of_ascii c).

Definition digit_of (c : ascii) : option Z :=
  let n := code c in
  if (48 <=? n) && (n <=? 57) then Some (n - 48) else None.

Definition is_white (c : ascii) : bool :=
  let n := code c in
  ((9 <=? n) && (n <=? 13)) || (n =? 32) || (n =? 160).

Fixpoint trim_start (s : string) : string :=
  match s with
  | String c t => if is_white c then trim_start t else s
  | EmptyString => s
  end.

Definition take_sign (s : string) : bool * string :=
  match s with
  | String "-" t => (true, t)
  | String "+" t => (false, t)
  | _ => (false, s)
  end.

(** Longest run of decimal digits at the front: its value, its length, the rest. *)
Fixpoint span_digits (acc : Z) (len : Z) (s : string) : Z * Z * string :=
  match s with
  | String c t =>
      match digit_of c with
      | Some d => span_digits (10 * acc + d) (len + 1) t
      | None => (acc, len, s)
      end
  | EmptyString => (acc, len, s)
  end.

Definition exponent_part (s : string) : Z :=
  match s with
  | String c t =>
      if (code c =? 101) || (code c =? 69) then
        let '(neg, t') := take_sign t in
        let '(v, len, _) := span_digits 0 0 t' in
        if len =? 0 then 0 else if neg then - v else v
      else 0
  | EmptyString => 0
  end.

Definition parseFloat (s : string) : number :=
  let '(neg, s0) := take_sign (trim_start s) in
  if String.prefix "Infinity" s0 then S754_infinity neg
  else
    let '(iv, ilen, s1) := span_digits 0 0 s0 in
    let '(v, flen, s2) :=
      match s1 with
      | String "." t => let '(v, total, r) := span_digits iv ilen t in (v, total - ilen, r)
      | _ => (iv, 0, s1)
      end in
    if ilen + flen =? 0 then NaN
    else of_decimal neg v (exponent_part s2 - flen).

(** Decimal digits of a non-negative integer. *)
Definition digit_char (d : Z) : ascii := ascii_of_N (Z.to_N (48 + d)).

Fixpoint digits_go (fuel : nat) (n : Z) (acc : string) : string :=
  match fuel with
  | O => acc
  | S f =>
      let acc' := String (digit_char (n mod 10)) acc in
      if n <? 10 then acc' else digits_go f (n / 10) acc'
  end.

Definition digits (n : Z) : string :=
  digits_go (S (Z.to_nat (Z.log2 n))) n EmptyString.

Definition Z_toString (z : Z) : string :=
  if z <? 0 then String "-" (digits (- z)) else digits z.

Fixpoint zeros (n : nat) : string :=
  match n with O => EmptyString | S k => String "0" (zeros k) end.

Definition slen (s : string) : Z := Z.of_nat (String.length s).

(** [x = p / q] for a positive finite Number. *)
Definition ratio (m : positive) (e : Z) : Z * Z :=
  if 0 <=? e then (Zpos m * 2 ^ e, 1) else (Zpos m, 2 ^ (- e)).

Fixpoint small_magnitude (fuel : nat) (p q : Z) (j : Z) : Z :=
  match fuel with
  | O => j
  | S f => if q <=? p * 10 ^ j then j else small_magnitude f p q (j + 1)
  end.

(** The [n] with [10^(n-1) <= p/q < 10^n]. *)
Definition magnitude (p q : Z) : Z :=
  if q <=? p then slen (digits (p / q))
  else 1 - small_magnitude 400 p q 1.

(** Shortest digit string: the [k]-digit candidates for [k = k0, k0+1, ...]. *)
Fixpoint shortest (fuel : nat) (x : number) (p q n k : Z) : Z * Z :=
  let j := n - k in
  let '(num, den) := if 0 <=? j then (p, q * 10 ^ j) else (p * 10 ^ (- j), q) in
  let lo := num / den in
  let r := num mod den in
  let hi := lo + 1 in
  let ok_lo := eqb (of_decimal false lo j) x in
  let ok_hi := eqb (of_decimal false hi j) x in
  let pick_hi := if hi =? 10 ^ k then (10 ^ (k - 1), n + 1) else (hi, n) in
  match fuel with
  | O => (lo, n)
  | S f =>
      if ok_lo && ok_hi then
        match 2 * r ?= den with
        | Lt => (lo, n)
        | Gt => pick_hi
        | Eq => if Z.even lo then (lo, n) else pick_hi
        end
      else if ok_lo then (lo, n)
      else if ok_hi then pick_hi
      else shortest f x p q n (k + 1)
  end.

Definition substr (s : string) (from len : Z) : string :=
  String.substring (Z.to_nat from) (Z.to_nat len) s.

Definition format_positive (ds : string) (n : Z) : string :=
  let k := slen ds in
  if (k <=? n) && (n <=? 21) then ds +:+ zeros (Z.to_nat (n - k))
  else if (0 <? n) && (n <=? 21) then substr ds 0 n +:+ "." +:+ substr ds n (k - n)
  else if (-6 <? n) && (n <=? 0) then "0." +:+ zeros (Z.to_nat (- n)) +:+ ds
  else
    let ex := (if n - 1 <? 0 then "-" else "+") +:+ digits (Z.abs (n - 1)) in
    if k =? 1 then ds +:+ "e" +:+ ex
    else substr ds 0 1 +:+ "." +:+ substr ds 1 (k - 1) +:+ "e" +:+ ex.

Definition toString (x : number) : string :=
  match x with
  | S754_nan => "NaN"
  | S754_zero _ => "0"
  | S754_infinity s => if s then "-Infinity" else "Infinity"
  | S754_finite s m e =>
      let '(p, q) := ratio m e in
      let '(d, n) := shortest 17 (S754_finite false m e) p q (magnitude p q) 1 in
      (if s then "-" else "") +:+ format_positive (digits d) n
  end.

(** [Math.floor]. *)
Definition floorZ (s : bool) (m : positive) (e : Z) : Z :=
  let v := if s then Zneg m else Zpos m in
  if 0 <=? e then v * 2 ^ e else v / 2 ^ (- e).

Definition Math_floor (x : number) : number :=
  match x with
  | S754_finite s m e => binary_normalize prec emax (floorZ s m e) 0 s
  | _ => x
  end.

(** The integer a Number denotes, if it denotes one. *)
Definition to_integer (x : number) : option Z :=
  match x with
  | S754_zero _ => Some 0
  | S754_finite s m e =>
      let v := if s then Zneg m else Zpos m in
      if 0 <=? e then Some (v * 2 ^ e)
      else if v mod 2 ^ (- e) =? 0 then Some (v / 2 ^ (- e)) else None
  | _ => None
  end.

(** Results of [parseInt] and integer-valued counters: an integer or NaN.
    [parseInt] is kept at its mathematical value; comparing it with [===]
    to an integer below 2^53 gives the same answer as after rounding to
    a Number. *)
Inductive integer := IntNaN | Int (z : Z).

Definition integer_eqb (a b : integer) : bool :=
  match a, b with
  | Int x, Int y => x =? y
  | _, _ => false
  end.

Definition integer_succ (a : integer) : integer :=
  match a with Int z => Int (z + 1) | IntNaN => IntNaN end.

Definition integer_gtb (a : integer) (bound : Z) : bool :=
  match a with Int z => bound <? z | IntNaN => false end.

Definition integer_toString (a : integer) : string :=
  match a with Int z => Z_toString z | IntNaN => "NaN" end.

Definition radix_digit_of (radix : Z) (c : ascii) : option Z :=
  let n := code c in
  let d := if (48 <=? n) && (n <=? 57) then n - 48
           else if (97 <=? n) && (n <=? 122) then n - 87
           else if (65 <=? n) && (n <=? 90) then n - 55
           else radix in
  if d <? radix then Some d else None.

Fixpoint span_radix (radix acc len : Z) (s : string) : Z * Z :=
  match s with
  | String c t =>
      match radix_digit_of radix c with
      | Some d => span_radix radix (radix * acc + d) (len + 1) t
      | None => (acc, len)
      end
  | EmptyString => (acc, len)
  end.

(** [parseInt(s)] with no radix argument. *)
Definition parseInt (s : string) : integer :=
  let '(neg, s0) := take_sign (trim_start s) in
  let '(radix, s1) :=
    match s0 with
    | String "0" (String c t) =>
        if (code c =? 120) || (code c =? 88) then (16, t) else (10, s0)
    | _ => (10, s0)
    end in
  let '(v, len) := span_radix radix 0 0 s1 in
  if len =? 0 then IntNaN else Int (if neg then - v else v).

(** [s.slice(-n)]: the last [n] code units. *)
Definition slice_last (n : nat) (s : string) : string :=
  let l := String.length s in
  String.substring (l - n) n s.

Fixpoint repeat_string (fill : string) (n : nat) : string :=
  match n with O => EmptyString | S k => fill +:+ repeat_string fill k end.

(** [s.padStart(n, fill)]. *)
Definition padStart (n : nat) (fill : string) (s : string) : string :=
  let l := String.length s in
  if (n <=? l)%nat then s
  else match fill with
       | EmptyString => s
       | _ => String.substring 0 (n - l) (repeat_string fill (n - l)) +:+ s
       end.

(** Numeric literals of the source. *)
Definition lit_0 : number := Eval vm_compute in of_Z 0.
Definition lit_1 : number := Eval vm_compute in of_Z 1.
Definition lit_3 : number := Eval vm_compute in of_Z 3.
Definition lit_5 : number := Eval vm_compute in of_Z 5.
Definition lit_7 : number := Eval vm_compute in of_Z 7.
Definition lit_9 : number := Eval vm_compute in of_Z 9.
Definition lit_10 : number := Eval vm_compute in of_Z 10.
Definition lit_0_5 : number := Eval vm_compute in of_decimal false 5 (-1).
Definition lit_1_95 : number := Eval vm_compute in of_decimal false 195 (-2).
Definition lit_4_5 : number := Eval vm_compute in of_decimal false 45 (-1).

End JS.

(* ===================================================================== *)
(** * The [decimal(10,2)] columns *)
(* ===================================================================== *)

(** Modelled from the schema declaration: [balance], [amount] and [payout]
    are declared [decimal(.., { precision: 10, scale: 2 })], a PostgreSQL
    [numeric(10,2)].  The driver hands such a column a string and gets a
    string back.  On a write the column reads the string as a decimal
    number, rounds it to two fractional digits (half away from zero) and
    keeps it if fewer than nine integer digits remain; on a read it prints
    the stored number with exactly two fractional digits.  [NaN] is a value
    of the type and is kept as it is. *)
Module Column.

(** The number [v * 10^x], negated when [neg]. *)
Inductive numeric :=
  | NaN
  | Num (neg : bool) (v x : Z).

Definition is_space (c : ascii) : bool :=
  let n := JS.code c in
  ((9 <=? n) && (n <=? 13)) || (n =? 32).

Fixpoint skip_spaces (s : string) : string :=
  match s with
  | String c t => if is_space c then skip_spaces t else s
  | EmptyString => s
  end.

Definition only_spaces (s : string) : bool :=
  match skip_spaces s with
  | EmptyString => true
  | _ => false
  end.

Definition lower (c : ascii) : Z :=
  let n := JS.code c in
  if (65 <=? n) && (n <=? 90) then n + 32 else n.

Definition nan_text (s : string) : option string :=
  match s with
  | String a (String b (String c rest)) =>
      if (lower a =? 110) && (lower b =? 97) && (lower c =? 110) then Some rest
      else None
  | _ => None
  end.

(** An exponent, if one is written, needs at least one digit. *)
Definition exponent (s : string) : option (Z * string) :=
  match s with
  | String c t =>
      if (JS.code c =? 101) || (JS.code c =? 69) then
        let '(neg, t') := JS.take_sign t in
        let '(v, len, rest) := JS.span_digits 0 0 t' in
        if (len =? 0) || (1073741823 <=? v) then None
        else Some (if neg then - v else v, rest)
      else Some (0, s)
  | EmptyString => Some (0, s)
  end.

(** After the sign: digits with at most one point, an optional exponent,
    then blanks only. *)
Definition unsigned_in (neg : bool) (s1 : string) : option numeric :=
  let '(iv, ilen, s2) := JS.span_digits 0 0 s1 in
  let '(v, flen, s3) :=
    match s2 with
    | String "." t =>
        let '(v, total, r) := JS.span_digits iv ilen t in (v, total - ilen, r)
    | _ => (iv, 0, s2)
    end in
  if ilen + flen =? 0 then None
  else
    match exponent s3 with
    | Some (e, rest) => if only_spaces rest then Some (Num neg v (e - flen)) else None
    | None => None
    end.

(** The input syntax: blanks, then [NaN] or a signed number. *)
Definition numeric_in (s : string) : option numeric :=
  let s0 := skip_spaces s in
  match nan_text s0 with
  | Some rest => if only_spaces rest then Some NaN else None
  | None => let '(neg, s1) := JS.take_sign s0 in unsigned_in neg s1
  end.

(** [v * 10^x] in hundredths, rounded half away from zero ([v >= 0]). *)
Definition hundredths (v x : Z) : Z :=
  if 0 <=? x + 2 then v * 10 ^ (x + 2)
  else (2 * v + 10 ^ (- (x + 2))) / (2 * 10 ^ (- (x + 2))).

(** Precision 10: at most ten digits in all. *)
Definition fits (h : Z) : bool := h <? 10 ^ 10.

(** The text of [h] hundredths; zero carries no sign. *)
Definition numeric_out (neg : bool) (h : Z) : string :=
  (if neg && negb (h =? 0) then "-" else "")
  +:+ JS.digits (h / 100)
  +:+ String "." (String (JS.digit_char (h / 10 mod 10))
                    (String (JS.digit_char (h mod 10)) EmptyString)).

(** Whether the column takes the string, as a number. *)
Definition holds (s : string) : bool :=
  match numeric_in s with
  | Some (Num _ v x) => fits (hundredths v x)
  | _ => false
  end.

(** What is read back after [s] has been written.  A string the column
    refuses makes the storage call fail, which is the failure schedule's
    part; where the schedule lets such a call through, the string is kept
    as written. *)
Definition decimal_10_2 (s : string) : string :=
  match numeric_in s with
  | Some NaN => "NaN"
  | Some (Num neg v x) =>
      if fits (hundredths v x) then numeric_out neg (hundredths v x) else s
  | None => s
  end.

End Column.

(* ===================================================================== *)
(** * shared/schema.ts: the rows of the three tables *)
(* ===================================================================== *)

(** Decimal columns are read and written as strings, the way the driver
    hands them to the server; a row holds what the column gives back,
    [Column.decimal_10_2] of what was written. *)
Record User := mkUser {
  u_id : Z;
  username : string;
  password : string;
  balance : string;
}.

Record GameRound := mkGameRound {
  r_id : Z;
  periodNumber : string;
  result : string;
  number : Z;
}.

(** [payout] is nullable in the schema; this code only ever writes strings
    to it, and the default is "0.00". *)
Record Bet := mkBet {
  b_id : Z;
  userId : Z;
  roundId : Z;
  betType : string;
  betValue : string;
  amount : string;
  payout : string;
  status : string;
}.

(** Values arriving in a request body. *)
Inductive json :=
  | JNull
  | JBool (b : bool)
  | JNumber (x : JS.number)
  | JString (s : string).

(** [InsertGameRound]: what the engine hands to [createGameRound]. *)
Record InsertGameRound := mkInsertGameRound {
  igr_periodNumber : string;
  igr_result : string;
  igr_number : JS.number;
}.

(** [InsertBet] extended with the round: what the handler hands to [createBet]. *)
Record InsertBet := mkInsertBet {
  ib_userId : Z;
  ib_betType : string;
  ib_betValue : string;
  ib_amount : string;
  ib_roundId : Z;
}.

(** Modelled from the schema declaration: [insertBetSchema] picks [userId]
    (integer column), [betType], [betValue] (text columns) and [amount]
    (decimal column, a string); [parse] throws unless all four are present
    with these types, and drops every other key. *)
Definition int32 (z : Z) : bool := (- 2147483648 <=? z) && (z <=? 2147483647).

Definition insertBetSchema_parse (body : gmap string json)
  : option (Z * string * string * string) :=
  match body !! "userId", body !! "betType", body !! "betValue", body !! "amount" with
  | Some (JNumber x), Some (JString t), Some (JString v), Some (JString a) =>
      match JS.to_integer x with
      | Some uid => if int32 uid then Some (uid, t, v, a) else None
      | None => None
      end
  | _, _, _, _ => None
  end.

(* ===================================================================== *)
(** * The state: database tables, failure schedule, engine fields *)
(* ===================================================================== *)

(** [gameRounds] is kept newest first: [created_at] defaults to the
    insertion time, so [ORDER BY created_at DESC] reads the table in this
    order.  [bets] is kept in insertion order.  [faults] says which of the
    coming storage calls the database rejects (connection loss, a value
    the column refuses): each call consumes one flag, and an exhausted
    schedule means no further failure. *)
Record State := mkState {
  users : gmap Z User;
  users_serial : Z;
  gameRounds : list GameRound;
  gameRounds_serial : Z;
  bets : list Bet;
  bets_serial : Z;
  faults : list bool;
  currentRoundId : option Z;
  currentSequence : JS.integer;
}.

Definition with_users (f : gmap Z User -> gmap Z User) (s : State) : State :=
  mkState (f (users s)) (users_serial s) (gameRounds s) (gameRounds_serial s)
          (bets s) (bets_serial s) (faults s) (currentRoundId s) (currentSequence s).

Definition with_users_serial (n : Z) (s : State) : State :=
  mkState (users s) n (gameRounds s) (gameRounds_serial s)
          (bets s) (bets_serial s) (faults s) (currentRoundId s) (currentSequence s).

Definition with_gameRounds (rs : list GameRound) (n : Z) (s : State) : State :=
  mkState (users s) (users_serial s) rs n
          (bets s) (bets_serial s) (faults s) (currentRoundId s) (currentSequence s).

Definition with_bets (f : list Bet -> list Bet) (s : State) : State :=
  mkState (users s) (users_serial s) (gameRounds s) (gameRounds_serial s)
          (f (bets s)) (bets_serial s) (faults s) (currentRoundId s) (currentSequence s).

Definition with_bets_serial (n : Z) (s : State) : State :=
  mkState (users s) (users_serial s) (gameRounds s) (gameRounds_serial s)
          (bets s) n (faults s) (currentRoundId s) (currentSequence s).

Definition with_faults (fs : list bool) (s : State) : State :=
  mkState (users s) (users_serial s) (gameRounds s) (gameRounds_serial s)
          (bets s) (bets_serial s) fs (currentRoundId s) (currentSequence s).

Definition with_currentRoundId (r : option Z) (s : State) : State :=
  mkState (users s) (users_serial s) (gameRounds s) (gameRounds_serial s)
          (bets s) (bets_serial s) (faults s) r (currentSequence s).

Definition with_currentSequence (c : JS.integer) (s : State) : State :=
  mkState (users s) (users_serial s) (gameRounds s) (gameRounds_serial s)
          (bets s) (bets_serial s) (faults s) (currentRoundId s) c.

(** ** A state monad with exceptions *)

Inductive outcome (A : Type) :=
  | Ok (a : A)
  | Throw.
Arguments Ok {A} a.
Arguments Throw {A}.

Definition M (A : Type) : Type := State -> outcome A * State.

Definition ret {A} (a : A) : M A := fun s => (Ok a, s).

Definition throw {A} : M A := fun s => (Throw, s).

Definition bind {A B} (k : A -> M B) (m : M A) : M B :=
  fun s =>
    match m s with
    | (Ok a, s') => k a s'
    | (Throw, s') => (Throw, s')
    end.

#[global] Instance M_ret : MRet M := @ret.
#[global] Instance M_bind : MBind M := @bind.

(** [try { m } catch { h }] *)
Definition catch {A} (m : M A) (h : M A) : M A :=
  fun s =>
    match m s with
    | (Ok a, s') => (Ok a, s')
    | (Throw, s') => h s'
    end.

Definition modify (f : State -> State) : M unit := fun s => (Ok tt, f s).

(** A step given directly on the state. *)
Definition state_op {A} (f : State -> outcome A * State) : M A := f.

(** [for (const x of xs) { body x }] *)
Fixpoint for_each {A} (xs : list A) (body : A -> M unit) : M unit :=
  match xs with
  | [] => ret tt
  | x :: rest => body x ;; for_each rest body
  end.

(** Every storage call reaches the database, which may reject it. *)
Definition db_call : M unit :=
  fun s =>
    match faults s with
    | true :: fs => (Throw, with_faults fs s)
    | false :: fs => (Ok tt, with_faults fs s)
    | [] => (Ok tt, s)
    end.

(* ===================================================================== *)
(** * server/storage.ts: [DatabaseStorage] *)
(* ===================================================================== *)

Definition getUser (id : Z) : M (option User) :=
  db_call ;; state_op (fun s => (Ok (users s !! id), s)).

(** [insertUser] is the object the caller passes, typed [InsertUser] (two
    strings); it is read as an object so that keys beyond the type are
    visible.  The inserted values are [{ ...insertUser, balance: "50.00" }].
    The columns [username] (unique) and [password] are not null; a value
    that is missing or is not a string counts as refused by the database. *)
Definition username_taken (name : string) (us : gmap Z User) : bool :=
  bool_decide (map_Exists (fun _ u => username u = name) us).

Definition createUser (insertUser : gmap string json) : M User :=
  db_call ;;
  state_op (fun s =>
    let values := <["balance" := JString "50.00"]> insertUser in
    match values !! "username", values !! "password", values !! "balance" with
    | Some (JString name), Some (JString pw), Some (JString bal) =>
        if username_taken name (users s) then (Throw, s)
        else
          let user := mkUser (users_serial s) name pw (Column.decimal_10_2 bal) in
          (Ok user,
           with_users_serial (users_serial s + 1)
             (with_users (insert (users_serial s) user) s))
    | _, _, _ => (Throw, s)
    end).

Definition set_balance (newBalance : string) (u : User) : User :=
  mkUser (u_id u) (username u) (password u) newBalance.

Definition updateUserBalance (uid : Z) (newBalance : string) : M unit :=
  db_call ;;
  modify (with_users (alter (set_balance (Column.decimal_10_2 newBalance)) uid)).

Definition period_taken (p : string) (rs : list GameRound) : bool :=
  existsb (fun r => String.eqb (periodNumber r) p) rs.

(** [period_number] is unique and [number] is an integer column. *)
Definition createGameRound (round : InsertGameRound) : M GameRound :=
  db_call ;;
  state_op (fun s =>
    match JS.to_integer (igr_number round) with
    | Some n =>
        if int32 n && negb (period_taken (igr_periodNumber round) (gameRounds s)) then
          let row := mkGameRound (gameRounds_serial s) (igr_periodNumber round)
                                 (igr_result round) n in
          (Ok row, with_gameRounds (row :: gameRounds s) (gameRounds_serial s + 1) s)
        else (Throw, s)
    | None => (Throw, s)
    end).

Definition getCurrentRound : M (option GameRound) :=
  db_call ;; state_op (fun s => (Ok (head (gameRounds s)), s)).

Definition getRecentRounds (limit : nat) : M (list GameRound) :=
  db_call ;; state_op (fun s => (Ok (take limit (gameRounds s)), s)).

Definition round_exists (rid : Z) (rs : list GameRound) : bool :=
  existsb (fun r => r_id r =? rid) rs.

(** [user_id] and [round_id] are foreign keys; [payout] defaults to "0.00"
    and [status] to "pending".  [returning()] gives the row as stored. *)
Definition createBet (bet : InsertBet) : M Bet :=
  db_call ;;
  state_op (fun s =>
    match users s !! ib_userId bet with
    | Some _ =>
        if round_exists (ib_roundId bet) (gameRounds s) then
          let row := mkBet (bets_serial s) (ib_userId bet) (ib_roundId bet)
                           (ib_betType bet) (ib_betValue bet)
                           (Column.decimal_10_2 (ib_amount bet)) "0.00" "pending" in
          (Ok row,
           with_bets_serial (bets_serial s + 1) (with_bets (fun bs => bs ++ [row]) s))
        else (Throw, s)
    | None => (Throw, s)
    end).

Definition getBetsByRoundId (rid : Z) : M (list Bet) :=
  db_call ;; state_op (fun s => (Ok (List.filter (fun b => roundId b =? rid) (bets s)), s)).

Definition set_result (st po : string) (b : Bet) : Bet :=
  mkBet (b_id b) (userId b) (roundId b) (betType b) (betValue b) (amount b) po st.

Definition updateBetResult (betId : Z) (st po : string) : M unit :=
  db_call ;;
  modify (with_bets (map (fun b => if b_id b =? betId
                                   then set_result st (Column.decimal_10_2 po) b
                                   else b))).

(* ===================================================================== *)
(** * server/routes.ts: [LiveGameEngine] *)
(* ===================================================================== *)

Definition basePeriodNumber : string := "127927270".

(** The engine as constructed: no round yet, the counter at 867. *)
Definition initial_sequence : JS.integer := JS.Int 867.

Definition next_sequence (c : JS.integer) : JS.integer :=
  let c' := JS.integer_succ c in
  if JS.integer_gtb c' 999 then JS.Int 0 else c'.

Definition label_of (c : JS.integer) : string :=
  basePeriodNumber +:+ JS.padStart 3 "0" (JS.integer_toString c).

Definition generatePeriodNumber : M string :=
  fun s =>
    let c := next_sequence (currentSequence s) in
    (Ok (label_of c), with_currentSequence c s).

(** [n] successive calls of the sequencer: the labels issued, oldest first. *)
Fixpoint issue_labels (n : nat) : M (list string) :=
  match n with
  | O => ret []
  | S k => l ← generatePeriodNumber ; ls ← issue_labels k ; ret (l :: ls)
  end.

(** What [Math.random()] may return: a Number with positive sign, greater
    than or equal to 0 and less than 1. *)
Definition is_random (r : JS.number) : bool :=
  match r with
  | S754_zero false => true
  | S754_finite false _ _ => valid_binary JS.prec JS.emax r && JS.ltb r JS.lit_1
  | _ => false
  end.

(** [r1] and [r2] are what the next two calls of [Math.random()] return;
    the second is only consulted for the numbers 0 and 5. *)
Definition generateResult (r1 r2 : JS.number) : string * JS.number :=
  let number := JS.Math_floor (JS.mul r1 JS.lit_10) in
  let color :=
    if JS.eqb number JS.lit_0 then
      if JS.ltb r2 JS.lit_0_5 then "red" else "violet"
    else if JS.eqb number JS.lit_5 then
      if JS.ltb r2 JS.lit_0_5 then "green" else "violet"
    else if existsb (JS.eqb number) [JS.lit_1; JS.lit_3; JS.lit_7; JS.lit_9] then "green"
    else "red" in
  (color, number).

(** The body of the settlement loop up to the two storage writes:
    [won] and [multiplier]. *)
Definition decide_bet (color : string) (num : Z) (bet : Bet) : bool * JS.number :=
  if String.eqb (betType bet) "color" then
    if String.eqb (betValue bet) color then
      (true, if String.eqb color "violet" then JS.lit_4_5 else JS.lit_1_95)
    else (false, JS.lit_0)
  else if String.eqb (betType bet) "number" then
    if JS.integer_eqb (JS.parseInt (betValue bet)) (JS.Int num) then (true, JS.lit_9)
    else (false, JS.lit_0)
  else (false, JS.lit_0).

Definition payout_of (bet : Bet) (wm : bool * JS.number) : string :=
  if fst wm then JS.toString (JS.mul (JS.parseFloat (amount bet)) (snd wm)) else "0.00".

Definition status_of (wm : bool * JS.number) : string :=
  if fst wm then "won" else "lost".

Definition settle_one (color : string) (num : Z) (bet : Bet) : M unit :=
  let wm := decide_bet color num bet in
  let po := payout_of bet wm in
  updateBetResult (b_id bet) (status_of wm) po ;;
  if fst wm then
    user ← getUser (userId bet) ;
    match user with
    | Some u =>
        let newBalance :=
          JS.toString (JS.add (JS.parseFloat (balance u)) (JS.parseFloat po)) in
        updateUserBalance (userId bet) newBalance
    | None => ret tt
    end
  else ret tt.

Definition processRoundResult (rid : Z) (color : string) (num : Z) : M unit :=
  catch
    (bs ← getBetsByRoundId rid ; for_each bs (settle_one color num))
    (ret tt).

(** No WebSocket server is ever attached ([setWebSocketServer] is not
    called), so the broadcast does nothing. *)
Definition broadcastGameUpdate : M unit := ret tt.

Definition createNewRound (r1 r2 : JS.number) : M unit :=
  periodNumber ← generatePeriodNumber ;
  let res := generateResult r1 r2 in
  round ← createGameRound (mkInsertGameRound periodNumber (fst res) (snd res)) ;
  modify (with_currentRoundId (Some (r_id round))) ;;
  recentRounds ← getRecentRounds 2 ;
  match recentRounds with
  | _ :: prev :: _ => processRoundResult (r_id prev) (result prev) (number prev)
  | _ => ret tt
  end ;;
  broadcastGameUpdate.

(** [initializeSequence] up to the call of [startGameLoop]. *)
Definition initializeSequence : M unit :=
  catch
    (recentRounds ← getRecentRounds 1 ;
     match recentRounds with
     | latest :: _ =>
         modify (with_currentSequence (JS.parseInt (JS.slice_last 3 (periodNumber latest))))
     | [] => ret tt
     end)
    (ret tt).

(* ===================================================================== *)
(** * server/routes.ts: POST /api/game/bet and POST /api/auth/register *)
(* ===================================================================== *)

Inductive reply :=
  | reply_bet (bet : Bet) (message : string)
  | reply_error (error : string).

Record response := mkResponse {
  res_status : Z;
  res_json : reply;
}.

Definition placeBet (body : gmap string json) : M response :=
  catch
    (currentRound ← getCurrentRound ;
     match currentRound with
     | None => ret (mkResponse 400 (reply_error "No active round"))
     | Some cur =>
         match insertBetSchema_parse body with
         | None => throw
         | Some (uid, t, v, a) =>
             let betData := mkInsertBet uid t v a (r_id cur) in
             user ← getUser (ib_userId betData) ;
             match user with
             | None => ret (mkResponse 404 (reply_error "User not found"))
             | Some u =>
                 let betAmount := JS.parseFloat (ib_amount betData) in
                 let userBalance := JS.parseFloat (balance u) in
                 if JS.ltb userBalance betAmount then
                   ret (mkResponse 400 (reply_error "Insufficient balance"))
                 else
                   bet ← createBet betData ;
                   let newBalance := JS.toString (JS.sub userBalance betAmount) in
                   updateUserBalance (ib_userId betData) newBalance ;;
                   ret (mkResponse 200 (reply_bet bet "Bet placed successfully"))
             end
         end
     end)
    (ret (mkResponse 500 (reply_error "Failed to place bet"))).

(* ===================================================================== *)
(** * Vocabulary of the statements *)
(* ===================================================================== *)

(** The three decimal digits of a counter value in 0..999. *)
Definition three_digits (z : Z) : string :=
  String (JS.digit_char (z / 100))
    (String (JS.digit_char (z / 10 mod 10))
       (String (JS.digit_char (z mod 10)) EmptyString)).

(** The counters reached by [n] successive calls of the sequencer. *)
Fixpoint counters (n : nat) (c : JS.integer) : list JS.integer :=
  match n with
  | O => []
  | S k => next_sequence c :: counters k (next_sequence c)
  end.

(** The colour as a function of the number drawn and of the second draw. *)
Definition color_of (n : Z) (r2 : JS.number) : string :=
  if n =? 0 then (if JS.ltb r2 JS.lit_0_5 then "red" else "violet")
  else if n =? 5 then (if JS.ltb r2 JS.lit_0_5 then "green" else "violet")
  else if (n =? 1) || (n =? 3) || (n =? 7) || (n =? 9) then "green"
  else "red".

(** A decimal string with exactly two fractional digits: an optional
    minus sign, at least one digit, a point, two digits. *)
Definition two_fraction_digits (s : string) : bool :=
  let '(_, s0) := match s with String "-" t => (true, t) | _ => (false, s) end in
  let '(_, len, rest) := JS.span_digits 0 0 s0 in
  (0 <? len) &&
  match rest with
  | String "." (String a (String b EmptyString)) =>
      match JS.digit_of a, JS.digit_of b with
      | Some _, Some _ => true
      | _, _ => false
      end
  | _ => false
  end.

(** A string of decimal digits only, and the number it writes after [acc]. *)
Fixpoint all_digits (s : string) : bool :=
  match s with
  | String c t =>
      match JS.digit_of c with
      | Some _ => all_digits t
      | None => false
      end
  | EmptyString => true
  end.

Fixpoint digits_value (acc : Z) (s : string) : Z :=
  match s with
  | String c t =>
      match JS.digit_of c with
      | Some d => digits_value (10 * acc + d) t
      | None => acc
      end
  | EmptyString => acc
  end.

(** The real number a finite Number stands for, and the decimal
    [d * 10^x]. *)
Definition value (x : JS.number) : R :=
  match x with
  | S754_finite s m e => (IZR (cond_Zopp s (Zpos m)) * powerRZ 2 e)%R
  | _ => 0%R
  end.

Definition decimal (d x : Z) : R := (IZR d * powerRZ 10 x)%R.

Definition is_finite (x : JS.number) : bool :=
  match x with
  | S754_zero _ | S754_finite _ _ _ => true
  | _ => false
  end.

(** Exponents of binary64 start at -1074. *)
Definition low_exponent (x : JS.number) : Prop :=
  match x with
  | S754_finite _ _ e => -1074 <= e
  | _ => True
  end.

(** The Number with sign [s], mantissa [m >= 0] and exponent [e]. *)
Definition number_of (s : bool) (m e : Z) : JS.number :=
  match m with
  | Z0 => S754_zero s
  | Zpos p => S754_finite s p e
  | Zneg _ => S754_nan
  end.

(** What may follow the digits of a Number's text: nothing, or an exponent. *)
Definition is_tail (tl : string) : Prop :=
  tl = EmptyString \/ exists t, tl = String "e" t.

(** The text [a] is a decimal that is zero or more and has at most two
    fractional digits: [A] hundredths. *)
Definition reads_as (a : string) (A : Z) : Prop :=
  exists v x,
    Column.numeric_in a = Some (Column.Num false v x) /\ -2 <= x /\ A = v * 10 ^ (x + 2).

(** The primary key of [bets]. *)
Definition unique_bet_ids (s : State) : Prop := NoDup (map b_id (bets s)).

(** No storage call fails among the next [n]. *)
Definition no_fault (n : nat) (s : State) : bool := forallb negb (take n (faults s)).

(** What settlement of a round with outcome [(color, num)] makes of a bet
    row, and of the users table for one bet of the round. *)
Definition settled (rid : Z) (color : string) (num : Z) (b : Bet) : Bet :=
  if roundId b =? rid then
    let wm := decide_bet color num b in
    set_result (status_of wm) (Column.decimal_10_2 (payout_of b wm)) b
  else b.

(** One bet of the snapshot applied to a row, to the whole table, and to
    the state. *)
Definition update_row (color : string) (num : Z) (b x : Bet) : Bet :=
  if b_id x =? b_id b then
    let wm := decide_bet color num b in
    set_result (status_of wm) (Column.decimal_10_2 (payout_of b wm)) x
  else x.

(** The balance is the one read back from the column; the payout is the
    string the loop holds, before its own column has rounded it. *)
Definition credited (payout : string) (u : User) : User :=
  set_balance
    (Column.decimal_10_2
       (JS.toString (JS.add (JS.parseFloat (balance u)) (JS.parseFloat payout)))) u.

Definition credit (color : string) (num : Z) (us : gmap Z User) (b : Bet) : gmap Z User :=
  let wm := decide_bet color num b in
  if fst wm then alter (credited (payout_of b wm)) (userId b) us else us.

Definition apply_settle (color : string) (num : Z) (s : State) (b : Bet) : State :=
  with_users (fun us => credit color num us b)
    (with_bets (map (update_row color num b)) s).


(** The storage call that is next: whether it fails, and the state it
    leaves before doing its work. *)
Definition next_fault (s : State) : bool :=
  match faults s with true :: _ => true | _ => false end.

Definition pop_fault (s : State) : State :=
  match faults s with [] => s | _ :: fs => with_faults fs s end.

(** When [placeBet] goes through: a current round, a body the schema
    accepts, an existing user whose balance is not below the amount, and
    four storage calls that succeed. *)
Definition acceptable (body : gmap string json) (s : State) : Prop :=
  exists cur uid t v a u,
    head (gameRounds s) = Some cur
    /\ insertBetSchema_parse body = Some (uid, t, v, a)
    /\ users s !! uid = Some u
    /\ JS.ltb (JS.parseFloat (balance u)) (JS.parseFloat a) = false
    /\ no_fault 4 s = true.

(** The handler, branch by branch. *)
Inductive placement : gmap string json -> State -> response -> State -> Prop :=
  | place_read_failed body s :
      next_fault s = true ->
      placement body s (mkResponse 500 (reply_error "Failed to place bet")) (pop_fault s)
  | place_no_round body s :
      next_fault s = false -> head (gameRounds s) = None ->
      placement body s (mkResponse 400 (reply_error "No active round")) (pop_fault s)
  | place_invalid body s cur :
      next_fault s = false -> head (gameRounds s) = Some cur ->
      insertBetSchema_parse body = None ->
      placement body s (mkResponse 500 (reply_error "Failed to place bet")) (pop_fault s)
  | place_user_failed body s cur uid t v a :
      next_fault s = false -> head (gameRounds s) = Some cur ->
      insertBetSchema_parse body = Some (uid, t, v, a) ->
      next_fault (pop_fault s) = true ->
      placement body s (mkResponse 500 (reply_error "Failed to place bet"))
                (pop_fault (pop_fault s))
  | place_no_user body s cur uid t v a :
      next_fault s = false -> head (gameRounds s) = Some cur ->
      insertBetSchema_parse body = Some (uid, t, v, a) ->
      next_fault (pop_fault s) = false ->
      users s !! uid = None ->
      placement body s (mkResponse 404 (reply_error "User not found"))
                (pop_fault (pop_fault s))
  | place_insufficient body s cur uid t v a u :
      next_fault s = false -> head (gameRounds s) = Some cur ->
      insertBetSchema_parse body = Some (uid, t, v, a) ->
      next_fault (pop_fault s) = false ->
      users s !! uid = Some u ->
      JS.ltb (JS.parseFloat (balance u)) (JS.parseFloat a) = true ->
      placement body s (mkResponse 400 (reply_error "Insufficient balance"))
                (pop_fault (pop_fault s))
  | place_insert_failed body s cur uid t v a u :
      next_fault s = false -> head (gameRounds s) = Some cur ->
      insertBetSchema_parse body = Some (uid, t, v, a) ->
      next_fault (pop_fault s) = false ->
      users s !! uid = Some u ->
      JS.ltb (JS.parseFloat (balance u)) (JS.parseFloat a) = false ->
      next_fault (pop_fault (pop_fault s)) = true ->
      placement body s (mkResponse 500 (reply_error "Failed to place bet"))
                (pop_fault (pop_fault (pop_fault s)))
  | place_update_failed body s cur uid t v a u :
      next_fault s = false -> head (gameRounds s) = Some cur ->
      insertBetSchema_parse body = Some (uid, t, v, a) ->
      next_fault (pop_fault s) = false ->
      users s !! uid = Some u ->
      JS.ltb (JS.parseFloat (balance u)) (JS.parseFloat a) = false ->
      next_fault (pop_fault (pop_fault s)) = false ->
      next_fault (pop_fault (pop_fault (pop_fault s))) = true ->
      placement body s (mkResponse 500 (reply_error "Failed to place bet"))
        (pop_fault
           (with_bets_serial (bets_serial s + 1)
              (with_bets (fun bs => bs ++ [mkBet (bets_serial s) uid (r_id cur) t v
                                                 (Column.decimal_10_2 a)
                                                 "0.00" "pending"])
                 (pop_fault (pop_fault (pop_fault s))))))
  | place_accepted body s cur uid t v a u :
      next_fault s = false -> head (gameRounds s) = Some cur ->
      insertBetSchema_parse body = Some (uid, t, v, a) ->
      next_fault (pop_fault s) = false ->
      users s !! uid = Some u ->
      JS.ltb (JS.parseFloat (balance u)) (JS.parseFloat a) = false ->
      next_fault (pop_fault (pop_fault s)) = false ->
      next_fault (pop_fault (pop_fault (pop_fault s))) = false ->
      placement body s
        (mkResponse 200
           (reply_bet (mkBet (bets_serial s) uid (r_id cur) t v (Column.decimal_10_2 a)
                             "0.00" "pending")
                      "Bet placed successfully"))
        (with_users
           (alter (set_balance
                     (Column.decimal_10_2
                        (JS.toString (JS.sub (JS.parseFloat (balance u))
                                             (JS.parseFloat a)))))
                  uid)
           (pop_fault
              (with_bets_serial (bets_serial s + 1)
                 (with_bets (fun bs => bs ++ [mkBet (bets_serial s) uid (r_id cur) t v
                                                    (Column.decimal_10_2 a)
                                                    "0.00" "pending"])
                    (pop_fault (pop_fault (pop_fault s))))))).

(** ** Sample data *)

Definition sample_user : User := mkUser 1 "asha" "secret" "50.00".

Definition sample_round : GameRound := mkGameRound 1 "127927270868" "red" 2.

(** One user, one open round, no bet yet. *)
Definition sample_state : State :=
  mkState {[ 1 := sample_user ]} 2 [sample_round] 2 [] 1 [] (Some 1) (JS.Int 868).

Definition sample_body : gmap string json :=
  {[ "userId" := JNumber JS.lit_1; "betType" := JString "color";
     "betValue" := JString "red"; "amount" := JString "10.00" ]}.

Definition sample_bet : Bet := mkBet 1 1 1 "color" "red" "10.00" "0.00" "pending".

(** A bet on the open round whose owner, user 7, has no row. *)
Definition orphan_bet : Bet := mkBet 1 7 1 "color" "red" "10.00" "0.00" "pending".

Definition orphan_state : State :=
  mkState {[ 1 := sample_user ]} 2 [sample_round] 2 [orphan_bet] 2 [] (Some 1) (JS.Int 868).

(** The sample state once the sample bet has been placed. *)
Definition betting_state : State :=
  mkState {[ 1 := mkUser 1 "asha" "secret" "40.00" ]} 2 [sample_round] 2
          [sample_bet] 2 [] (Some 1) (JS.Int 868).

(** One user with two winning bets on the open round: a cent on red and
    one unit on the number 2. *)
Definition two_wins_state : State :=
  mkState {[ 1 := sample_user ]} 2 [sample_round] 2
          [mkBet 1 1 1 "color" "red" "0.01" "0.00" "pending";
           mkBet 2 1 1 "number" "2" "1.00" "0.00" "pending"] 3 [] (Some 1) (JS.Int 868).

(** Bodies wagering half a cent, and no number at all. *)
Definition small_body : gmap string json :=
  {[ "userId" := JNumber JS.lit_1; "betType" := JString "color";
     "betValue" := JString "red"; "amount" := JString "0.005" ]}.

Definition nan_body : gmap string json :=
  {[ "userId" := JNumber JS.lit_1; "betType" := JString "color";
     "betValue" := JString "red"; "amount" := JString "NaN" ]}.

(* ===================================================================== *)
(** * The rest of the storage layer, the other routes, the client's colours *)
(* ===================================================================== *)

(** [getUserByUsername]: the first row the query returns, if any. *)
Definition find_user (name : string) (us : gmap Z User) : option User :=
  head (List.filter (fun u => String.eqb (username u) name) (map_to_list us).*2).

Definition getUserByUsername (name : string) : M (option User) :=
  db_call ;; state_op (fun s => (Ok (find_user name (users s)), s)).

(** [getBetsByUserId]: newest first, [limit] defaulting to 10. *)
Definition getBetsByUserId (uid : Z) (limit : option nat) : M (list Bet) :=
  db_call ;;
  state_op (fun s =>
    (Ok (take (default 10%nat limit)
              (rev (List.filter (fun b => userId b =? uid) (bets s)))), s)).

(** What the auth routes send back of a user: [{ ...user, password: undefined }]. *)
Record PublicUser := mkPublicUser {
  pu_id : Z;
  pu_username : string;
  pu_balance : string;
}.

Definition strip_password (u : User) : PublicUser :=
  mkPublicUser (u_id u) (username u) (balance u).

Inductive auth_reply :=
  | auth_user (user : PublicUser)
  | auth_error (error : string).

(** POST /api/auth/login and POST /api/auth/register, for a body whose
    [username] and [password] are strings. *)
Definition login (name pw : string) : M (Z * auth_reply) :=
  catch
    (user ← getUserByUsername name ;
     match user with
     | Some u =>
         if String.eqb (password u) pw then ret (200, auth_user (strip_password u))
         else ret (401, auth_error "Invalid credentials")
     | None => ret (401, auth_error "Invalid credentials")
     end)
    (ret (500, auth_error "Login failed")).

Definition register (name pw : string) : M (Z * auth_reply) :=
  catch
    (existingUser ← getUserByUsername name ;
     match existingUser with
     | Some _ => ret (400, auth_error "Username already exists")
     | None =>
         user ← createUser {[ "username" := JString name; "password" := JString pw ]} ;
         ret (200, auth_user (strip_password user))
     end)
    (ret (500, auth_error "Registration failed")).

(** GET /api/game/current; [now] is what [Date.now()] returns. *)
Record GameStateReply := mkGameStateReply {
  gs_currentRound : option GameRound;
  gs_recentRounds : list GameRound;
  gs_serverTime : Z;
}.

Definition getGameState (now : Z) : M (Z * option GameStateReply) :=
  catch
    (currentRound ← getCurrentRound ;
     recentRounds ← getRecentRounds 20 ;
     ret (200, Some (mkGameStateReply currentRound recentRounds now)))
    (ret (500, None)).

(** The client's [getNumberColor], which labels the number buttons. *)
Definition getNumberColor (num : JS.number) : string :=
  if JS.eqb num JS.lit_0 then "red-violet"
  else if JS.eqb num JS.lit_5 then "green-violet"
  else if existsb (JS.eqb num) [JS.lit_1; JS.lit_3; JS.lit_7; JS.lit_9] then "green"
  else "red".

(** ** The constraints the schema declares *)

(** Primary keys below their serials (hence unique), the two unique
    columns, and the two foreign keys of [bets]. *)
Record well_formed (s : State) : Prop := mkWellFormed {
  wf_bet_ids : forall b, In b (bets s) -> b_id b < bets_serial s;
  wf_bet_unique : NoDup (map b_id (bets s));
  wf_round_ids : forall r, In r (gameRounds s) -> r_id r < gameRounds_serial s;
  wf_round_unique : NoDup (map r_id (gameRounds s));
  wf_period_unique : NoDup (map periodNumber (gameRounds s));
  wf_user_ids : forall k u, users s !! k = Some u -> u_id u = k /\ k < users_serial s;
  wf_username_unique :
    forall k1 k2 u1 u2,
      users s !! k1 = Some u1 -> users s !! k2 = Some u2 ->
      username u1 = username u2 -> k1 = k2;
  wf_bet_user : forall b, In b (bets s) -> is_Some (users s !! userId b);
  wf_bet_round : forall b, In b (bets s) -> round_exists (roundId b) (gameRounds s) = true;
}.

(** An empty database behind a freshly constructed engine. *)
Definition empty_state (fs : list bool) : State :=
  mkState ∅ 1 [] 1 [] 1 fs None initial_sequence.

(** What can happen to the system: the engine starts, a tick fires, a
    request arrives, or the database changes which calls it will reject. *)
Inductive event :=
  | EvInitialize
  | EvTick (r1 r2 : JS.number)
  | EvPlaceBet (body : gmap string json)
  | EvRegister (name pw : string)
  | EvLogin (name pw : string)
  | EvGameState (now : Z)
  | EvBetHistory (uid : Z) (limit : option nat)
  | EvFaults (fs : list bool).

Definition step (s : State) (e : event) : State :=
  match e with
  | EvInitialize => snd (initializeSequence s)
  | EvTick r1 r2 => snd (createNewRound r1 r2 s)
  | EvPlaceBet body => snd (placeBet body s)
  | EvRegister name pw => snd (register name pw s)
  | EvLogin name pw => snd (login name pw s)
  | EvGameState now => snd (getGameState now s)
  | EvBetHistory uid limit => snd (getBetsByUserId uid limit s)
  | EvFaults fs => with_faults fs s
  end.

Definition run (es : list event) (s : State) : State := fold_left step es s.

(** A property of states kept by a computation, whatever its outcome. *)
Definition preserves {A} (P : State -> Prop) (m : M A) : Prop :=
  forall s, P s -> P (snd (m s)).

(** What settlement and reads must leave alone: rounds, serials, engine
    fields, the ids of users, and every bet's identity and wager. *)
Definition bet_core (b : Bet) : Z * Z * Z * string * string * string :=
  (b_id b, userId b, roundId b, betType b, betValue b, amount b).

Definition user_core (u : User) : Z * string * string :=
  (u_id u, username u, password u).

Record same_frame (s0 s : State) : Prop := mkSameFrame {
  sf_rounds : gameRounds s = gameRounds s0;
  sf_rounds_serial : gameRounds_serial s = gameRounds_serial s0;
  sf_bets_serial : bets_serial s = bets_serial s0;
  sf_users_serial : users_serial s = users_serial s0;
  sf_round_id : currentRoundId s = currentRoundId s0;
  sf_sequence : currentSequence s = currentSequence s0;
  sf_bets : map bet_core (bets s) = map bet_core (bets s0);
  sf_users : user_core <$> users s = user_core <$> users s0;
}.

(** A finite Number below zero, and one that is zero or above. *)
Definition is_negative (x : JS.number) : bool :=
  match x with S754_finite true _ _ => true | _ => false end.

Definition is_nonnegative (x : JS.number) : bool :=
  match x with S754_zero _ | S754_finite false _ _ => true | _ => false end.

(** Every label of the cycle is in the rounds table. *)
Definition labels_exhausted (s : State) : bool :=
  forallb (fun z => period_taken (label_of (JS.Int z)) (gameRounds s))
          (map Z.of_nat (seq 0 1000)).

(** A database after a full cycle: 1000 rounds, the latest issued at 866. *)
Definition exhausted_state : State :=
  mkState {[ 1 := sample_user ]} 2
    (map (fun k => mkGameRound (1000 - Z.of_nat k)
                               (label_of (JS.Int ((866 - Z.of_nat k) mod 1000))) "red" 2)
         (seq 0 1000))
    1001 [] 1 [] (Some 1000) (JS.Int 866).

(** A body wagering a negative amount. *)
Definition negative_body : gmap string json :=
  {[ "userId" := JNumber JS.lit_1; "betType" := JString "color";
     "betValue" := JString "red"; "amount" := JString "-10.00" ]}.

(* ===================================================================== *)
(** * The built-ins on the values the server meets *)
(* ===================================================================== *)

Module JSExamples.

Example parseFloat_amount : JS.parseFloat "10.00" = JS.of_Z 10.
Proof. reflexivity. Qed.

Example parseFloat_prefix : JS.toString (JS.parseFloat "  -12.5abc") = "-12.5".
Proof. vm_compute. reflexivity. Qed.

Example parseFloat_no_number : JS.parseFloat "abc" = JS.NaN.
Proof. reflexivity. Qed.

Example toString_sum : JS.toString (JS.add (JS.parseFloat "0.1") (JS.parseFloat "0.2"))
                       = "0.30000000000000004".
Proof. vm_compute. reflexivity. Qed.

Example toString_product : JS.toString (JS.mul (JS.parseFloat "4.35") (JS.parseFloat "100"))
                           = "434.99999999999994".
Proof. vm_compute. reflexivity. Qed.

Example toString_exponent : JS.toString (JS.parseFloat "1e21") = "1e+21".
Proof. vm_compute. reflexivity. Qed.

Example toString_small : JS.toString (JS.parseFloat "0.0000001") = "1e-7".
Proof. vm_compute. reflexivity. Qed.

Example parseInt_prefix : JS.parseInt "12px" = JS.Int 12.
Proof. reflexivity. Qed.

Example parseInt_hex : JS.parseInt " -0x1F" = JS.Int (-31).
Proof. reflexivity. Qed.

Example parseInt_no_digits : JS.parseInt "red" = JS.IntNaN.
Proof. reflexivity. Qed.

Example padStart_counter : JS.padStart 3 "0" "7" = "007".
Proof. reflexivity. Qed.

Example slice_last_label : JS.slice_last 3 "127927270868" = "868".
Proof. reflexivity. Qed.

End JSExamples.

(* ===================================================================== *)
(** * Period sequencer *)
(* ===================================================================== *)

Section Sequencer.

Lemma with_currentSequence_idem c c' s :
  with_currentSequence c (with_currentSequence c' s) = with_currentSequence c s.
Proof. reflexivity. Qed.

Lemma issue_labels_run n : forall c s,
  issue_labels n (with_currentSequence c s)
  = (Ok (map label_of (counters n c)),
     with_currentSequence (Nat.iter n next_sequence c) s).
Proof.
  induction n as [|n IH]; intros c s; [reflexivity|].
  cbn [issue_labels counters map].
  unfold mbind, M_bind, bind, generatePeriodNumber.
  cbn [currentSequence with_currentSequence].
  rewrite with_currentSequence_idem, IH.
  unfold mret, M_ret, ret. f_equal. f_equal.
  symmetry. apply Nat.iter_succ_r.
Qed.

Lemma pad3_table :
  forallb (fun z => String.eqb (JS.padStart 3 "0" (JS.Z_toString z)) (three_digits z))
          (map Z.of_nat (seq 0 1000)) = true.
Proof. vm_compute. reflexivity. Qed.

Lemma pad3_digits z :
  0 <= z <= 999 -> JS.padStart 3 "0" (JS.Z_toString z) = three_digits z.
Proof.
  intros Hz. pose proof pad3_table as H.
  rewrite forallb_forall in H.
  apply String.eqb_eq, H, in_map_iff.
  exists (Z.to_nat z). split; [lia|]. apply in_seq. lia.
Qed.

End Sequencer.

(** C7: whatever the counter holds, a call of the sequencer leaves it
    incremented by exactly 1, or at 0 when the increment passes 999, and
    returns the fixed prefix followed by the new counter padded with zeros
    to three digits. *)
Theorem generatePeriodNumber_increments_and_wraps (z : Z) (s : State) :
  let z' := if z + 1 >? 999 then 0 else z + 1 in
  generatePeriodNumber (with_currentSequence (JS.Int z) s)
  = (Ok (basePeriodNumber +:+ JS.padStart 3 "0" (JS.Z_toString z')),
     with_currentSequence (JS.Int z') s)
  /\ (z < 999 -> z' = z + 1)
  /\ (999 <= z -> z' = 0)
  /\ (0 <= z' <= 999 ->
      basePeriodNumber +:+ JS.padStart 3 "0" (JS.Z_toString z')
      = "127927270" +:+ three_digits z').
Proof.
  intros z'. subst z'. repeat split.
  - unfold generatePeriodNumber, next_sequence, label_of.
    cbn [currentSequence with_currentSequence JS.integer_succ JS.integer_gtb].
    rewrite Z.gtb_ltb. destruct (999 <? z + 1); reflexivity.
  - intros Hz. destruct (Z.gtb_spec (z + 1) 999); lia.
  - intros Hz. destruct (Z.gtb_spec (z + 1) 999); lia.
  - intros Hz. rewrite pad3_digits by exact Hz. reflexivity.
Qed.

(** C6, as the code has it: from the counter value 867, 132 calls leave
    the three-digit suffix at 999, and the next call, the 133rd, wraps it
    to 000. *)
Theorem sequencer_wraps_at_call_133 (s : State) :
  let s0 := with_currentSequence (JS.Int 867) s in
  (exists ls, issue_labels 132 s0 = (Ok ls, with_currentSequence (JS.Int 999) s)
              /\ last ls = Some "127927270999")
  /\ generatePeriodNumber (with_currentSequence (JS.Int 999) s)
     = (Ok "127927270000", with_currentSequence (JS.Int 0) s).
Proof.
  intros s0. subst s0. split.
  - exists (map label_of (counters 132 (JS.Int 867))).
    rewrite issue_labels_run. split.
    + replace (Nat.iter 132 next_sequence (JS.Int 867)) with (JS.Int 999)
        by (vm_compute; reflexivity).
      reflexivity.
    + vm_compute. reflexivity.
  - reflexivity.
Qed.

(** C6 fails as stated: after 133 calls from 867 the suffix is 000, not
    999, and the counter is 0. *)
Lemma sequencer_133_calls_suffix_not_999 :
  let s0 := mkState ∅ 1 [] 1 [] 1 [] None (JS.Int 867) in
  exists ls s', issue_labels 133 s0 = (Ok ls, s')
    /\ currentSequence s' = JS.Int 0
    /\ JS.slice_last 3 <$> last ls = Some "000"
    /\ JS.slice_last 3 <$> last ls <> Some "999".
Proof.
  eexists _, _. split; [vm_compute; reflexivity|].
  repeat split; discriminate.
Qed.

(** C8 fails on the code: the 1001st label issued from the counter value
    867 is the 1st again, although [period_number] is declared unique. *)
Theorem period_label_reissued_after_1000_calls (s : State) :
  exists ls s',
    issue_labels 1001 (with_currentSequence initial_sequence s) = (Ok ls, s')
    /\ ls !! 0%nat = Some "127927270868"
    /\ ls !! 1000%nat = Some "127927270868"
    /\ ~ NoDup ls.
Proof.
  eexists _, _. rewrite issue_labels_run. split; [reflexivity|].
  assert (H0 : map label_of (counters 1001 initial_sequence) !! 0%nat
               = Some "127927270868"%string) by (vm_compute; reflexivity).
  assert (H1 : map label_of (counters 1001 initial_sequence) !! 1000%nat
               = Some "127927270868"%string) by (vm_compute; reflexivity).
  split; [exact H0 | split; [exact H1 |]].
  intros Hnd. rewrite NoDup_alt in Hnd.
  specialize (Hnd 0%nat 1000%nat _ H0 H1). discriminate.
Qed.

(* ===================================================================== *)
(** * Outcome generator *)
(* ===================================================================== *)

Section Rounding.

Lemma digits2_pos_log2 (p : positive) :
  Zpos (digits2_pos p) = Z.log2 (Zpos p) + 1.
Proof.
  induction p as [p IH|p IH|]; cbn [digits2_pos].
  - rewrite Pos2Z.inj_succ, IH.
    change (Zpos p~1) with (2 * Zpos p + 1).
    rewrite Z.log2_succ_double by lia. lia.
  - rewrite Pos2Z.inj_succ, IH.
    change (Zpos p~0) with (2 * Zpos p).
    rewrite Z.log2_double by lia. lia.
  - reflexivity.
Qed.

Lemma digits2_pos_le (p : positive) (k : Z) :
  0 <= k -> Zpos p < 2 ^ k -> Zpos (digits2_pos p) <= k.
Proof.
  intros Hk Hp. rewrite digits2_pos_log2.
  assert (Z.log2 (Zpos p) < k) by (apply Z.log2_lt_pow2; lia). lia.
Qed.

Lemma digits2_pos_lower (p : positive) :
  2 ^ (Zpos (digits2_pos p) - 1) <= Zpos p.
Proof.
  rewrite digits2_pos_log2. replace (Z.log2 (Zpos p) + 1 - 1) with (Z.log2 (Zpos p)) by lia.
  apply Z.log2_spec. lia.
Qed.

(** One right shift: the mantissa is halved and the round bit is the bit
    shifted out. *)
Lemma shr_1_spec (mrs : shr_record) :
  0 <= shr_m mrs ->
  shr_m (shr_1 mrs) = shr_m mrs / 2 /\ shr_r (shr_1 mrs) = Z.odd (shr_m mrs).
Proof.
  destruct mrs as [m r s]. cbn [shr_m]. intros Hm.
  destruct m as [|p|p]; [split; reflexivity | | lia].
  destruct p as [p|p|]; cbn [shr_1 shr_m shr_r].
  - split; [|reflexivity].
    change (Zpos p~1) with (2 * Zpos p + 1).
    apply Z.div_unique with (r := 1); lia.
  - split; [|reflexivity].
    change (Zpos p~0) with (2 * Zpos p).
    apply Z.div_unique with (r := 0); lia.
  - split; reflexivity.
Qed.

Lemma iter_shr_1_spec (p : positive) : forall mrs,
  0 <= shr_m mrs ->
  shr_m (SpecFloat.iter_pos shr_1 p mrs) = shr_m mrs / 2 ^ Zpos p
  /\ shr_r (SpecFloat.iter_pos shr_1 p mrs) = Z.testbit (shr_m mrs) (Zpos p - 1).
Proof.
  induction p as [p IH|p IH|]; intros mrs Hm; cbn [SpecFloat.iter_pos].
  - destruct (shr_1_spec mrs Hm) as [H1 _].
    assert (H1' : 0 <= shr_m (shr_1 mrs)) by (rewrite H1; apply Z.div_pos; lia).
    destruct (IH _ H1') as [H2 _].
    assert (H2' : 0 <= shr_m (SpecFloat.iter_pos shr_1 p (shr_1 mrs)))
      by (rewrite H2; apply Z.div_pos; [lia | apply Z.pow_pos_nonneg; lia]).
    destruct (IH _ H2') as [H3 H4].
    assert (Hp : 0 < 2 ^ Zpos p) by (apply Z.pow_pos_nonneg; lia).
    split.
    + rewrite H3, H2, H1, !Z.div_div by lia.
      f_equal.
      assert (HxI : 2 ^ Zpos p~1 = 2 * (2 ^ Zpos p * 2 ^ Zpos p))
        by (rewrite <- Z.pow_add_r, <- Z.pow_succ_r by lia; f_equal; lia).
      lia.
    + rewrite H4, H2, H1, Z.div_div by lia.
      replace (2 * 2 ^ Zpos p) with (2 ^ (Zpos p + 1))
        by (rewrite Z.pow_add_r by lia; lia).
      rewrite <- Z.shiftr_div_pow2, Z.shiftr_spec by lia.
      f_equal. lia.
  - destruct (IH _ Hm) as [H2 _].
    assert (H2' : 0 <= shr_m (SpecFloat.iter_pos shr_1 p mrs))
      by (rewrite H2; apply Z.div_pos; [lia | apply Z.pow_pos_nonneg; lia]).
    destruct (IH _ H2') as [H3 H4].
    assert (Hp : 0 < 2 ^ Zpos p) by (apply Z.pow_pos_nonneg; lia).
    split.
    + rewrite H3, H2, Z.div_div by lia.
      f_equal.
      assert (HxO : 2 ^ Zpos p~0 = 2 ^ Zpos p * 2 ^ Zpos p)
        by (rewrite <- Z.pow_add_r by lia; f_equal; lia).
      lia.
    + rewrite H4, H2.
      rewrite <- Z.shiftr_div_pow2, Z.shiftr_spec by lia.
      f_equal. lia.
  - destruct (shr_1_spec mrs Hm) as [H1 H2]. split.
    + rewrite H1. reflexivity.
    + rewrite H2. symmetry. apply Z.bit0_odd.
Qed.

(** Rounding to nearest after a shift by [p] moves the value up by at most
    half a unit of the new last place. *)
Lemma round_after_shift (M : Z) (p : positive) (mrs : shr_record) :
  0 <= M -> shr_m mrs = M ->
  let mrs' := SpecFloat.iter_pos shr_1 p mrs in
  let m1 := round_nearest_even (shr_m mrs') (loc_of_shr_record mrs') in
  0 <= m1 /\ m1 * 2 ^ Zpos p <= M + 2 ^ (Zpos p - 1).
Proof.
  intros HM Hm mrs' m1.
  assert (Hm0 : 0 <= shr_m mrs) by lia.
  destruct (iter_shr_1_spec p mrs Hm0) as [Hq Hr].
  fold mrs' in Hq, Hr. rewrite Hm in Hq, Hr.
  assert (Hp : 0 < 2 ^ Zpos p) by (apply Z.pow_pos_nonneg; lia).
  assert (Hh : 0 < 2 ^ (Zpos p - 1)) by (apply Z.pow_pos_nonneg; lia).
  assert (H2 : 2 ^ Zpos p = 2 * 2 ^ (Zpos p - 1)).
  { replace (Zpos p) with (1 + (Zpos p - 1)) at 1 by lia.
    rewrite Z.pow_add_r by lia. lia. }
  assert (Hq0 : 0 <= M / 2 ^ Zpos p) by (apply Z.div_pos; lia).
  pose proof (Z.mul_div_le M (2 ^ Zpos p) Hp) as Hle.
  assert (Hup : Z.testbit M (Zpos p - 1) = true ->
                (M / 2 ^ Zpos p + 1) * 2 ^ Zpos p <= M + 2 ^ (Zpos p - 1)).
  { intros Hb. apply Z.testbit_true in Hb; [|lia].
    pose proof (Z.div_mod M (2 ^ (Zpos p - 1)) ltac:(lia)) as Hd.
    pose proof (Z.mod_pos_bound M (2 ^ (Zpos p - 1)) Hh) as Hb1.
    pose proof (Z.div_mod (M / 2 ^ (Zpos p - 1)) 2 ltac:(lia)) as Hd2.
    rewrite Hb in Hd2.
    assert (Hqq : M / 2 ^ Zpos p = M / 2 ^ (Zpos p - 1) / 2).
    { rewrite H2, Z.div_div by lia. f_equal. lia. }
    rewrite Hqq. nia. }
  subst m1. destruct mrs' as [m' r' s']. cbn [shr_m shr_r] in *.
  subst m'. destruct r', s'; cbn [loc_of_shr_record round_nearest_even].
  - split; [lia|]. apply Hup. symmetry. exact Hr.
  - destruct (Z.even (M / 2 ^ Zpos p)).
    + split; [lia|]. nia.
    + split; [lia|]. apply Hup. symmetry. exact Hr.
  - split; [lia|]. nia.
  - split; [lia|]. nia.
Qed.

End Rounding.

Section RoundBelowTen.

Lemma fexp_binary64 (e : Z) : fexp 53 1024 e = Z.max (e - 53) (-1074).
Proof. reflexivity. Qed.

Lemma ten_pow_digits (m : positive) (k : Z) :
  0 <= k -> Zpos m < 10 * 2 ^ k -> Zpos (digits2_pos m) <= k + 4.
Proof.
  intros Hk Hm. apply digits2_pos_le; [lia|].
  rewrite Z.pow_add_r by lia.
  assert (0 < 2 ^ k) by (apply Z.pow_pos_nonneg; lia).
  change (2 ^ 4) with 16. lia.
Qed.

(** The second normalisation of [binary_round_aux] never increases the
    value; below ten it yields zero or a Number below ten. *)
Lemma renormalise_below_ten (m1 fe : Z) :
  0 <= m1 -> -1074 <= fe <= 0 -> m1 < 10 * 2 ^ (- fe) ->
  let '(mrs, e) := shr_fexp 53 1024 m1 fe loc_Exact in
  (shr_m mrs = 0
   \/ exists mf, shr_m mrs = Zpos mf /\ e <= -49 /\ Zpos mf < 10 * 2 ^ (- e))
  \/ (shr_m mrs = m1 /\ e = fe).
Proof.
  intros Hm1 Hfe Hlt. unfold shr_fexp, shr.
  cbn [shr_record_of_loc].
  destruct (fexp 53 1024 (Zdigits2 m1 + fe) - fe) as [|p|p] eqn:Hn;
    [right; split; reflexivity | | right; split; reflexivity].
  left.
  destruct m1 as [|m|m]; [|clear Hm1|lia].
  { cbn [Zdigits2] in Hn. rewrite fexp_binary64 in Hn. lia. }
  cbn [Zdigits2] in Hn. rewrite fexp_binary64 in Hn.
  pose proof (ten_pow_digits m (- fe) ltac:(lia) Hlt) as Hd.
  set (mrs := {| shr_m := Zpos m; shr_r := false; shr_s := false |}).
  destruct (iter_shr_1_spec p mrs ltac:(cbn; lia)) as [Hq _].
  cbn [shr_m mrs] in Hq.
  assert (Hp : 0 < 2 ^ Zpos p) by (apply Z.pow_pos_nonneg; lia).
  assert (Hq0 : 0 <= Zpos m / 2 ^ Zpos p) by (apply Z.div_pos; lia).
  destruct (shr_m (SpecFloat.iter_pos shr_1 p mrs)) as [|mf|mf] eqn:Hmf;
    [left; reflexivity | right | lia].
  exists mf. split; [reflexivity|]. split; [lia|].
  rewrite Hq.
  apply Z.div_lt_upper_bound; [lia|].
  replace (- fe) with (Zpos p + - (fe + Zpos p)) in Hlt by lia.
  rewrite Z.pow_add_r in Hlt by lia. lia.
Qed.

(** Rounding [M * 2^E] to binary64 stays below ten when [M * 2^E] plus
    half a unit in the last place does. *)
Lemma binary_round_aux_below_ten (M : positive) (E : Z) :
  -1200 <= E < 0 ->
  Zpos M + 2 ^ (fexp 53 1024 (Zpos (digits2_pos M) + E) - E - 1) < 10 * 2 ^ (- E) ->
  binary_round_aux 53 1024 false (Zpos M) E loc_Exact = S754_zero false
  \/ exists mf ef,
       binary_round_aux 53 1024 false (Zpos M) E loc_Exact = S754_finite false mf ef
       /\ ef < 0 /\ Zpos mf < 10 * 2 ^ (- ef).
Proof.
  intros HE Hlt.
  set (fe := fexp 53 1024 (Zpos (digits2_pos M) + E)) in *.
  assert (Hpow : 0 <= 2 ^ (fe - E - 1)) by (apply Z.pow_nonneg; lia).
  assert (HM : Zpos M < 10 * 2 ^ (- E)) by lia.
  pose proof (ten_pow_digits M (- E) ltac:(lia) HM) as Hd.
  assert (Hfe : -1074 <= fe <= -49) by (subst fe; rewrite fexp_binary64; lia).
  unfold binary_round_aux.
  (* first shift *)
  assert (Hfirst : exists mrs' ,
             shr_fexp 53 1024 (Zpos M) E loc_Exact = (mrs', Z.max fe E)
             /\ let m1 := round_nearest_even (shr_m mrs') (loc_of_shr_record mrs') in
                0 <= m1 /\ m1 < 10 * 2 ^ (- Z.max fe E)).
  { unfold shr_fexp, shr. cbn [Zdigits2 shr_record_of_loc]. fold fe.
    destruct (fe - E) as [|p|p] eqn:Hn.
    - eexists. split; [f_equal; lia|].
      cbn. replace (Z.max fe E) with E by lia. lia.
    - set (mrs := {| shr_m := Zpos M; shr_r := false; shr_s := false |}).
      eexists. split; [f_equal; lia|].
      destruct (round_after_shift (Zpos M) p mrs ltac:(lia) eq_refl) as [H0 H1].
      split; [exact H0|].
      replace (Z.max fe E) with fe by lia.
      replace (fe - E - 1) with (Zpos p - 1) in Hlt by lia.
      assert (Hp : 0 < 2 ^ Zpos p) by (apply Z.pow_pos_nonneg; lia).
      replace (- E) with (Zpos p + - fe) in Hlt by lia.
      rewrite Z.pow_add_r in Hlt by lia. nia.
    - eexists. split; [f_equal; lia|].
      cbn. replace (Z.max fe E) with E by lia. lia. }
  destruct Hfirst as (mrs' & -> & Hm1 & Hm1lt).
  set (m1 := round_nearest_even (shr_m mrs') (loc_of_shr_record mrs')) in *.
  set (fe' := Z.max fe E) in *.
  pose proof (renormalise_below_ten m1 fe' Hm1 ltac:(lia) Hm1lt) as Hsecond.
  destruct (shr_fexp 53 1024 m1 fe' loc_Exact) as [mrs'' e''].
  destruct Hsecond as [[H0 | (mf & Hmf & He & Hlt')] | [Hsame He]].
  - rewrite H0. left. reflexivity.
  - rewrite Hmf. right. exists mf, e''.
    replace (e'' <=? 1024 - 53) with true by (symmetry; apply Z.leb_le; lia).
    split; [reflexivity|]. split; [lia | exact Hlt'].
  - rewrite Hsame, He. destruct m1 as [|mf|mf]; [left; reflexivity | | lia].
    right. exists mf, fe'.
    replace (fe' <=? 1024 - 53) with true by (symmetry; apply Z.leb_le; lia).
    split; [reflexivity|]. split; [lia | exact Hm1lt].
Qed.

End RoundBelowTen.

Section Generator.

Lemma random_mantissa_exponent (m : positive) (e : Z) :
  is_random (S754_finite false m e) = true ->
  Zpos m < 2 ^ 53 /\ -1074 <= e <= -53.
Proof.
  unfold is_random, valid_binary, bounded, canonical_mantissa.
  rewrite !andb_true_iff, Z.eqb_eq, fexp_binary64.
  intros [[Hc _] Hlt].
  assert (Hd : Zpos (digits2_pos m) <= 53) by lia.
  assert (He : -1074 <= e) by lia.
  assert (Hm : Zpos m < 2 ^ 53).
  { pose proof (Z.log2_spec (Zpos m) ltac:(lia)) as [_ Hup].
    rewrite digits2_pos_log2 in Hd.
    eapply Z.lt_le_trans; [exact Hup|].
    apply Z.pow_le_mono_r; lia. }
  split; [exact Hm|]. split; [exact He|].
  unfold JS.ltb, SFltb, SFcompare, JS.lit_1 in Hlt.
  destruct (Z.compare_spec e (-52)) as [Heq|Hl|Hg]; [|lia|discriminate].
  exfalso. subst e.
  assert (Hd53 : Zpos (digits2_pos m) = 53) by lia.
  pose proof (digits2_pos_lower m) as Hlow. rewrite Hd53 in Hlow.
  change (2 ^ (53 - 1)) with 4503599627370496 in Hlow.
  cbv beta iota in Hlt.
  destruct (Pos.compare_cont Eq m 4503599627370496) eqn:Hcmp;
    [discriminate Hlt | | discriminate Hlt].
  pose proof (proj1 (Pos.compare_lt_iff m 4503599627370496) Hcmp) as Hc1.
  apply Pos2Z.pos_lt_pos in Hc1. clear -Hc1 Hlow. lia.
Qed.

Lemma random_times_ten_below_ten (m : positive) (e : Z) :
  is_random (S754_finite false m e) = true ->
  JS.mul (S754_finite false m e) JS.lit_10 = S754_zero false
  \/ exists mf ef,
       JS.mul (S754_finite false m e) JS.lit_10 = S754_finite false mf ef
       /\ ef < 0 /\ Zpos mf < 10 * 2 ^ (- ef).
Proof.
  intros Hr. destruct (random_mantissa_exponent m e Hr) as [Hm He].
  unfold JS.mul, SFmul, JS.lit_10. cbn [xorb].
  apply binary_round_aux_below_ten; [lia|].
  set (M := (m * 5629499534213120)%positive).
  assert (HM : Zpos M = Zpos m * (10 * 2 ^ 49)) by (subst M; rewrite Pos2Z.inj_mul; reflexivity).
  assert (H49 : 2 ^ 49 = 562949953421312) by reflexivity.
  assert (HM106 : Zpos M < 2 ^ 106).
  { rewrite HM. change (2 ^ 106) with (2 ^ 53 * 2 ^ 53).
    change (2 ^ 53) with 9007199254740992 in *. lia. }
  pose proof (digits2_pos_le M 106 ltac:(lia) HM106) as Hd.
  rewrite fexp_binary64.
  set (k := Z.max (Zpos (digits2_pos M) + (e + -49) - 53) (-1074) - (e + -49) - 1).
  assert (Hk : k <= 52) by (subst k; lia).
  assert (Hp : 2 ^ k <= 2 ^ 52).
  { destruct (Z.lt_ge_cases k 0) as [Hneg|Hpos].
    - rewrite Z.pow_neg_r by exact Hneg. apply Z.pow_nonneg. lia.
    - apply Z.pow_le_mono_r; lia. }
  replace (- (e + -49)) with (49 + - e) by lia.
  rewrite Z.pow_add_r by lia.
  assert (He53 : 2 ^ 53 <= 2 ^ (- e)) by (apply Z.pow_le_mono_r; lia).
  rewrite HM. change (2 ^ 52) with (8 * 2 ^ 49) in Hp.
  rewrite H49 in *. nia.
Qed.

Lemma floor_random_times_ten (r : JS.number) :
  is_random r = true ->
  exists n, 0 <= n <= 9 /\ JS.Math_floor (JS.mul r JS.lit_10) = JS.of_Z n.
Proof.
  intros Hr. destruct r as [[|]|[|]| |[|] m e]; try discriminate Hr.
  - exists 0. split; [lia | reflexivity].
  - destruct (random_times_ten_below_ten m e Hr) as [-> | (mf & ef & -> & He & Hlt)].
    + exists 0. split; [lia | reflexivity].
    + exists (JS.floorZ false mf ef). split; [|reflexivity].
      unfold JS.floorZ.
      replace (0 <=? ef) with false by (symmetry; apply Z.leb_gt; lia).
      assert (Hp : 0 < 2 ^ (- ef)) by (apply Z.pow_pos_nonneg; lia).
      split; [apply Z.div_pos; lia|].
      assert (Zpos mf / 2 ^ (- ef) < 10) by (apply Z.div_lt_upper_bound; lia).
      lia.
Qed.

(** Case analysis on a decimal digit. *)
Lemma digit_ind (P : Z -> Prop) :
  P 0 -> P 1 -> P 2 -> P 3 -> P 4 -> P 5 -> P 6 -> P 7 -> P 8 -> P 9 ->
  forall k, 0 <= k <= 9 -> P k.
Proof.
  intros H0 H1 H2 H3 H4 H5 H6 H7 H8 H9 k Hk.
  destruct k as [|p|p]; [exact H0| |lia].
  do 4 (try destruct p as [p|p|]); try lia; assumption.
Qed.


Lemma generateResult_digit (r1 r2 : JS.number) :
  is_random r1 = true ->
  exists n, 0 <= n <= 9 /\ generateResult r1 r2 = (color_of n r2, JS.of_Z n).
Proof.
  intros Hr. destruct (floor_random_times_ten r1 Hr) as (n & Hn & Hfl).
  exists n. split; [exact Hn|].
  unfold generateResult. rewrite Hfl. clear Hfl.
  revert n Hn. apply digit_ind; reflexivity.
Qed.

End Generator.

(** C5: the generator returns a number in 0..9; the colour is green for
    1, 3, 7, 9, red for 2, 4, 6, 8, red or violet for 0 and green or violet
    for 5, the choice being whether the second draw is below 0.5; no other
    colour is returned. *)
Theorem generateResult_number_and_color (r1 r2 : JS.number) :
  is_random r1 = true ->
  exists n : Z,
    0 <= n <= 9
    /\ snd (generateResult r1 r2) = JS.of_Z n
    /\ let color := fst (generateResult r1 r2) in
       (n = 1 \/ n = 3 \/ n = 7 \/ n = 9 -> color = "green")
       /\ (n = 2 \/ n = 4 \/ n = 6 \/ n = 8 -> color = "red")
       /\ (n = 0 -> color = if JS.ltb r2 JS.lit_0_5 then "red" else "violet")
       /\ (n = 5 -> color = if JS.ltb r2 JS.lit_0_5 then "green" else "violet")
       /\ (color = "red" \/ color = "green" \/ color = "violet").
Proof.
  intros Hr. destruct (generateResult_digit r1 r2 Hr) as (n & Hn & ->).
  exists n. split; [exact Hn|]. split; [reflexivity|].
  cbn [fst]. unfold color_of. revert n Hn.
  apply digit_ind;
    cbn [Z.eqb Pos.eqb orb];
    (repeat split; [lia || reflexivity ..|]);
    destruct (JS.ltb r2 JS.lit_0_5); auto.
Qed.

Lemma generateResult_number_and_color_witness :
  exists n : Z,
    0 <= n <= 9
    /\ snd (generateResult (JS.parseFloat "0.57") (JS.parseFloat "0.8")) = JS.of_Z n
    /\ let color := fst (generateResult (JS.parseFloat "0.57") (JS.parseFloat "0.8")) in
       (n = 1 \/ n = 3 \/ n = 7 \/ n = 9 -> color = "green")
       /\ (n = 2 \/ n = 4 \/ n = 6 \/ n = 8 -> color = "red")
       /\ (n = 0 -> color = if JS.ltb (JS.parseFloat "0.8") JS.lit_0_5 then "red" else "violet")
       /\ (n = 5 -> color = if JS.ltb (JS.parseFloat "0.8") JS.lit_0_5 then "green" else "violet")
       /\ (color = "red" \/ color = "green" \/ color = "violet").
Proof.
  apply (generateResult_number_and_color (JS.parseFloat "0.57") (JS.parseFloat "0.8")).
  vm_compute. reflexivity.
Defined.
(* ===================================================================== *)
(** * Digit strings and the decimal columns *)
(* ===================================================================== *)

Section DigitStrings.

Lemma append_cons (x : ascii) (a b : string) : String x a +:+ b = String x (a +:+ b).
Proof. reflexivity. Qed.

Lemma append_nil (b : string) : EmptyString +:+ b = b.
Proof. reflexivity. Qed.

Lemma append_assoc (a b c : string) : (a +:+ b) +:+ c = a +:+ (b +:+ c).
Proof.
  induction a as [|x a IH]; [reflexivity|].
  rewrite !append_cons, IH. reflexivity.
Qed.

Lemma slen_append (a b : string) : JS.slen (a +:+ b) = JS.slen a + JS.slen b.
Proof.
  unfold JS.slen. induction a as [|x a IH]; [reflexivity|].
  rewrite append_cons. cbn [String.length].
  rewrite !Nat2Z.inj_succ. lia.
Qed.

Lemma digit_of_range (c : ascii) (d : Z) : JS.digit_of c = Some d -> 0 <= d <= 9.
Proof.
  unfold JS.digit_of. destruct (_ && _) eqn:H; [|discriminate].
  intros [= <-]. apply andb_true_iff in H as [H1 H2].
  apply Z.leb_le in H1, H2. lia.
Qed.

Lemma digit_of_digit_char (d : Z) : 0 <= d <= 9 -> JS.digit_of (JS.digit_char d) = Some d.
Proof. intros H. revert d H. apply digit_ind; reflexivity. Qed.

Lemma digit_char_of (c : ascii) (d : Z) : JS.digit_of c = Some d -> c = JS.digit_char d.
Proof.
  unfold JS.digit_of, JS.digit_char, JS.code.
  destruct (_ && _) eqn:H; [|discriminate]. intros [= <-].
  replace (48 + (Z.of_N (N_of_ascii c) - 48)) with (Z.of_N (N_of_ascii c)) by lia.
  rewrite N2Z.id, ascii_N_embedding. reflexivity.
Qed.

Lemma all_digits_app (a b : string) :
  all_digits (a +:+ b) = all_digits a && all_digits b.
Proof.
  induction a as [|x a IH]; [reflexivity|].
  rewrite append_cons. cbn [all_digits].
  destruct (JS.digit_of x); [exact IH | reflexivity].
Qed.

Lemma digits_value_app (a b : string) : forall acc,
  all_digits a = true ->
  digits_value acc (a +:+ b) = digits_value (digits_value acc a) b.
Proof.
  induction a as [|x a IH]; intros acc Ha; [reflexivity|].
  rewrite append_cons. cbn [digits_value].
  cbn [all_digits] in Ha. destruct (JS.digit_of x); [|discriminate].
  apply IH, Ha.
Qed.

Lemma digits_value_acc (ds : string) : forall acc,
  all_digits ds = true ->
  digits_value acc ds = acc * 10 ^ JS.slen ds + digits_value 0 ds.
Proof.
  unfold JS.slen.
  induction ds as [|x ds IH]; intros acc Hd; cbn [digits_value String.length].
  - cbn. lia.
  - cbn [all_digits] in Hd. destruct (JS.digit_of x) as [d|]; [|discriminate].
    rewrite (IH (10 * acc + d)), (IH (10 * 0 + d)) by exact Hd.
    rewrite Nat2Z.inj_succ, Z.pow_succ_r by lia. lia.
Qed.

Lemma digits_value_bounds (ds : string) :
  all_digits ds = true -> 0 <= digits_value 0 ds < 10 ^ JS.slen ds.
Proof.
  unfold JS.slen.
  induction ds as [|x ds IH]; intros Hd; cbn [digits_value String.length].
  - cbn. lia.
  - cbn [all_digits] in Hd. destruct (JS.digit_of x) as [d|] eqn:Hx; [|discriminate].
    apply digit_of_range in Hx.
    rewrite digits_value_acc by exact Hd. specialize (IH Hd).
    unfold JS.slen in *.
    rewrite Nat2Z.inj_succ, Z.pow_succ_r by lia. nia.
Qed.

Lemma span_digits_app (ds rest : string) : forall acc len,
  all_digits ds = true ->
  JS.span_digits acc len (ds +:+ rest)
  = JS.span_digits (digits_value acc ds) (len + JS.slen ds) rest.
Proof.
  unfold JS.slen.
  induction ds as [|x ds IH]; intros acc len Hd;
    rewrite ?append_cons, ?append_nil; cbn [JS.span_digits digits_value String.length].
  - f_equal. cbn. lia.
  - cbn [all_digits] in Hd. destruct (JS.digit_of x) as [d|]; [|discriminate].
    rewrite IH by exact Hd. f_equal. rewrite Nat2Z.inj_succ. lia.
Qed.

Lemma span_digits_nonneg (s : string) : forall acc len,
  0 <= acc -> 0 <= (JS.span_digits acc len s).1.1.
Proof.
  induction s as [|c s IH]; intros acc len Ha; cbn [JS.span_digits]; [exact Ha|].
  destruct (JS.digit_of c) as [d|] eqn:Hc; [|exact Ha].
  apply digit_of_range in Hc. apply IH. lia.
Qed.

Lemma digits_go_app (f : nat) : forall n acc rest,
  JS.digits_go f n (acc +:+ rest) = JS.digits_go f n acc +:+ rest.
Proof.
  induction f as [|f IH]; intros n acc rest; cbn [JS.digits_go]; [reflexivity|].
  destruct (n <? 10); [reflexivity|].
  rewrite <- IH. reflexivity.
Qed.

(** The digits written for [n]: digits only, writing [n], with no
    leading zero. *)
Lemma digits_go_spec (f : nat) : forall n,
  0 <= n < 2 ^ Z.of_nat (S f) ->
  let ds := JS.digits_go (S f) n EmptyString in
  all_digits ds = true /\ digits_value 0 ds = n
  /\ 1 <= JS.slen ds
  /\ (n < 10 -> JS.slen ds = 1)
  /\ (10 <= n -> 10 ^ (JS.slen ds - 1) <= n).
Proof.
  induction f as [|f IH]; intros n Hn.
  - assert (n < 10) by (change (2 ^ Z.of_nat 1) with 2 in Hn; lia).
    cbn [JS.digits_go]. replace (n <? 10) with true by (symmetry; apply Z.ltb_lt; lia).
    rewrite Z.mod_small by lia. cbn zeta.
    cbn [all_digits digits_value]. rewrite digit_of_digit_char by lia.
    repeat split; try reflexivity; try lia.
  - cbn zeta. change (JS.digits_go (S (S f)) n EmptyString)
      with (let acc' := String (JS.digit_char (n mod 10)) EmptyString in
            if n <? 10 then acc' else JS.digits_go (S f) (n / 10) acc').
    cbn zeta. destruct (Z.ltb_spec n 10) as [Hlt|Hge].
    + rewrite Z.mod_small by lia.
      cbn [all_digits digits_value]. rewrite digit_of_digit_char by lia.
      repeat split; try reflexivity; try lia.
    + assert (Hq : 0 <= n / 10 < 2 ^ Z.of_nat (S f)).
      { split; [apply Z.div_pos; lia|].
        apply Z.div_lt_upper_bound; [lia|].
        rewrite (Nat2Z.inj_succ (S f)), Z.pow_succ_r in Hn by lia. lia. }
      specialize (IH (n / 10) Hq). cbn zeta in IH.
      destruct IH as (Hall & Hval & Hlen & Hone & Hlow).
      change (String (JS.digit_char (n mod 10)) EmptyString)
        with (EmptyString +:+ String (JS.digit_char (n mod 10)) EmptyString).
      rewrite digits_go_app.
      set (ds := JS.digits_go (S f) (n / 10) EmptyString) in *.
      pose proof (Z.mod_pos_bound n 10 ltac:(lia)) as Hm.
      pose proof (Z.div_mod n 10 ltac:(lia)) as Hdm.
      rewrite all_digits_app, Hall, digits_value_app, Hval, slen_append by exact Hall.
      cbn [all_digits digits_value andb]. rewrite digit_of_digit_char by lia.
      change (JS.slen (String (JS.digit_char (n mod 10)) EmptyString)) with 1.
      repeat split; try reflexivity; try lia.
      intros _. replace (JS.slen ds + 1 - 1) with (JS.slen ds) by lia.
      destruct (Z.ltb_spec (n / 10) 10) as [Hs|Hs].
      * rewrite (Hone Hs). change (10 ^ 1) with 10. lia.
      * specialize (Hlow Hs).
        replace (JS.slen ds) with (Z.succ (JS.slen ds - 1)) by lia.
        rewrite Z.pow_succ_r by lia. lia.
Qed.

Lemma digits_spec (n : Z) :
  0 <= n ->
  all_digits (JS.digits n) = true /\ digits_value 0 (JS.digits n) = n
  /\ 1 <= JS.slen (JS.digits n)
  /\ (n < 10 -> JS.slen (JS.digits n) = 1)
  /\ (10 <= n -> 10 ^ (JS.slen (JS.digits n) - 1) <= n).
Proof.
  intros Hn. unfold JS.digits. apply digits_go_spec.
  split; [exact Hn|].
  destruct (Z.eq_dec n 0) as [->|Hnz]; [reflexivity|].
  rewrite Nat2Z.inj_succ, Z2Nat.id by apply Z.log2_nonneg.
  apply Z.log2_spec. lia.
Qed.

Lemma digits_below_pow (n : Z) : 0 <= n -> n < 10 ^ JS.slen (JS.digits n).
Proof.
  intros Hn. destruct (digits_spec n Hn) as (Hall & Hval & _).
  pose proof (digits_value_bounds _ Hall) as H. lia.
Qed.

(** A digit string does not start with a sign. *)
Lemma all_digits_head (ds : string) :
  all_digits ds = true -> 1 <= JS.slen ds ->
  exists d t, 0 <= d <= 9 /\ ds = String (JS.digit_char d) t.
Proof.
  destruct ds as [|c t]; [intros _ H; unfold JS.slen in H; cbn in H; lia|]. cbn [all_digits]. intros Hd _.
  destruct (JS.digit_of c) as [d|] eqn:Hc; [|discriminate].
  exists d, t. split; [eapply digit_of_range, Hc|].
  f_equal. apply digit_char_of, Hc.
Qed.

End DigitStrings.

Section ColumnFacts.

Lemma hundredths_nonneg (v x : Z) : 0 <= v -> 0 <= Column.hundredths v x.
Proof.
  intros Hv. unfold Column.hundredths.
  destruct (Z.leb_spec 0 (x + 2)) as [H|H].
  - apply Z.mul_nonneg_nonneg; [exact Hv | apply Z.pow_nonneg; lia].
  - assert (0 < 10 ^ (- (x + 2))) by (apply Z.pow_pos_nonneg; lia).
    apply Z.div_pos; lia.
Qed.

Lemma unsigned_in_nonneg (s1 : string) (sg neg : bool) (v x : Z) :
  Column.unsigned_in sg s1 = Some (Column.Num neg v x) -> 0 <= v /\ neg = sg.
Proof.
  unfold Column.unsigned_in.
  pose proof (span_digits_nonneg s1 0 0 ltac:(lia)) as Hi.
  destruct (JS.span_digits 0 0 s1) as [[iv ilen] s2]. cbn [fst] in Hi.
  assert (Hv : forall t, 0 <= (JS.span_digits iv ilen t).1.1)
    by (intros t; apply span_digits_nonneg, Hi).
  destruct s2 as [|c t].
  - destruct (ilen + 0 =? 0); [discriminate|].
    destruct (Column.exponent _) as [[e rest]|]; [|discriminate].
    destruct (Column.only_spaces rest); [|discriminate].
    intros [= <- <- _]. split; [exact Hi | reflexivity].
  - destruct (Ascii.eqb_spec c ".") as [->|Hc].
    + specialize (Hv t). destruct (JS.span_digits iv ilen t) as [[v' total] r].
      cbn [fst] in Hv.
      destruct (ilen + (total - ilen) =? 0); [discriminate|].
      destruct (Column.exponent _) as [[e rest]|]; [|discriminate].
      destruct (Column.only_spaces rest); [|discriminate].
      intros [= <- <- _]. split; [exact Hv | reflexivity].
    + assert (Hplain :
        match String c t with
        | String "." t0 => let '(v0, total, r) := JS.span_digits iv ilen t0 in
                           (v0, total - ilen, r)
        | _ => (iv, 0, String c t)
        end = (iv, 0, String c t)).
      { destruct c as [[] [] [] [] [] [] [] []]; try reflexivity. contradiction Hc; reflexivity. }
      rewrite Hplain.
      destruct (ilen + 0 =? 0); [discriminate|].
      destruct (Column.exponent _) as [[e rest]|]; [|discriminate].
      destruct (Column.only_spaces rest); [|discriminate].
      intros [= <- <- _]. split; [exact Hi | reflexivity].
Qed.

Lemma numeric_in_nonneg (s : string) (neg : bool) (v x : Z) :
  Column.numeric_in s = Some (Column.Num neg v x) -> 0 <= v.
Proof.
  unfold Column.numeric_in.
  destruct (Column.nan_text _) as [rest|].
  { destruct (Column.only_spaces rest); discriminate. }
  destruct (JS.take_sign _) as [sg s1].
  intros H. apply unsigned_in_nonneg in H. tauto.
Qed.

(** What the column gives back has two fractional digits. *)
Lemma numeric_out_two_digits (neg : bool) (h : Z) :
  0 <= h -> two_fraction_digits (Column.numeric_out neg h) = true.
Proof.
  intros Hh. unfold Column.numeric_out.
  assert (Hq : 0 <= h / 100) by (apply Z.div_pos; lia).
  destruct (digits_spec _ Hq) as (Hall & _ & Hlen & _).
  destruct (all_digits_head _ Hall Hlen) as (d & t & Hd & Hds).
  pose proof (Z.mod_pos_bound h 10 ltac:(lia)) as H0.
  pose proof (Z.mod_pos_bound (h / 10) 10 ltac:(lia)) as H1.
  set (tail := String "." (String (JS.digit_char (h / 10 mod 10))
                             (String (JS.digit_char (h mod 10)) EmptyString))).
  assert (Hbody : forall b : bool,
            (let '(_, len, rest) := JS.span_digits 0 0 (JS.digits (h / 100) +:+ tail) in
             (0 <? len) &&
             match rest with
             | String "." (String a (String b EmptyString)) =>
                 match JS.digit_of a, JS.digit_of b with
                 | Some _, Some _ => true
                 | _, _ => false
                 end
             | _ => false
             end) = true).
  { intros _. rewrite span_digits_app by exact Hall.
    subst tail. cbn [JS.span_digits]. change (JS.digit_of ".") with (@None Z).
    rewrite !digit_of_digit_char by lia.
    rewrite andb_true_r. apply Z.ltb_lt. lia. }
  unfold two_fraction_digits.
  destruct (neg && negb (h =? 0)).
  - change ("-" +:+ JS.digits (h / 100) +:+ tail)
      with (String "-" (JS.digits (h / 100) +:+ tail)).
    cbv iota beta. exact (Hbody true).
  - rewrite append_nil.
    specialize (Hbody true). rewrite Hds in Hbody |- *. rewrite append_cons in Hbody |- *.
    revert Hbody. generalize (t +:+ tail). intros rest. clear Hds.
    pattern d. apply digit_ind; [intros H; exact H ..| exact Hd].
Qed.

Lemma decimal_two_digits (s : string) :
  Column.holds s = true -> two_fraction_digits (Column.decimal_10_2 s) = true.
Proof.
  unfold Column.holds, Column.decimal_10_2.
  destruct (Column.numeric_in s) as [[|neg v x]|] eqn:Hin; try discriminate.
  intros ->. apply numeric_out_two_digits, hundredths_nonneg.
  eapply numeric_in_nonneg, Hin.
Qed.

End ColumnFacts.
(* ===================================================================== *)
(** * Numbers as real numbers: how far rounding moves a value *)
(* ===================================================================== *)

Section Powers.

Local Open Scope R_scope.

Lemma p2_pos (e : Z) : 0 < powerRZ 2 e.
Proof. apply powerRZ_lt. lra. Qed.

Lemma p10_pos (e : Z) : 0 < powerRZ 10 e.
Proof. apply powerRZ_lt. lra. Qed.

Lemma p2_add (a b : Z) : powerRZ 2 (a + b) = powerRZ 2 a * powerRZ 2 b.
Proof. apply powerRZ_add. lra. Qed.

Lemma p10_add (a b : Z) : powerRZ 10 (a + b) = powerRZ 10 a * powerRZ 10 b.
Proof. apply powerRZ_add. lra. Qed.

Lemma IZR_pow (b k : Z) : (0 <= k)%Z -> IZR (b ^ k) = powerRZ (IZR b) k.
Proof.
  intros Hk. destruct k as [|p|p]; [reflexivity | | lia].
  apply Zpower_pos_powerRZ.
Qed.

Lemma p2_ge_1 (k : Z) : (0 <= k)%Z -> 1 <= powerRZ 2 k.
Proof.
  intros Hk. rewrite <- (IZR_pow 2) by exact Hk.
  apply IZR_le. assert (0 < 2 ^ k)%Z by (apply Z.pow_pos_nonneg; lia). lia.
Qed.

Lemma p10_ge_1 (k : Z) : (0 <= k)%Z -> 1 <= powerRZ 10 k.
Proof.
  intros Hk. rewrite <- (IZR_pow 10) by exact Hk.
  apply IZR_le. assert (0 < 10 ^ k)%Z by (apply Z.pow_pos_nonneg; lia). lia.
Qed.

Lemma p2_le (a b : Z) : (a <= b)%Z -> powerRZ 2 a <= powerRZ 2 b.
Proof.
  intros H. replace b with (a + (b - a))%Z by lia. rewrite p2_add.
  pose proof (p2_pos a). pose proof (p2_ge_1 (b - a) ltac:(lia)). nra.
Qed.

Lemma p10_le (a b : Z) : (a <= b)%Z -> powerRZ 10 a <= powerRZ 10 b.
Proof.
  intros H. replace b with (a + (b - a))%Z by lia. rewrite p10_add.
  pose proof (p10_pos a). pose proof (p10_ge_1 (b - a) ltac:(lia)). nra.
Qed.

Lemma p2_lt_inv (a b : Z) : powerRZ 2 a < powerRZ 2 b -> (a < b)%Z.
Proof.
  intros H. destruct (Z.lt_ge_cases a b) as [Hlt|Hge]; [exact Hlt|].
  pose proof (p2_le b a Hge). lra.
Qed.

Lemma p10_lt_inv (a b : Z) : powerRZ 10 a < powerRZ 10 b -> (a < b)%Z.
Proof.
  intros H. destruct (Z.lt_ge_cases a b) as [Hlt|Hge]; [exact Hlt|].
  pose proof (p10_le b a Hge). lra.
Qed.

Lemma p2_succ (a : Z) : powerRZ 2 (a + 1) = 2 * powerRZ 2 a.
Proof. rewrite p2_add. change (powerRZ 2 1) with (2 * 1). lra. Qed.

(** Floor division, in the reals. *)
Lemma div_bounds (a b : Z) :
  (0 < b)%Z -> IZR (a / b) * IZR b <= IZR a < (IZR (a / b) + 1) * IZR b.
Proof.
  intros Hb.
  pose proof (Z.div_mod a b ltac:(lia)) as Hd.
  pose proof (Z.mod_pos_bound a b Hb) as Hm.
  rewrite <- plus_IZR, <- !mult_IZR. split; [apply IZR_le | apply IZR_lt]; lia.
Qed.

End Powers.

Section RoundClose.

Local Open Scope R_scope.

Lemma rne_bounds (m : Z) (l : location) :
  (m <= round_nearest_even m l <= m + 1)%Z.
Proof.
  destruct l as [|[| |]]; cbn [round_nearest_even]; try lia.
  destruct (Z.even m); lia.
Qed.

Lemma Zdigits2_le (M k : Z) :
  (0 <= M)%Z -> (0 <= k)%Z -> (M < 2 ^ k)%Z -> (Zdigits2 M <= k)%Z.
Proof.
  intros HM Hk Hlt. destruct M as [|p|p]; [exact Hk | | lia].
  apply digits2_pos_le; assumption.
Qed.

Lemma shr_record_of_loc_m (M : Z) (l : location) : shr_m (shr_record_of_loc M l) = M.
Proof. destruct l as [|[| |]]; reflexivity. Qed.

(** The shift that brings a mantissa to its place: the exponent reached
    and the mantissa left. *)
Lemma shr_fexp_spec (M E : Z) (l : location) :
  (0 <= M)%Z ->
  let e' := Z.max E (fexp 53 1024 (Zdigits2 M + E)) in
  exists mrs,
    shr_fexp 53 1024 M E l = (mrs, e') /\ shr_m mrs = (M / 2 ^ (e' - E))%Z.
Proof.
  intros HM e'. unfold shr_fexp, shr.
  destruct (fexp 53 1024 (Zdigits2 M + E) - E)%Z as [|p|p] eqn:Hn.
  - exists (shr_record_of_loc M l).
    assert (e' = E) as -> by (subst e'; lia).
    split; [reflexivity|]. rewrite shr_record_of_loc_m, Z.sub_diag.
    symmetry. apply Z.div_1_r.
  - exists (SpecFloat.iter_pos shr_1 p (shr_record_of_loc M l)).
    assert (e' = E + Zpos p)%Z as -> by (subst e'; lia).
    split; [reflexivity|].
    destruct (iter_shr_1_spec p (shr_record_of_loc M l)) as [Hq _];
      [rewrite shr_record_of_loc_m; exact HM|].
    rewrite Hq, shr_record_of_loc_m. do 2 f_equal. lia.
  - exists (shr_record_of_loc M l).
    assert (e' = E) as -> by (subst e'; lia).
    split; [reflexivity|]. rewrite shr_record_of_loc_m, Z.sub_diag.
    symmetry. apply Z.div_1_r.
Qed.

(** A mantissa after a shift, against the value before. *)
Lemma shift_bounds (M E e' : Z) :
  (0 <= M)%Z -> (E <= e')%Z ->
  IZR (M / 2 ^ (e' - E)) * powerRZ 2 e' <= IZR M * powerRZ 2 E
  < (IZR (M / 2 ^ (e' - E)) + 1) * powerRZ 2 e'.
Proof.
  intros HM He.
  assert (Hp : (0 < 2 ^ (e' - E))%Z) by (apply Z.pow_pos_nonneg; lia).
  pose proof (div_bounds M (2 ^ (e' - E)) Hp) as Hd.
  rewrite (IZR_pow 2) in Hd by lia.
  assert (He' : powerRZ 2 e' = powerRZ 2 (e' - E) * powerRZ 2 E)
    by (rewrite <- p2_add; f_equal; lia).
  rewrite He'. pose proof (p2_pos E). pose proof (p2_pos (e' - E)).
  split; nra.
Qed.

Lemma below_pow2 (M k : Z) :
  (0 <= k)%Z -> IZR M < powerRZ 2 k -> (M < 2 ^ k)%Z.
Proof. intros Hk H. apply lt_IZR. rewrite (IZR_pow 2) by exact Hk. exact H. Qed.

Lemma fexp_le (d K : Z) :
  (-1022 <= K)%Z -> (d <= K + 1)%Z -> (-1074 <= fexp 53 1024 d <= K - 52)%Z.
Proof. intros HK H. rewrite fexp_binary64. lia. Qed.

(** Rounding [M * 2^E], a value below 2^K, to a Number moves it by at
    most 2^(K-51). *)
Lemma round_aux_close (s : bool) (M E K : Z) (l : location) :
  (0 <= M)%Z -> (-1022 <= K <= 1023)%Z -> (E <= K - 52)%Z ->
  IZR M * powerRZ 2 E < powerRZ 2 K ->
  exists mf ef,
    (0 <= mf)%Z /\ (-1074 <= ef)%Z
    /\ binary_round_aux 53 1024 s M E l = number_of s mf ef
    /\ IZR M * powerRZ 2 E - powerRZ 2 (K - 51) <= IZR mf * powerRZ 2 ef
       <= IZR M * powerRZ 2 E + powerRZ 2 (K - 51).
Proof.
  intros HM HK HE Hlt.
  pose proof (p2_pos E) as HpE.
  (* the mantissa is below 2^(K-E) *)
  assert (HMlt : (M < 2 ^ (K - E))%Z).
  { apply below_pow2; [lia|].
    replace (K - E)%Z with (K + - E)%Z by lia. rewrite p2_add.
    assert (powerRZ 2 (- E) * powerRZ 2 E = 1)
      by (rewrite <- p2_add; replace (- E + E)%Z with 0%Z by lia; reflexivity).
    apply Rmult_lt_reg_r with (powerRZ 2 E); [exact HpE|].
    rewrite Rmult_assoc, H, Rmult_1_r. exact Hlt. }
  pose proof (Zdigits2_le M (K - E) HM ltac:(lia) HMlt) as Hd.
  set (e1 := Z.max E (fexp 53 1024 (Zdigits2 M + E))).
  assert (He1 : (E <= e1 <= K - 52)%Z).
  { pose proof (fexp_le (Zdigits2 M + E) K ltac:(lia) ltac:(lia)). subst e1. lia. }
  destruct (shr_fexp_spec M E l HM) as (mrs1 & Hs1 & Hq1). fold e1 in Hs1, Hq1.
  set (q := (M / 2 ^ (e1 - E))%Z) in *.
  pose proof (shift_bounds M E e1 HM ltac:(lia)) as Hb1. fold q in Hb1.
  assert (Hq0 : (0 <= q)%Z)
    by (apply Z.div_pos; [exact HM | apply Z.pow_pos_nonneg; lia]).
  set (m1 := round_nearest_even (shr_m mrs1) (loc_of_shr_record mrs1)).
  pose proof (rne_bounds (shr_m mrs1) (loc_of_shr_record mrs1)) as Hm1.
  fold m1 in Hm1. rewrite Hq1 in Hm1.
  assert (Hm1lt : (m1 < 2 ^ (K + 1 - e1))%Z).
  { assert (q < 2 ^ (K - e1))%Z.
    { apply Z.div_lt_upper_bound; [apply Z.pow_pos_nonneg; lia|].
      rewrite <- Z.pow_add_r by lia. replace (e1 - E + (K - e1))%Z with (K - E)%Z by lia.
      exact HMlt. }
    replace (K + 1 - e1)%Z with (Z.succ (K - e1)) by lia.
    rewrite Z.pow_succ_r by lia. lia. }
  pose proof (Zdigits2_le m1 (K + 1 - e1) ltac:(lia) ltac:(lia) Hm1lt) as Hd1.
  set (e2 := Z.max e1 (fexp 53 1024 (Zdigits2 m1 + e1))).
  assert (He2 : (e1 <= e2 <= K - 52)%Z /\ (-1074 <= e2)%Z).
  { pose proof (fexp_le (Zdigits2 m1 + e1) K ltac:(lia) ltac:(lia)). subst e2. lia. }
  destruct He2 as [He2 He2low].
  destruct (shr_fexp_spec m1 e1 loc_Exact ltac:(lia)) as (mrs2 & Hs2 & Hq2).
  fold e2 in Hs2, Hq2.
  pose proof (shift_bounds m1 e1 e2 ltac:(lia) ltac:(lia)) as Hb2.
  set (mf := (m1 / 2 ^ (e2 - e1))%Z) in *.
  assert (Hmf0 : (0 <= mf)%Z)
    by (apply Z.div_pos; [lia | apply Z.pow_pos_nonneg; lia]).
  exists mf, e2. split; [exact Hmf0|]. split; [exact He2low|]. split.
  - unfold binary_round_aux. rewrite Hs1. fold m1. rewrite Hs2, Hq2.
    replace (e2 <=? 1024 - 53)%Z with true by (symmetry; apply Z.leb_le; lia).
    destruct mf; reflexivity.
  - pose proof (p2_le e1 (K - 52) ltac:(lia)) as Hp1.
    pose proof (p2_le e2 (K - 52) ltac:(lia)) as Hp2.
    pose proof (p2_pos e1) as Hpe1. pose proof (p2_pos e2) as Hpe2.
    assert (H23 : powerRZ 2 (K - 51) = 2 * powerRZ 2 (K - 52))
      by (rewrite <- p2_succ; f_equal; lia).
    assert (Hm1R : IZR q <= IZR m1 <= IZR q + 1).
    { rewrite <- plus_IZR. split; apply IZR_le; lia. }
    rewrite H23. split; nra.
Qed.

End RoundClose.

Section DecimalToNumber.

Local Open Scope R_scope.

Lemma iter_xO (m d : positive) : Zpos (Pos.iter xO m d) = (Zpos m * 2 ^ Zpos d)%Z.
Proof.
  induction d as [|d IH] using Pos.peano_ind.
  - cbn [Pos.iter]. lia.
  - rewrite Pos.iter_succ, Pos2Z.inj_succ, Z.pow_succ_r by lia.
    change (Zpos (Pos.iter xO m d)~0) with (2 * Zpos (Pos.iter xO m d))%Z. lia.
Qed.

Lemma Zdigits2_upper (M : Z) : (0 <= M)%Z -> (M < 2 ^ Zdigits2 M)%Z.
Proof.
  intros HM. destruct M as [|p|p]; [reflexivity | | lia].
  cbn [Zdigits2]. rewrite digits2_pos_log2.
  apply Z.log2_spec. lia.
Qed.

Lemma Zdigits2_nonneg (M : Z) : (0 <= Zdigits2 M)%Z.
Proof. destruct M; cbn; lia. Qed.

(** [binary_round] on a value below 2^K. *)
Lemma binary_round_close (s : bool) (mx : positive) (ex K : Z) :
  (-1022 <= K <= 1023)%Z ->
  IZR (Zpos mx) * powerRZ 2 ex < powerRZ 2 K ->
  exists mf ef,
    (0 <= mf)%Z /\ (-1074 <= ef)%Z
    /\ binary_round 53 1024 s mx ex = number_of s mf ef
    /\ IZR (Zpos mx) * powerRZ 2 ex - powerRZ 2 (K - 51) <= IZR mf * powerRZ 2 ef
       <= IZR (Zpos mx) * powerRZ 2 ex + powerRZ 2 (K - 51).
Proof.
  intros HK Hlt. unfold binary_round, shl_align.
  set (fe := fexp 53 1024 (Zpos (digits2_pos mx) + ex)).
  assert (Hfe : (fe <= K - 52)%Z).
  { apply fexp_le; [lia|].
    pose proof (digits2_pos_lower mx) as Hlow.
    apply IZR_le in Hlow. rewrite (IZR_pow 2) in Hlow.
    2:{ pose proof (Pos2Z.is_pos (digits2_pos mx)). lia. }
    assert (powerRZ 2 (Zpos (digits2_pos mx) - 1 + ex) < powerRZ 2 K).
    { rewrite p2_add. pose proof (p2_pos ex). nra. }
    apply p2_lt_inv in H. lia. }
  destruct (fe - ex)%Z as [|d|d] eqn:Hn.
  - apply round_aux_close; [lia | lia | lia | exact Hlt].
  - apply round_aux_close; [lia | lia | lia | exact Hlt].
  - assert (Hval : IZR (Zpos (Pos.iter xO mx d)) * powerRZ 2 fe
                   = IZR (Zpos mx) * powerRZ 2 ex).
    { rewrite iter_xO, mult_IZR, (IZR_pow 2) by lia.
      assert (Hex : powerRZ 2 ex = powerRZ 2 (Zpos d) * powerRZ 2 fe)
        by (rewrite <- p2_add; f_equal; lia).
      rewrite Hex. lra. }
    rewrite <- Hval in Hlt |- *.
    apply round_aux_close; [lia | lia | exact Hfe | exact Hlt].
Qed.

(** The quotient [d / 10^k] computed by the division core and rounded. *)
Lemma divide_close (s : bool) (d k K : Z) :
  (0 < d)%Z -> (0 < k)%Z -> (-1022 <= K <= 51)%Z ->
  IZR d * powerRZ 10 (- k) < powerRZ 2 (K - 1) ->
  exists mf ef,
    (0 <= mf)%Z /\ (-1074 <= ef)%Z
    /\ (let '(q, e, l) := SFdiv_core_binary 53 1024 d 0 (10 ^ k) 0 in
        binary_round_aux 53 1024 s q e l) = number_of s mf ef
    /\ IZR d * powerRZ 10 (- k) - powerRZ 2 (K - 50) <= IZR mf * powerRZ 2 ef
       <= IZR d * powerRZ 10 (- k) + powerRZ 2 (K - 50).
Proof.
  intros Hd Hk HK Hlt.
  set (T := (10 ^ k)%Z).
  assert (HT : (0 < T)%Z) by (apply Z.pow_pos_nonneg; lia).
  assert (HTR : IZR T * powerRZ 10 (- k) = 1).
  { subst T. rewrite (IZR_pow 10), <- p10_add by lia.
    replace (k + - k)%Z with 0%Z by lia. reflexivity. }
  pose proof (p10_pos (- k)) as Hpk.
  assert (HTpos : 0 < IZR T) by (apply IZR_lt; exact HT).
  (* d < 2^(K-1) * T *)
  assert (HdT : IZR d < powerRZ 2 (K - 1) * IZR T).
  { apply Rmult_lt_reg_r with (powerRZ 10 (- k)); [exact Hpk|].
    rewrite Rmult_assoc, HTR, Rmult_1_r. exact Hlt. }
  assert (Hdig : (Zdigits2 d - Zdigits2 T < K)%Z).
  { pose proof (Zdigits2_upper T ltac:(lia)) as HTu.
    pose proof (Zdigits2_nonneg T) as HT0.
    destruct d as [|p|p]; try lia. cbn [Zdigits2] in *.
    pose proof (digits2_pos_lower p) as Hlow.
    apply IZR_le in Hlow. apply IZR_lt in HTu.
    rewrite (IZR_pow 2) in Hlow, HTu.
    2:{ exact HT0. }
    2:{ pose proof (Pos2Z.is_pos (digits2_pos p)). lia. }
    assert (powerRZ 2 (Zpos (digits2_pos p) - 1) < powerRZ 2 (K - 1 + Zdigits2 T)).
    { rewrite p2_add. pose proof (p2_pos (K - 1)). nra. }
    apply p2_lt_inv in H. lia. }
  unfold SFdiv_core_binary.
  set (fe := fexp 53 1024 (Zdigits2 d + 0 - (Zdigits2 T + 0))).
  assert (Hfe : (fe <= K - 52)%Z) by (apply fexp_le; lia).
  set (e := Z.min fe (0 - 0)).
  assert (He : (e <= K - 52)%Z) by (subst e; lia).
  destruct (0 - 0 - e)%Z as [|sh|sh] eqn:Hsh; try lia.
  rewrite Z.shiftl_mul_pow2 by lia.
  destruct (Z.div_eucl (d * 2 ^ Zpos sh) T) as [q r] eqn:Hde.
  assert (Hq : q = (d * 2 ^ Zpos sh / T)%Z) by (unfold Z.div; rewrite Hde; reflexivity).
  assert (Hsh2 : (0 < 2 ^ Zpos sh)%Z) by (apply Z.pow_pos_nonneg; lia).
  assert (Hq0 : (0 <= q)%Z) by (rewrite Hq; apply Z.div_pos; nia).
  pose proof (div_bounds (d * 2 ^ Zpos sh) T HT) as Hb. rewrite <- Hq in Hb.
  rewrite mult_IZR, (IZR_pow 2) in Hb by lia.
  assert (Hse : powerRZ 2 (Zpos sh) * powerRZ 2 e = 1).
  { rewrite <- p2_add. replace (Zpos sh + e)%Z with 0%Z by lia. reflexivity. }
  pose proof (p2_pos e) as Hpe. pose proof (p2_pos (Zpos sh)) as Hps.
  set (v := IZR d * powerRZ 10 (- k)) in *.
  (* q 2^e <= v < (q+1) 2^e *)
  assert (Hv : IZR q * powerRZ 2 e <= v < (IZR q + 1) * powerRZ 2 e).
  { assert (Hd' : IZR d = v * IZR T).
    { subst v. rewrite Rmult_assoc, (Rmult_comm (powerRZ 10 (- k))), HTR. lra. }
    assert (He' : powerRZ 2 e * powerRZ 2 (Zpos sh) = 1) by lra.
    rewrite Hd' in Hb.
    split.
    - apply Rmult_le_reg_r with (IZR T * powerRZ 2 (Zpos sh)); [nra|].
      replace (IZR q * powerRZ 2 e * (IZR T * powerRZ 2 (Zpos sh)))
        with (IZR q * IZR T * (powerRZ 2 e * powerRZ 2 (Zpos sh))) by ring.
      rewrite He'. lra.
    - apply Rmult_lt_reg_r with (IZR T * powerRZ 2 (Zpos sh)); [nra|].
      replace ((IZR q + 1) * powerRZ 2 e * (IZR T * powerRZ 2 (Zpos sh)))
        with ((IZR q + 1) * IZR T * (powerRZ 2 e * powerRZ 2 (Zpos sh))) by ring.
      rewrite He'. lra. }
  destruct (round_aux_close s q e K (new_location T r) Hq0 ltac:(lia) He)
    as (mf & ef & Hmf & Hlow & Hr & Hc).
  { pose proof (p2_le (K - 1) K ltac:(lia)). lra. }
  exists mf, ef. split; [exact Hmf|]. split; [exact Hlow|]. split; [exact Hr|].
  pose proof (p2_le e (K - 52) He) as Hp24.
  assert (H23 : powerRZ 2 (K - 51) = 2 * powerRZ 2 (K - 52))
    by (rewrite <- p2_succ; f_equal; lia).
  assert (H22 : powerRZ 2 (K - 50) = 2 * powerRZ 2 (K - 51))
    by (rewrite <- p2_succ; f_equal; lia).
  lra.
Qed.

Lemma decimal_zero (x : Z) : decimal 0 x = 0.
Proof. unfold decimal. lra. Qed.

(** The Number read from the decimal [d * 10^x], a value below 2^(K-1),
    is within 2^(K-50) of it. *)
Lemma of_decimal_close (s : bool) (d x K : Z) :
  (0 <= d)%Z -> (-1022 <= K <= 51)%Z -> decimal d x < powerRZ 2 (K - 1) ->
  exists mf ef,
    (0 <= mf)%Z /\ (-1074 <= ef)%Z
    /\ JS.of_decimal s d x = number_of s mf ef
    /\ decimal d x - powerRZ 2 (K - 50) <= IZR mf * powerRZ 2 ef
       <= decimal d x + powerRZ 2 (K - 50).
Proof.
  intros Hd HK Hlt. unfold JS.of_decimal, JS.prec, JS.emax.
  assert (H22 : powerRZ 2 (K - 50) = 2 * powerRZ 2 (K - 51))
    by (rewrite <- p2_succ; f_equal; lia).
  pose proof (p2_pos (K - 51)) as Hp23.
  destruct d as [|p|p]; [| |lia].
  - exists 0%Z, 0%Z. split; [lia|]. split; [lia|]. split; [reflexivity|].
    rewrite decimal_zero. lra.
  - destruct (Z.leb_spec 0 x) as [Hx|Hx].
    + assert (HT : (0 < 10 ^ x)%Z) by (apply Z.pow_pos_nonneg; lia).
      assert (Hval : IZR (Zpos (p * Z.to_pos (10 ^ x))) * powerRZ 2 0
                     = decimal (Zpos p) x).
      { unfold decimal. rewrite Pos2Z.inj_mul, Z2Pos.id, mult_IZR, (IZR_pow 10) by lia.
        change (powerRZ 2 0) with 1. lra. }
      destruct (binary_round_close s (p * Z.to_pos (10 ^ x)) 0 K ltac:(lia))
        as (mf & ef & H0 & Hlow & Hr & Hc).
      { rewrite Hval. pose proof (p2_le (K - 1) K ltac:(lia)). lra. }
      exists mf, ef. split; [exact H0|]. split; [exact Hlow|]. split; [exact Hr|].
      rewrite Hval in Hc. lra.
    + destruct (divide_close s (Zpos p) (- x) K ltac:(lia) ltac:(lia) HK)
        as (mf & ef & H0 & Hlow & Hr & Hc).
      { rewrite Z.opp_involutive. exact Hlt. }
      rewrite Z.opp_involutive in Hc.
      exists mf, ef. split; [exact H0|]. split; [exact Hlow|].
      split; [exact Hr | exact Hc].
Qed.

Lemma value_number_of (s : bool) (mf ef : Z) :
  (0 <= mf)%Z -> (-1074 <= ef)%Z ->
  value (number_of s mf ef) = (if s then - (IZR mf * powerRZ 2 ef) else IZR mf * powerRZ 2 ef)
  /\ is_finite (number_of s mf ef) = true
  /\ low_exponent (number_of s mf ef).
Proof.
  intros H Hlow. destruct mf as [|p|p]; [| |lia]; cbn [number_of value is_finite low_exponent].
  - split; [|split; [reflexivity | exact I]]. destruct s; lra.
  - split; [|split; [reflexivity | exact Hlow]]. destruct s.
    + change (cond_Zopp true (Zpos p)) with (- Zpos p)%Z. rewrite opp_IZR. lra.
    + reflexivity.
Qed.

End DecimalToNumber.

Section Subtraction.

Local Open Scope R_scope.

Lemma shl_align_value (mx : positive) (ex ez : Z) :
  (ez <= ex)%Z ->
  IZR (Zpos (fst (shl_align mx ex ez))) * powerRZ 2 ez = IZR (Zpos mx) * powerRZ 2 ex.
Proof.
  intros Hle. unfold shl_align.
  destruct (ez - ex)%Z as [|d|d] eqn:Hn; cbn [fst]; try lia.
  - replace ez with ex by lia. reflexivity.
  - rewrite iter_xO, mult_IZR, (IZR_pow 2) by lia.
    assert (Hex : powerRZ 2 ex = powerRZ 2 (Zpos d) * powerRZ 2 ez)
      by (rewrite <- p2_add; f_equal; lia).
    rewrite Hex. lra.
Qed.

Lemma value_finite (s : bool) (m : positive) (e : Z) :
  value (S754_finite s m e)
  = (if s then - (IZR (Zpos m) * powerRZ 2 e) else IZR (Zpos m) * powerRZ 2 e).
Proof.
  cbn [value]. destruct s; [|reflexivity].
  change (cond_Zopp true (Zpos m)) with (- Zpos m)%Z. rewrite opp_IZR. lra.
Qed.

Lemma cond_Zopp_value (s : bool) (m : positive) (e : Z) :
  IZR (cond_Zopp s (Zpos m)) * powerRZ 2 e
  = (if s then - (IZR (Zpos m) * powerRZ 2 e) else IZR (Zpos m) * powerRZ 2 e).
Proof. exact (value_finite s m e). Qed.

(** Subtraction of two Numbers below 2^(K-1) in size is off by at most
    2^(K-51). *)
Lemma sub_close (x y : JS.number) (K : Z) :
  (-1022 <= K <= 1023)%Z ->
  is_finite x = true -> is_finite y = true ->
  low_exponent x -> low_exponent y ->
  - powerRZ 2 (K - 1) < value x < powerRZ 2 (K - 1) ->
  - powerRZ 2 (K - 1) < value y < powerRZ 2 (K - 1) ->
  is_finite (JS.sub x y) = true
  /\ low_exponent (JS.sub x y)
  /\ value x - value y - powerRZ 2 (K - 51) <= value (JS.sub x y)
     <= value x - value y + powerRZ 2 (K - 51).
Proof.
  intros HK Hx Hy Lx Ly Bx By. pose proof (p2_pos (K - 51)) as H23.
  destruct x as [sx| | |sx mx ex]; try discriminate;
    destruct y as [sy| | |sy my ey]; try discriminate.
  - unfold JS.sub, SFsub.
    destruct sx, sy; cbn [value is_finite low_exponent];
      (split; [reflexivity|]); (split; [exact I|]); lra.
  - unfold JS.sub, SFsub. split; [reflexivity|]. split; [exact Ly|].
    rewrite !value_finite. cbn [value]. destruct sy; cbn [negb]; lra.
  - unfold JS.sub, SFsub. split; [reflexivity|]. split; [exact Lx|]. cbn [value]. lra.
  - unfold JS.sub, SFsub, JS.prec, JS.emax.
    set (ez := Z.min ex ey).
    pose proof (shl_align_value mx ex ez ltac:(subst ez; lia)) as Hax.
    pose proof (shl_align_value my ey ez ltac:(subst ez; lia)) as Hay.
    set (ax := fst (shl_align mx ex ez)) in *.
    set (ay := fst (shl_align my ey ez)) in *.
    set (Z0 := (cond_Zopp sx (Zpos ax) - cond_Zopp sy (Zpos ay))%Z).
    assert (HZ : IZR Z0 * powerRZ 2 ez
                 = value (S754_finite sx mx ex) - value (S754_finite sy my ey)).
    { subst Z0. rewrite minus_IZR, Rmult_minus_distr_r, !cond_Zopp_value, !value_finite.
      rewrite Hax, Hay. reflexivity. }
    set (vx := value (S754_finite sx mx ex)) in *.
    set (vy := value (S754_finite sy my ey)) in *.
    pose proof (p2_succ (K - 1)) as H28. replace (K - 1 + 1)%Z with K in H28 by lia.
    destruct Z0 as [|m|m]; cbn [binary_normalize].
    + split; [reflexivity|]. split; [exact I|]. cbn [value]. lra.
    + destruct (binary_round_close false m ez K HK) as (mf & ef & H0 & Hlow & Hr & Hc); [lra|].
      rewrite Hr. destruct (value_number_of false mf ef H0 Hlow) as (Hv & Hfin & Hl).
      split; [exact Hfin|]. split; [exact Hl|]. rewrite Hv. lra.
    + assert (Hneg : IZR (Zpos m) * powerRZ 2 ez = - (vx - vy)).
      { rewrite <- HZ. change (Zneg m) with (- Zpos m)%Z. rewrite opp_IZR. lra. }
      destruct (binary_round_close true m ez K HK) as (mf & ef & H0 & Hlow & Hr & Hc); [lra|].
      rewrite Hr. destruct (value_number_of true mf ef H0 Hlow) as (Hv & Hfin & Hl).
      split; [exact Hfin|]. split; [exact Hl|]. rewrite Hv. lra.
Qed.

End Subtraction.
(* ===================================================================== *)
(** * What the column reads in the text of a Number *)
(* ===================================================================== *)

Section Substrings.

Lemma split_at (n : nat) : forall ds : string,
  (n <= String.length ds)%nat ->
  exists a b, ds = a +:+ b /\ String.length a = n.
Proof.
  induction n as [|n IH]; intros ds Hn.
  - exists EmptyString, ds. split; reflexivity.
  - destruct ds as [|c ds]; [cbn in Hn; lia|].
    destruct (IH ds) as (a & b & -> & Ha); [cbn in Hn; lia|].
    exists (String c a), b. split; [reflexivity|]. cbn. rewrite Ha. reflexivity.
Qed.

Lemma substring_prefix (a b : string) :
  String.substring 0 (String.length a) (a +:+ b) = a.
Proof.
  induction a as [|c a IH]; [destruct b; reflexivity|].
  rewrite append_cons. cbn [String.length String.substring]. rewrite IH. reflexivity.
Qed.

Lemma substring_all (b : string) : String.substring 0 (String.length b) b = b.
Proof.
  induction b as [|c b IH]; [reflexivity|].
  cbn [String.length String.substring]. rewrite IH. reflexivity.
Qed.

Lemma substring_suffix (a b : string) :
  String.substring (String.length a) (String.length b) (a +:+ b) = b.
Proof.
  induction a as [|c a IH]; [rewrite append_nil; apply substring_all|].
  rewrite append_cons. cbn [String.length String.substring]. exact IH.
Qed.

Lemma length_append (a b : string) :
  String.length (a +:+ b) = (String.length a + String.length b)%nat.
Proof.
  induction a as [|c a IH]; [reflexivity|].
  rewrite append_cons. cbn [String.length]. rewrite IH. reflexivity.
Qed.

(** A digit string cut after [n] places. *)
Lemma substr_split (ds : string) (n : Z) :
  0 <= n <= JS.slen ds ->
  exists a b,
    ds = a +:+ b /\ JS.slen a = n
    /\ JS.substr ds 0 n = a /\ JS.substr ds n (JS.slen ds - n) = b.
Proof.
  unfold JS.slen, JS.substr. intros Hn.
  destruct (split_at (Z.to_nat n) ds ltac:(lia)) as (a & b & -> & Ha).
  exists a, b. split; [reflexivity|]. split; [lia|].
  rewrite length_append.
  change (Z.to_nat 0) with 0%nat.
  replace (Z.to_nat (Z.of_nat (String.length a + String.length b) - n))
    with (String.length b) by lia.
  rewrite <- Ha. split; [apply substring_prefix | apply substring_suffix].
Qed.

Lemma all_digits_zeros (m : nat) : all_digits (JS.zeros m) = true.
Proof. induction m as [|m IH]; [reflexivity|]. cbn [JS.zeros all_digits]. exact IH. Qed.

Lemma slen_zeros (m : nat) : JS.slen (JS.zeros m) = Z.of_nat m.
Proof.
  unfold JS.slen. induction m as [|m IH]; [reflexivity|].
  cbn [JS.zeros String.length]. lia.
Qed.

Lemma digits_value_zeros (m : nat) (acc : Z) :
  digits_value acc (JS.zeros m) = acc * 10 ^ Z.of_nat m.
Proof.
  revert acc. induction m as [|m IH]; intros acc; cbn [JS.zeros digits_value].
  - cbn. lia.
  - change (JS.digit_of "0") with (Some 0). cbv iota beta.
    rewrite IH, Nat2Z.inj_succ, Z.pow_succ_r by lia. lia.
Qed.

End Substrings.

Section ReadingDigits.

Lemma append_nil_r (a : string) : a +:+ EmptyString = a.
Proof.
  induction a as [|c a IH]; [reflexivity|]. rewrite append_cons, IH. reflexivity.
Qed.

Lemma span_digits_tail (tl : string) (acc len : Z) :
  is_tail tl -> JS.span_digits acc len tl = (acc, len, tl).
Proof. intros [->|(t & ->)]; reflexivity. Qed.

Lemma unsigned_in_integer (neg : bool) (a tl rest : string) (e : Z) :
  all_digits a = true -> 1 <= JS.slen a -> is_tail tl ->
  Column.exponent tl = Some (e, rest) -> Column.only_spaces rest = true ->
  Column.unsigned_in neg (a +:+ tl) = Some (Column.Num neg (digits_value 0 a) e).
Proof.
  intros Ha Hlen Htl He Hrest. unfold Column.unsigned_in.
  rewrite span_digits_app, span_digits_tail by assumption.
  assert (Hm : match tl with
               | String "." t =>
                   let '(v, total, r) :=
                     JS.span_digits (digits_value 0 a) (0 + JS.slen a) t in
                   (v, total - (0 + JS.slen a), r)
               | _ => (digits_value 0 a, 0, tl)
               end = (digits_value 0 a, 0, tl))
    by (destruct Htl as [->|(t & ->)]; reflexivity).
  rewrite Hm.
  replace (0 + JS.slen a + 0 =? 0) with false by (symmetry; apply Z.eqb_neq; lia).
  rewrite He, Hrest. do 2 f_equal. lia.
Qed.

Lemma unsigned_in_point (neg : bool) (a b tl rest : string) (e : Z) :
  all_digits a = true -> all_digits b = true -> 1 <= JS.slen a -> is_tail tl ->
  Column.exponent tl = Some (e, rest) -> Column.only_spaces rest = true ->
  Column.unsigned_in neg (a +:+ String "." (b +:+ tl))
  = Some (Column.Num neg (digits_value 0 (a +:+ b)) (e - JS.slen b)).
Proof.
  intros Ha Hb Hlen Htl He Hrest. unfold Column.unsigned_in.
  rewrite span_digits_app by assumption.
  cbn [JS.span_digits]. change (JS.digit_of ".") with (@None Z). cbv iota beta.
  rewrite span_digits_app, span_digits_tail by assumption.
  replace (0 + JS.slen a + (0 + JS.slen a + JS.slen b - (0 + JS.slen a)) =? 0)
    with false by (symmetry; apply Z.eqb_neq; unfold JS.slen in *; lia).
  rewrite He, Hrest, digits_value_app by assumption. do 2 f_equal. lia.
Qed.

Lemma unsigned_in_integer_end (neg : bool) (a : string) :
  all_digits a = true -> 1 <= JS.slen a ->
  Column.unsigned_in neg a = Some (Column.Num neg (digits_value 0 a) 0).
Proof.
  intros Ha Hlen. rewrite <- (append_nil_r a) at 1.
  apply unsigned_in_integer with (rest := EmptyString); try assumption; try reflexivity.
  left. reflexivity.
Qed.

Lemma unsigned_in_point_end (neg : bool) (a b : string) :
  all_digits a = true -> all_digits b = true -> 1 <= JS.slen a ->
  Column.unsigned_in neg (a +:+ String "." b)
  = Some (Column.Num neg (digits_value 0 (a +:+ b)) (0 - JS.slen b)).
Proof.
  intros Ha Hb Hlen. rewrite <- (append_nil_r b) at 1.
  apply unsigned_in_point with (rest := EmptyString); try assumption; try reflexivity.
  left. reflexivity.
Qed.

(** The exponent as [toString] writes it. *)
Lemma exponent_written (m : Z) :
  Z.abs m < 1073741823 ->
  Column.exponent
    (String "e" ((if m <? 0 then "-" else "+") +:+ JS.digits (Z.abs m)))
  = Some (m, EmptyString).
Proof.
  intros Hm. unfold Column.exponent.
  change ((JS.code "e" =? 101) || (JS.code "e" =? 69)) with true. cbv iota.
  destruct (digits_spec (Z.abs m) ltac:(lia)) as (Hall & Hval & Hlen & _).
  assert (Hspan : JS.span_digits 0 0 (JS.digits (Z.abs m))
                  = (Z.abs m, JS.slen (JS.digits (Z.abs m)), EmptyString)).
  { rewrite <- (append_nil_r (JS.digits (Z.abs m))) at 1.
    rewrite span_digits_app by exact Hall. cbn [JS.span_digits]. rewrite Hval.
    reflexivity. }
  destruct (Z.ltb_spec m 0) as [Hneg|Hpos].
  - change (JS.take_sign ("-" +:+ JS.digits (Z.abs m)))
      with (true, JS.digits (Z.abs m)).
    cbv iota beta. rewrite Hspan.
    replace (JS.slen (JS.digits (Z.abs m)) =? 0) with false
      by (symmetry; apply Z.eqb_neq; lia).
    replace (1073741823 <=? Z.abs m) with false by (symmetry; apply Z.leb_gt; lia).
    cbn [orb]. do 2 f_equal. lia.
  - change (JS.take_sign ("+" +:+ JS.digits (Z.abs m)))
      with (false, JS.digits (Z.abs m)).
    cbv iota beta. rewrite Hspan.
    replace (JS.slen (JS.digits (Z.abs m)) =? 0) with false
      by (symmetry; apply Z.eqb_neq; lia).
    replace (1073741823 <=? Z.abs m) with false by (symmetry; apply Z.leb_gt; lia).
    cbn [orb]. do 2 f_equal. lia.
Qed.

End ReadingDigits.

Section ReadingFormat.

Local Open Scope R_scope.

Lemma decimal_shift (d m x : Z) :
  (0 <= m)%Z -> decimal (d * 10 ^ m) x = decimal d (m + x).
Proof.
  intros Hm. unfold decimal. rewrite mult_IZR, (IZR_pow 10), p10_add by exact Hm. lra.
Qed.

(** The digits [ds] written at magnitude [n] read back as the decimal
    [ds * 10^(n - length)]. *)
Lemma format_positive_in (neg : bool) (ds : string) (n : Z) :
  all_digits ds = true -> (1 <= JS.slen ds)%Z -> (Z.abs (n - 1) < 1073741823)%Z ->
  exists v x,
    Column.unsigned_in neg (JS.format_positive ds n) = Some (Column.Num neg v x)
    /\ (0 <= v)%Z
    /\ decimal v x = decimal (digits_value 0 ds) (n - JS.slen ds).
Proof.
  intros Hall Hlen Hn. unfold JS.format_positive.
  set (k := JS.slen ds) in *.
  pose proof (digits_value_bounds ds Hall) as [Hv0 _].
  destruct ((k <=? n)%Z && (n <=? 21)%Z) eqn:C1.
  { (* digits followed by zeros *)
    apply andb_true_iff in C1 as [C1 _]. apply Z.leb_le in C1.
    pose proof (all_digits_zeros (Z.to_nat (n - k))) as Hz.
    eexists _, _. split.
    - apply unsigned_in_integer_end.
      + rewrite all_digits_app, Hall, Hz. reflexivity.
      + rewrite slen_append, slen_zeros. fold k. lia.
    - rewrite digits_value_app, digits_value_zeros by exact Hall.
      rewrite Z2Nat.id by lia. split.
      + apply Z.mul_nonneg_nonneg; [exact Hv0 | apply Z.pow_nonneg; lia].
      + rewrite decimal_shift by lia. f_equal. lia. }
  destruct ((0 <? n)%Z && (n <=? 21)%Z) eqn:C2.
  { (* a point inside the digits *)
    apply andb_true_iff in C2 as [C2 C2']. apply Z.ltb_lt in C2. apply Z.leb_le in C2'.
    assert (Hnk : (n < k)%Z).
    { apply andb_false_iff in C1 as [C1|C1]; [apply Z.leb_gt in C1; lia|].
      apply Z.leb_gt in C1. lia. }
    destruct (substr_split ds n ltac:(fold k; lia)) as (a & b & Hds & Ha & Hs1 & Hs2).
    fold k in Hs2. rewrite Hs1, Hs2.
    assert (Hab : all_digits a = true /\ all_digits b = true).
    { rewrite Hds, all_digits_app in Hall. apply andb_true_iff in Hall. exact Hall. }
    destruct Hab as [Haa Hbb].
    assert (Hb : JS.slen b = (k - n)%Z).
    { subst k. rewrite Hds, slen_append. lia. }
    eexists _, _. split.
    - change ("." +:+ b) with (String "." b).
      apply unsigned_in_point_end; try assumption. lia.
    - rewrite <- Hds. split; [exact Hv0|]. f_equal. lia. }
  destruct ((-6 <? n)%Z && (n <=? 0)%Z) eqn:C3.
  { (* zeros after the point, then the digits *)
    apply andb_true_iff in C3 as [C3 C3']. apply Z.ltb_lt in C3. apply Z.leb_le in C3'.
    pose proof (all_digits_zeros (Z.to_nat (- n))) as Hz.
    eexists _, _. split.
    - change ("0." +:+ JS.zeros (Z.to_nat (- n)) +:+ ds)
        with ("0" +:+ String "." (JS.zeros (Z.to_nat (- n)) +:+ ds)).
      apply unsigned_in_point_end; try reflexivity.
      rewrite all_digits_app, Hz, Hall. reflexivity.
    - change ("0" +:+ JS.zeros (Z.to_nat (- n)) +:+ ds)
        with (String "0" (JS.zeros (Z.to_nat (- n)) +:+ ds)).
      cbn [digits_value]. change (JS.digit_of "0") with (Some 0%Z). cbv iota beta.
      rewrite digits_value_app, digits_value_zeros by exact Hz.
      change (10 * 0 + 0)%Z with 0%Z. rewrite Z.mul_0_l.
      split; [exact Hv0|]. f_equal.
      rewrite slen_append, slen_zeros. fold k. lia. }
  (* exponent notation *)
  assert (Hex : Column.exponent
                  (String "e" ((if (n - 1 <? 0)%Z then "-" else "+")
                               +:+ JS.digits (Z.abs (n - 1))))
                = Some ((n - 1)%Z, EmptyString))
    by (apply exponent_written; exact Hn).
  destruct (Z.eqb_spec k 1) as [Hk1|Hk1].
  - eexists _, _. split.
    + change ("e" +:+ (if (n - 1 <? 0)%Z then "-" else "+") +:+ JS.digits (Z.abs (n - 1)))
        with (String "e" ((if (n - 1 <? 0)%Z then "-" else "+")
                          +:+ JS.digits (Z.abs (n - 1)))).
      apply unsigned_in_integer with (rest := EmptyString) (e := (n - 1)%Z);
        [exact Hall | exact Hlen | right; eexists; reflexivity | exact Hex | reflexivity].
    + split; [exact Hv0|]. f_equal. lia.
  - destruct (substr_split ds 1 ltac:(fold k; lia)) as (a & b & Hds & Ha & Hs1 & Hs2).
    fold k in Hs2. rewrite Hs1, Hs2.
    assert (Hab : all_digits a = true /\ all_digits b = true).
    { rewrite Hds, all_digits_app in Hall. apply andb_true_iff in Hall. exact Hall. }
    destruct Hab as [Haa Hbb].
    assert (Hb : JS.slen b = (k - 1)%Z).
    { subst k. rewrite Hds, slen_append. lia. }
    eexists _, _. split.
    + change ("." +:+ b +:+ "e" +:+ (if (n - 1 <? 0)%Z then "-" else "+")
              +:+ JS.digits (Z.abs (n - 1)))
        with (String "." (b +:+ String "e" ((if (n - 1 <? 0)%Z then "-" else "+")
                                            +:+ JS.digits (Z.abs (n - 1))))).
      apply unsigned_in_point with (rest := EmptyString) (e := (n - 1)%Z);
        [exact Haa | exact Hbb | lia | right; eexists; reflexivity | exact Hex | reflexivity].
    + rewrite <- Hds. split; [exact Hv0|]. f_equal. lia.
Qed.

End ReadingFormat.
(* ===================================================================== *)
(** * The digits [toString] chooses *)
(* ===================================================================== *)

Section Magnitude.

Local Open Scope R_scope.

Lemma p10_inv (j : Z) : powerRZ 10 (- j) * powerRZ 10 j = 1.
Proof. rewrite <- p10_add. replace (- j + j)%Z with 0%Z by lia. reflexivity. Qed.

Lemma p2_inv (j : Z) : powerRZ 2 (- j) * powerRZ 2 j = 1.
Proof. rewrite <- p2_add. replace (- j + j)%Z with 0%Z by lia. reflexivity. Qed.

(** [ratio]: the value as a fraction of positive integers. *)
Lemma ratio_spec (m : positive) (e : Z) :
  (-1074 <= e)%Z ->
  let '(p, q) := JS.ratio m e in
  (0 < p)%Z /\ (0 < q)%Z /\ (q <= 2 ^ 1074)%Z
  /\ IZR p = IZR (Zpos m) * powerRZ 2 e * IZR q.
Proof.
  intros He. unfold JS.ratio. destruct (Z.leb_spec 0 e) as [H|H].
  - assert (0 < 2 ^ e)%Z by (apply Z.pow_pos_nonneg; lia).
    split; [lia|]. split; [lia|]. split.
    + assert (0 < 2 ^ 1074)%Z by (apply Z.pow_pos_nonneg; lia). lia.
    + rewrite mult_IZR, (IZR_pow 2) by lia. lra.
  - assert (0 < 2 ^ (- e))%Z by (apply Z.pow_pos_nonneg; lia).
    split; [lia|]. split; [lia|]. split.
    + apply Z.pow_le_mono_r; lia.
    + rewrite (IZR_pow 2) by lia.
      rewrite Rmult_assoc, (Rmult_comm (powerRZ 2 e)), p2_inv. lra.
Qed.

Lemma small_magnitude_spec (p q : Z) (fuel : nat) : forall j0 : Z,
  (1 <= j0)%Z -> (p * 10 ^ (j0 - 1) < q)%Z ->
  (exists J, j0 <= J < j0 + Z.of_nat fuel /\ q <= p * 10 ^ J)%Z ->
  let j := JS.small_magnitude fuel p q j0 in
  (j0 <= j)%Z /\ (q <= p * 10 ^ j)%Z /\ (p * 10 ^ (j - 1) < q)%Z.
Proof.
  induction fuel as [|fuel IH]; intros j0 Hj0 Hlt (J & HJ & HqJ).
  - lia.
  - cbn [JS.small_magnitude]. destruct (Z.leb_spec q (p * 10 ^ j0)) as [Hle|Hgt].
    + cbn zeta. repeat split; [lia | exact Hle | exact Hlt].
    + assert (J <> j0) by (intros ->; lia).
      destruct (IH (j0 + 1)%Z ltac:(lia)) as (H1 & H2 & H3).
      * replace (j0 + 1 - 1)%Z with j0 by lia. exact Hgt.
      * exists J. split; [lia | exact HqJ].
      * cbn zeta. repeat split; [lia | exact H2 | exact H3].
Qed.

Lemma pow2_below_pow10 : (2 ^ 1074 <= 10 ^ 400)%Z.
Proof. apply Z.leb_le. vm_compute. reflexivity. Qed.

(** [magnitude]: the power of ten just above the value. *)
Lemma magnitude_spec (p q : Z) :
  (0 < p)%Z -> (0 < q)%Z -> (q <= 2 ^ 1074)%Z ->
  let n := JS.magnitude p q in
  IZR q * powerRZ 10 (n - 1) <= IZR p < IZR q * powerRZ 10 n.
Proof.
  intros Hp Hq Hq2. unfold JS.magnitude.
  destruct (Z.leb_spec q p) as [Hle|Hlt]; cbn zeta.
  - set (f := (p / q)%Z).
    assert (Hf : (1 <= f)%Z) by (subst f; apply Z.div_le_lower_bound; lia).
    destruct (digits_spec f ltac:(lia)) as (_ & _ & Hlen & Hone & Hlow).
    pose proof (digits_below_pow f ltac:(lia)) as Hup.
    set (n := JS.slen (JS.digits f)) in *.
    assert (Hlow' : (10 ^ (n - 1) <= f)%Z).
    { destruct (Z.ltb_spec f 10) as [Hs|Hs].
      - rewrite (Hone Hs). cbn. lia.
      - apply Hlow, Hs. }
    pose proof (div_bounds p q Hq) as Hb. fold f in Hb.
    apply IZR_le in Hlow'. rewrite (IZR_pow 10) in Hlow' by lia.
    assert (Hup' : IZR f + 1 <= powerRZ 10 n).
    { rewrite <- (IZR_pow 10), <- plus_IZR by lia. apply IZR_le. lia. }
    assert (0 < IZR q) by (apply IZR_lt; lia).
    split; nra.
  - set (j := JS.small_magnitude 400 p q 1).
    destruct (small_magnitude_spec p q 400 1 ltac:(lia)) as (Hj & Hqj & Hpj).
    + cbn. lia.
    + exists 400%Z. split; [lia|].
      pose proof pow2_below_pow10.
      assert (0 < 10 ^ 400)%Z by (apply Z.pow_pos_nonneg; lia). nia.
    + fold j in Hj, Hqj, Hpj.
      apply IZR_le in Hqj. apply IZR_lt in Hpj.
      rewrite mult_IZR, (IZR_pow 10) in Hqj, Hpj by lia.
      replace (1 - j - 1)%Z with (- j)%Z by lia.
      replace (1 - j)%Z with (- (j - 1))%Z by lia.
      pose proof (p10_inv j) as Hi. pose proof (p10_inv (j - 1)) as Hi'.
      pose proof (p10_pos (- j)). pose proof (p10_pos (- (j - 1))).
      pose proof (p10_pos j). pose proof (p10_pos (j - 1)).
      split.
      * apply Rmult_le_reg_r with (powerRZ 10 j); [assumption|].
        rewrite Rmult_assoc, Hi. lra.
      * apply Rmult_lt_reg_r with (powerRZ 10 (j - 1)); [assumption|].
        rewrite Rmult_assoc, Hi'. lra.
Qed.

End Magnitude.

Section Shortest.

Local Open Scope R_scope.

Lemma shortest_eq (fuel : nat) (x : JS.number) (p q n k : Z) :
  JS.shortest fuel x p q n k =
  let j := (n - k)%Z in
  let '(num, den) := if (0 <=? j)%Z then (p, (q * 10 ^ j)%Z) else ((p * 10 ^ (- j))%Z, q) in
  let lo := (num / den)%Z in
  let r := (num mod den)%Z in
  let hi := (lo + 1)%Z in
  let ok_lo := JS.eqb (JS.of_decimal false lo j) x in
  let ok_hi := JS.eqb (JS.of_decimal false hi j) x in
  let pick_hi := if (hi =? 10 ^ k)%Z then ((10 ^ (k - 1))%Z, (n + 1)%Z) else (hi, n) in
  match fuel with
  | O => (lo, n)
  | S f =>
      if ok_lo && ok_hi then
        match (2 * r ?= den)%Z with
        | Lt => (lo, n)
        | Gt => pick_hi
        | Eq => if Z.even lo then (lo, n) else pick_hi
        end
      else if ok_lo then (lo, n)
      else if ok_hi then pick_hi
      else JS.shortest f x p q n (k + 1)
  end.
Proof. destruct fuel; reflexivity. Qed.

(** The [k]-digit candidate below the value. *)
Lemma candidate_below (p q n k : Z) (vy : R) :
  (0 < p)%Z -> (0 < q)%Z -> IZR p = vy * IZR q ->
  powerRZ 10 (n - 1) <= vy < powerRZ 10 n -> (1 <= k)%Z ->
  let j := (n - k)%Z in
  let nd := if (0 <=? j)%Z then (p, (q * 10 ^ j)%Z) else ((p * 10 ^ (- j))%Z, q) in
  let lo := (fst nd / snd nd)%Z in
  (10 ^ (k - 1) <= lo < 10 ^ k)%Z
  /\ decimal lo j <= vy < decimal lo j + powerRZ 10 j.
Proof.
  intros Hp Hq Hpq Hn Hk j nd lo.
  assert (HqR : 0 < IZR q) by (apply IZR_lt; lia).
  pose proof (p10_pos j) as Hpj.
  assert (Hdec : decimal lo j <= vy < decimal lo j + powerRZ 10 j).
  { unfold decimal. subst lo nd. destruct (Z.leb_spec 0 j) as [Hj|Hj]; cbn [fst snd].
    - assert (Hden : (0 < q * 10 ^ j)%Z)
        by (apply Z.mul_pos_pos; [lia | apply Z.pow_pos_nonneg; lia]).
      pose proof (div_bounds p (q * 10 ^ j) Hden) as Hb.
      rewrite mult_IZR, (IZR_pow 10) in Hb by lia.
      set (l := IZR (p / (q * 10 ^ j))) in *. rewrite Hpq in Hb.
      split; apply Rmult_le_reg_r with (IZR q) || apply Rmult_lt_reg_r with (IZR q);
        try exact HqR; nra.
    - assert (Hsh : (0 < 10 ^ (- j))%Z) by (apply Z.pow_pos_nonneg; lia).
      pose proof (div_bounds (p * 10 ^ (- j)) q Hq) as Hb.
      rewrite mult_IZR, (IZR_pow 10) in Hb by lia.
      set (l := IZR (p * 10 ^ (- j) / q)) in *. rewrite Hpq in Hb.
      pose proof (p10_inv j) as Hi. pose proof (p10_pos (- j)) as Hpn.
      assert (Hl : l <= vy * powerRZ 10 (- j) < l + 1).
      { split; apply Rmult_le_reg_r with (IZR q) || apply Rmult_lt_reg_r with (IZR q);
          try exact HqR; nra. }
      assert (Hvy : vy = vy * powerRZ 10 (- j) * powerRZ 10 j)
        by (rewrite Rmult_assoc, Hi; lra).
      split; nra. }
  split; [|exact Hdec].
  unfold decimal in Hdec.
  assert (Hk1 : powerRZ 10 (n - 1) = powerRZ 10 (k - 1) * powerRZ 10 j)
    by (rewrite <- p10_add; f_equal; lia).
  assert (Hk0 : powerRZ 10 n = powerRZ 10 k * powerRZ 10 j)
    by (rewrite <- p10_add; f_equal; lia).
  split.
  - assert (IZR (10 ^ (k - 1)) < IZR lo + 1).
    { rewrite (IZR_pow 10) by lia.
      apply Rmult_lt_reg_r with (powerRZ 10 j); [exact Hpj | nra]. }
    rewrite <- plus_IZR in H. apply lt_IZR in H. lia.
  - apply lt_IZR. rewrite (IZR_pow 10) by lia.
    apply Rmult_lt_reg_r with (powerRZ 10 j); [exact Hpj | nra].
Qed.

(** What [shortest] returns: digits [dd] of some length [k'], with a
    magnitude, such that either the decimal reads back as the Number (it,
    or the same decimal written with other digits), or the fuel is spent
    and the decimal is the value cut after [k'] digits. *)
Lemma shortest_spec (x : JS.number) (p q n : Z) (vy : R) :
  (0 < p)%Z -> (0 < q)%Z -> IZR p = vy * IZR q ->
  powerRZ 10 (n - 1) <= vy < powerRZ 10 n ->
  forall (fuel : nat) (k : Z), (1 <= k)%Z ->
  exists k',
    (k <= k' <= k + Z.of_nat fuel)%Z
    /\ (10 ^ (k' - 1) <= fst (JS.shortest fuel x p q n k) < 10 ^ k')%Z
    /\ (n <= snd (JS.shortest fuel x p q n k) <= n + 1)%Z
    /\ ((exists c j,
           (0 <= c)%Z
           /\ JS.eqb (JS.of_decimal false c j) x = true
           /\ decimal c j
              = decimal (fst (JS.shortest fuel x p q n k))
                        (snd (JS.shortest fuel x p q n k) - k')
           /\ decimal c j <= 2 * vy)
        \/ ((k' = k + Z.of_nat fuel)%Z
            /\ decimal (fst (JS.shortest fuel x p q n k))
                       (snd (JS.shortest fuel x p q n k) - k') <= vy
               < decimal (fst (JS.shortest fuel x p q n k))
                         (snd (JS.shortest fuel x p q n k) - k')
                 + powerRZ 10 (n - k'))).
Proof.
  intros Hp Hq Hpq Hn fuel.
  induction fuel as [|fuel IH]; intros k Hk.
  - pose proof (candidate_below p q n k vy Hp Hq Hpq Hn Hk) as Hc.
    rewrite shortest_eq. cbv zeta in Hc |- *.
    destruct (if (0 <=? n - k)%Z then (p, (q * 10 ^ (n - k))%Z)
              else ((p * 10 ^ (- (n - k)))%Z, q)) as [num den].
    cbn [fst snd] in Hc |- *. destruct Hc as [Hlo Hdec].
    exists k. split; [lia|]. split; [exact Hlo|]. split; [lia|].
    right. split; [lia | exact Hdec].
  - pose proof (candidate_below p q n k vy Hp Hq Hpq Hn Hk) as Hc.
    rewrite shortest_eq. cbv zeta in Hc |- *.
    destruct (if (0 <=? n - k)%Z then (p, (q * 10 ^ (n - k))%Z)
              else ((p * 10 ^ (- (n - k)))%Z, q)) as [num den].
    cbn [fst snd] in Hc. destruct Hc as [Hlo Hdec].
    set (lo := (num / den)%Z) in *.
    set (j := (n - k)%Z) in *.
    assert (Hj1 : powerRZ 10 j <= vy).
    { pose proof (p10_le j (n - 1) ltac:(lia)). lra. }
    (* the two ways out at this length *)
    assert (Out_lo :
      JS.eqb (JS.of_decimal false lo j) x = true ->
      exists k',
        (k <= k' <= k + Z.of_nat (S fuel))%Z
        /\ (10 ^ (k' - 1) <= fst (lo, n) < 10 ^ k')%Z
        /\ (n <= snd (lo, n) <= n + 1)%Z
        /\ ((exists c j0,
               (0 <= c)%Z /\ JS.eqb (JS.of_decimal false c j0) x = true
               /\ decimal c j0 = decimal (fst (lo, n)) (snd (lo, n) - k')
               /\ decimal c j0 <= 2 * vy)
            \/ ((k' = k + Z.of_nat (S fuel))%Z
                /\ decimal (fst (lo, n)) (snd (lo, n) - k') <= vy
                   < decimal (fst (lo, n)) (snd (lo, n) - k') + powerRZ 10 (n - k')))).
    { intros Hok. exists k. cbn [fst snd]. split; [lia|]. split; [exact Hlo|].
      split; [lia|]. left. exists lo, j. split; [lia|]. split; [exact Hok|].
      split; [reflexivity|]. lra. }
    set (pick := if (lo + 1 =? 10 ^ k)%Z then ((10 ^ (k - 1))%Z, (n + 1)%Z)
                 else ((lo + 1)%Z, n)).
    assert (Out_hi :
      JS.eqb (JS.of_decimal false (lo + 1) j) x = true ->
      exists k',
        (k <= k' <= k + Z.of_nat (S fuel))%Z
        /\ (10 ^ (k' - 1) <= fst pick < 10 ^ k')%Z
        /\ (n <= snd pick <= n + 1)%Z
        /\ ((exists c j0,
               (0 <= c)%Z /\ JS.eqb (JS.of_decimal false c j0) x = true
               /\ decimal c j0 = decimal (fst pick) (snd pick - k')
               /\ decimal c j0 <= 2 * vy)
            \/ ((k' = k + Z.of_nat (S fuel))%Z
                /\ decimal (fst pick) (snd pick - k') <= vy
                   < decimal (fst pick) (snd pick - k') + powerRZ 10 (n - k')))).
    { intros Hok. exists k. split; [lia|].
      assert (Hhi : decimal (lo + 1) j <= 2 * vy).
      { unfold decimal in *. rewrite plus_IZR. lra. }
      subst pick. destruct (Z.eqb_spec (lo + 1) (10 ^ k)) as [He|Hne]; cbn [fst snd].
      - assert (0 < 10 ^ (k - 1))%Z by (apply Z.pow_pos_nonneg; lia).
        assert (10 ^ k = 10 * 10 ^ (k - 1))%Z.
        { replace k with (Z.succ (k - 1)) at 1 by lia. rewrite Z.pow_succ_r by lia. lia. }
        split; [lia|]. split; [lia|].
        left. exists (lo + 1)%Z, j. split; [lia|]. split; [exact Hok|].
        split; [|exact Hhi].
        rewrite He. unfold decimal. rewrite !(IZR_pow 10), <- !p10_add by lia.
        f_equal. lia.
      - split; [lia|]. split; [lia|].
        left. exists (lo + 1)%Z, j. split; [lia|]. split; [exact Hok|].
        split; [reflexivity | exact Hhi]. }
    fold pick.
    destruct (JS.eqb (JS.of_decimal false lo j) x) eqn:Elo;
      destruct (JS.eqb (JS.of_decimal false (lo + 1) j) x) eqn:Ehi; cbn [andb].
    + destruct (2 * (num mod den) ?= den)%Z; [|auto|auto].
      destruct (Z.even lo); auto.
    + auto.
    + auto.
    + destruct (IH (k + 1)%Z ltac:(lia)) as (k' & Hk' & Hd & Hsn & Hev).
      exists k'. split; [lia|]. split; [exact Hd|]. split; [exact Hsn|].
      destruct Hev as [Hev|[Hev1 Hev2]]; [left; exact Hev|].
      right. split; [lia | exact Hev2].
Qed.

End Shortest.

Section TextOfNumber.

Local Open Scope R_scope.

Lemma eqb_finite (a : JS.number) (m : positive) (e : Z) :
  JS.eqb a (S754_finite false m e) = true -> a = S754_finite false m e.
Proof.
  unfold JS.eqb, SFeqb, SFcompare.
  destruct a as [s|s| |s m' e']; try destruct s; try discriminate.
  destruct (Z.compare_spec e' e) as [->| |]; try discriminate.
  change (Pos.compare_cont Eq m' m) with (Pos.compare m' m).
  destruct (Pos.compare_spec m' m) as [->| |]; try discriminate.
  reflexivity.
Qed.

Lemma digits_length (dd k : Z) :
  (1 <= k)%Z -> (10 ^ (k - 1) <= dd < 10 ^ k)%Z -> JS.slen (JS.digits dd) = k.
Proof.
  intros Hk [Hlo Hhi].
  assert (Hdd : (0 <= dd)%Z).
  { assert (0 < 10 ^ (k - 1))%Z by (apply Z.pow_pos_nonneg; lia). lia. }
  destruct (digits_spec dd Hdd) as (_ & _ & Hlen & Hone & Hlow).
  pose proof (digits_below_pow dd Hdd) as Hup.
  set (L := JS.slen (JS.digits dd)) in *.
  destruct (Z.lt_trichotomy L k) as [Hlt|[Heq|Hgt]]; [|exact Heq|].
  - exfalso. assert (10 ^ L <= 10 ^ (k - 1))%Z by (apply Z.pow_le_mono_r; lia). lia.
  - exfalso. destruct (Z.ltb_spec dd 10) as [Hs|Hs]; [specialize (Hone Hs); lia|].
    specialize (Hlow Hs).
    assert (10 ^ k <= 10 ^ (L - 1))%Z by (apply Z.pow_le_mono_r; lia). lia.
Qed.

Lemma numeric_in_minus (body : string) :
  Column.numeric_in (String "-" body) = Column.unsigned_in true body.
Proof.
  unfold Column.numeric_in.
  change (Column.skip_spaces (String "-" body)) with (String "-" body).
  assert (Hn : Column.nan_text (String "-" body) = None)
    by (destruct body as [|b1 [|b2 r]]; reflexivity).
  rewrite Hn. reflexivity.
Qed.

Lemma numeric_in_digit (d : Z) (t : string) :
  (0 <= d <= 9)%Z ->
  Column.numeric_in (String (JS.digit_char d) t)
  = Column.unsigned_in false (String (JS.digit_char d) t).
Proof.
  intros Hd. pattern d. apply digit_ind; [..|exact Hd];
    unfold Column.numeric_in;
    match goal with
    | |- context [Column.skip_spaces (String ?c t)] =>
        change (Column.skip_spaces (String c t)) with (String c t);
        assert (Hn : Column.nan_text (String c t) = None)
          by (destruct t as [|b1 [|b2 r]]; reflexivity);
        rewrite Hn; reflexivity
    end.
Qed.

Lemma format_positive_head (ds : string) (n : Z) :
  all_digits ds = true -> (1 <= JS.slen ds)%Z ->
  exists d t, (0 <= d <= 9)%Z /\ JS.format_positive ds n = String (JS.digit_char d) t.
Proof.
  intros Hall Hlen.
  destruct (all_digits_head ds Hall Hlen) as (d & t & Hd & Hds).
  assert (Hsub : forall i rest, (1 <= i <= JS.slen ds)%Z ->
            exists t', JS.substr ds 0 i +:+ rest = String (JS.digit_char d) t').
  { intros i rest Hi.
    destruct (substr_split ds i ltac:(lia)) as (a & b & Hab & Ha & -> & _).
    destruct a as [|c a]; [unfold JS.slen in Ha; cbn in Ha; lia|].
    rewrite Hds in Hab. rewrite append_cons in Hab. injection Hab as <- _.
    rewrite append_cons. eexists. reflexivity. }
  unfold JS.format_positive.
  destruct ((JS.slen ds <=? n)%Z && (n <=? 21)%Z) eqn:C1.
  { rewrite Hds, append_cons. exists d. eexists. split; [exact Hd | reflexivity]. }
  destruct ((0 <? n)%Z && (n <=? 21)%Z) eqn:C2.
  { apply andb_true_iff in C2 as [C2 C2']. apply Z.ltb_lt in C2. apply Z.leb_le in C2'.
    assert (Hnk : (n < JS.slen ds)%Z).
    { apply andb_false_iff in C1 as [C1|C1]; apply Z.leb_gt in C1; lia. }
    destruct (Hsub n ("." +:+ JS.substr ds n (JS.slen ds - n)) ltac:(lia)) as (t' & Ht').
    exists d, t'. split; [exact Hd | exact Ht']. }
  destruct ((-6 <? n)%Z && (n <=? 0)%Z) eqn:C3.
  { exists 0%Z. eexists. split; [lia | reflexivity]. }
  destruct (Z.eqb_spec (JS.slen ds) 1) as [Hk1|Hk1].
  - rewrite Hds, append_cons. exists d. eexists. split; [exact Hd | reflexivity].
  - match goal with |- context [JS.substr ds 0 1 +:+ ?r] =>
      destruct (Hsub 1%Z r ltac:(lia)) as (t' & Ht') end.
    exists d, t'. split; [exact Hd | exact Ht'].
Qed.

Lemma numeric_in_format (s : bool) (ds : string) (n : Z) :
  all_digits ds = true -> (1 <= JS.slen ds)%Z ->
  Column.numeric_in ((if s then "-" else "") +:+ JS.format_positive ds n)
  = Column.unsigned_in s (JS.format_positive ds n).
Proof.
  intros Hall Hlen. destruct s.
  - change ("-" +:+ JS.format_positive ds n) with (String "-" (JS.format_positive ds n)).
    apply numeric_in_minus.
  - rewrite append_nil.
    destruct (format_positive_head ds n Hall Hlen) as (d & t & Hd & ->).
    apply numeric_in_digit, Hd.
Qed.

Lemma p2_27_below : powerRZ 2 27 <= powerRZ 10 9.
Proof.
  rewrite <- (IZR_pow 2), <- (IZR_pow 10) by lia. apply IZR_le.
  apply Z.leb_le. vm_compute. reflexivity.
Qed.

Lemma p10_m9_below : powerRZ 10 (-9) <= powerRZ 2 (-21).
Proof.
  assert (H : powerRZ 2 21 <= powerRZ 10 9).
  { rewrite <- (IZR_pow 2), <- (IZR_pow 10) by lia. apply IZR_le.
    apply Z.leb_le. vm_compute. reflexivity. }
  pose proof (p10_inv 9) as H10. pose proof (p2_inv 21) as H2.
  change (- (9))%Z with (-9)%Z in H10. change (- (21))%Z with (-21)%Z in H2.
  pose proof (p10_pos (-9)). pose proof (p2_pos (-21)).
  pose proof (p10_pos 9). pose proof (p2_pos 21).
  apply Rmult_le_reg_r with (powerRZ 2 21); [assumption|].
  rewrite H2. nra.
Qed.

Lemma p10_m400_below : powerRZ 10 (-400) <= powerRZ 2 (-1074).
Proof.
  assert (H : powerRZ 2 1074 <= powerRZ 10 400).
  { rewrite <- (IZR_pow 2), <- (IZR_pow 10) by lia. apply IZR_le.
    exact pow2_below_pow10. }
  pose proof (p10_inv 400) as H10. pose proof (p2_inv 1074) as H2.
  change (- (400))%Z with (-400)%Z in H10. change (- (1074))%Z with (-1074)%Z in H2.
  pose proof (p10_pos (-400)). pose proof (p2_pos (-1074)).
  pose proof (p10_pos 400). pose proof (p2_pos 1074).
  apply Rmult_le_reg_r with (powerRZ 2 1074); [assumption|].
  rewrite H2. nra.
Qed.

(** The column reads the text of a finite Number below 2^27 as a decimal
    within 2^-21 of it, with the Number's sign. *)
Lemma toString_in (s : bool) (m : positive) (e : Z) :
  (-1074 <= e)%Z -> IZR (Zpos m) * powerRZ 2 e < powerRZ 2 27 ->
  exists v x,
    Column.numeric_in (JS.toString (S754_finite s m e)) = Some (Column.Num s v x)
    /\ (0 <= v)%Z
    /\ IZR (Zpos m) * powerRZ 2 e - powerRZ 2 (-21) <= decimal v x
       <= IZR (Zpos m) * powerRZ 2 e + powerRZ 2 (-21).
Proof.
  intros He Hlt. set (vy := IZR (Zpos m) * powerRZ 2 e) in *.
  pose proof (p2_pos (-21)) as Hp21.
  unfold JS.toString.
  pose proof (ratio_spec m e He) as Hr.
  destruct (JS.ratio m e) as [p q]. destruct Hr as (Hp & Hq & Hq2 & Hpq). fold vy in Hpq.
  pose proof (magnitude_spec p q Hp Hq Hq2) as Hn. cbv zeta in Hn.
  set (n := JS.magnitude p q) in *.
  assert (HqR : 0 < IZR q) by (apply IZR_lt; lia).
  assert (Hn' : powerRZ 10 (n - 1) <= vy < powerRZ 10 n).
  { rewrite Hpq in Hn.
    split; apply Rmult_le_reg_r with (IZR q) || apply Rmult_lt_reg_r with (IZR q);
      try exact HqR; nra. }
  (* the magnitude is small *)
  assert (Hnb : (-400 < n <= 9)%Z).
  { split.
    - assert (Hlow : powerRZ 2 (-1074) <= vy).
      { subst vy. pose proof (p2_le (-1074) e He).
        assert (1 <= IZR (Zpos m)) by (apply IZR_le; lia).
        pose proof (p2_pos (-1074)). nra. }
      pose proof p10_m400_below.
      assert (powerRZ 10 (-400) < powerRZ 10 n) by lra.
      apply p10_lt_inv in H0. lia.
    - pose proof p2_27_below.
      assert (powerRZ 10 (n - 1) < powerRZ 10 9) by lra.
      apply p10_lt_inv in H0. lia. }
  destruct (shortest_spec (S754_finite false m e) p q n vy Hp Hq Hpq Hn' 17 1 ltac:(lia))
    as (k' & Hk' & Hdd & Hsn & Hev).
  destruct (JS.shortest 17 (S754_finite false m e) p q n 1) as [dd n'].
  cbn [fst snd] in Hdd, Hsn, Hev.
  assert (Hdd0 : (0 <= dd)%Z).
  { assert (0 < 10 ^ (k' - 1))%Z by (apply Z.pow_pos_nonneg; lia). lia. }
  destruct (digits_spec dd Hdd0) as (Hall & Hval & Hlen & _).
  pose proof (digits_length dd k' ltac:(lia) Hdd) as Hk.
  destruct (format_positive_in s (JS.digits dd) n' Hall Hlen ltac:(lia))
    as (v & x & Hin & Hv0 & Hdec).
  rewrite Hval, Hk in Hdec.
  exists v, x. split; [rewrite numeric_in_format by assumption; exact Hin|].
  split; [exact Hv0|]. rewrite Hdec.
  destruct Hev as [(c & j & Hc0 & Heq & Hcd & Hc2)|[Hk18 Hcut]].
  - apply eqb_finite in Heq.
    destruct (of_decimal_close false c j 29 Hc0 ltac:(lia)) as (mf & ef & Hmf & _ & Hof & Hcl).
    { change (29 - 1)%Z with 28%Z.
      pose proof (p2_succ 27) as H28. change (27 + 1)%Z with 28%Z in H28. lra. }
    rewrite Heq in Hof.
    destruct mf as [|pm|pm]; cbn [number_of] in Hof; try discriminate.
    injection Hof as <- <-. fold vy in Hcl.
    change (29 - 50)%Z with (-21)%Z in Hcl. rewrite <- Hcd. lra.
  - assert (Hp18 : powerRZ 10 (n - k') <= powerRZ 2 (-21)).
    { pose proof (p10_le (n - k') (-9) ltac:(lia)). pose proof p10_m9_below. lra. }
    lra.
Qed.

End TextOfNumber.
(* ===================================================================== *)
(** * The two readers of a decimal text agree *)
(* ===================================================================== *)

Section Readers.

Lemma take_sign_cases (s : string) :
  (exists t, s = String "-" t /\ JS.take_sign s = (true, t))
  \/ (exists t, s = String "+" t /\ JS.take_sign s = (false, t))
  \/ JS.take_sign s = (false, s).
Proof.
  destruct s as [|c t]; [right; right; reflexivity|].
  destruct (Ascii.eqb_spec c "-") as [->|Hm]; [left; eexists; split; reflexivity|].
  destruct (Ascii.eqb_spec c "+") as [->|Hp]; [right; left; eexists; split; reflexivity|].
  right; right.
  destruct c as [[] [] [] [] [] [] [] []]; try reflexivity;
    exfalso; first [apply Hm; reflexivity | apply Hp; reflexivity].
Qed.

Lemma unsigned_in_head (sg : bool) (s1 : string) (r : Column.numeric) :
  Column.unsigned_in sg s1 = Some r ->
  exists c t, s1 = String c t /\ (c = "."%char \/ exists d, JS.digit_of c = Some d).
Proof.
  unfold Column.unsigned_in. destruct s1 as [|c t]; [discriminate|].
  intros H. exists c, t. split; [reflexivity|].
  destruct (JS.digit_of c) as [d|] eqn:Hc; [right; exists d; reflexivity|].
  left. cbn [JS.span_digits] in H. rewrite Hc in H.
  destruct (Ascii.eqb_spec c ".") as [->|Hn]; [reflexivity|].
  exfalso.
  assert (Hplain :
    match String c t with
    | String "." t0 => let '(v0, total, r0) := JS.span_digits 0 0 t0 in (v0, total - 0, r0)
    | _ => (0, 0, String c t)
    end = (0, 0, String c t)).
  { destruct c as [[] [] [] [] [] [] [] []]; try reflexivity. contradiction Hn; reflexivity. }
  rewrite Hplain in H. discriminate H.
Qed.

Lemma digit_not_white (c : ascii) (d : Z) : JS.digit_of c = Some d -> JS.is_white c = false.
Proof.
  intros H. apply digit_char_of in H as Hc. apply digit_of_range in H. subst c.
  pattern d. apply digit_ind; [reflexivity..|exact H].
Qed.

Lemma space_is_white (c : ascii) : Column.is_space c = true -> JS.is_white c = true.
Proof. unfold Column.is_space, JS.is_white. intros ->. reflexivity. Qed.

Lemma trim_start_skip (a : string) : JS.trim_start a = JS.trim_start (Column.skip_spaces a).
Proof.
  induction a as [|c a IH]; [reflexivity|].
  cbn [Column.skip_spaces]. destruct (Column.is_space c) eqn:Hs; [|reflexivity].
  cbn [JS.trim_start]. rewrite (space_is_white c Hs). exact IH.
Qed.

Lemma exponent_agrees (s rest : string) (e : Z) :
  Column.exponent s = Some (e, rest) -> JS.exponent_part s = e.
Proof.
  unfold Column.exponent, JS.exponent_part. destruct s as [|c t]; [intros [= <- _]; reflexivity|].
  destruct ((JS.code c =? 101) || (JS.code c =? 69)); [|intros [= <- _]; reflexivity].
  destruct (JS.take_sign t) as [neg t'].
  destruct (JS.span_digits 0 0 t') as [[v len] r].
  destruct (len =? 0); [discriminate|]. cbn [orb].
  destruct (1073741823 <=? v); [discriminate|].
  intros [= <- _]. reflexivity.
Qed.

Lemma not_infinity (c : ascii) (t : string) :
  (c = "."%char \/ exists d, JS.digit_of c = Some d) ->
  String.prefix "Infinity" (String c t) = false.
Proof.
  intros [->|(d & Hd)]; [reflexivity|].
  apply digit_char_of in Hd as Hc. apply digit_of_range in Hd. subst c.
  pattern d. apply digit_ind; [reflexivity..|exact Hd].
Qed.

Lemma head_not_white (c : ascii) (t : string) :
  (c = "."%char \/ exists d, JS.digit_of c = Some d) ->
  JS.trim_start (String c t) = String c t.
Proof.
  intros [->|(d & Hd)]; [reflexivity|].
  cbn [JS.trim_start]. rewrite (digit_not_white c d Hd). reflexivity.
Qed.

(** What [parseFloat] makes of a text the column reads as a number: the
    Number of the same decimal. *)
Lemma parseFloat_numeric (a : string) (neg : bool) (v x : Z) :
  Column.numeric_in a = Some (Column.Num neg v x) ->
  JS.parseFloat a = JS.of_decimal neg v x.
Proof.
  unfold Column.numeric_in, JS.parseFloat. rewrite trim_start_skip.
  set (s0 := Column.skip_spaces a).
  destruct (Column.nan_text s0) as [rest|].
  { destruct (Column.only_spaces rest); discriminate. }
  assert (Hmain : forall sg s1,
            Column.unsigned_in sg s1 = Some (Column.Num neg v x) ->
            (if String.prefix "Infinity" s1 then S754_infinity sg
             else
               let '(iv, ilen, s2) := JS.span_digits 0 0 s1 in
               let '(v0, flen, s3) :=
                 match s2 with
                 | String "." t =>
                     let '(v0, total, r) := JS.span_digits iv ilen t in (v0, total - ilen, r)
                 | _ => (iv, 0, s2)
                 end in
               if ilen + flen =? 0 then JS.NaN
               else JS.of_decimal sg v0 (JS.exponent_part s3 - flen))
            = JS.of_decimal neg v x).
  { intros sg s1 Hu.
    destruct (unsigned_in_head sg s1 _ Hu) as (c & t & -> & Hc).
    rewrite (not_infinity c t Hc).
    revert Hu. unfold Column.unsigned_in.
    destruct (JS.span_digits 0 0 (String c t)) as [[iv ilen] s2].
    destruct (match s2 with
              | String "." t0 =>
                  let '(v0, total, r) := JS.span_digits iv ilen t0 in (v0, total - ilen, r)
              | _ => (iv, 0, s2)
              end) as [[v0 flen] s3].
    destruct (ilen + flen =? 0); [discriminate|].
    destruct (Column.exponent s3) as [[e rest]|] eqn:He; [|discriminate].
    destruct (Column.only_spaces rest); [|discriminate].
    intros [= <- <- <-]. rewrite (exponent_agrees _ _ _ He). reflexivity. }
  destruct (take_sign_cases s0) as [(t & Hs & Ht)|[(t & Hs & Ht)|Ht]].
  - rewrite Ht, Hs. intros Hu. change (JS.trim_start (String "-" t)) with (String "-" t).
    cbn [JS.take_sign]. apply Hmain, Hu.
  - rewrite Ht, Hs. intros Hu. change (JS.trim_start (String "+" t)) with (String "+" t).
    cbn [JS.take_sign]. apply Hmain, Hu.
  - rewrite Ht. intros Hu.
    destruct (unsigned_in_head _ _ _ Hu) as (c & t & Hs & Hc).
    rewrite Hs, (head_not_white c t Hc), <- Hs, Ht. apply Hmain, Hu.
Qed.

End Readers.

(* ===================================================================== *)
(** * A deduction in hundredths is exact *)
(* ===================================================================== *)

Section Hundredths.

Local Open Scope R_scope.

Lemma p10_2 : powerRZ 10 2 = 100.
Proof. rewrite <- (IZR_pow 10) by lia. reflexivity. Qed.

(** A decimal within half a hundredth of [H] hundredths is rounded to [H]. *)
Lemma hundredths_round (v x H : Z) :
  (0 <= v)%Z ->
  IZR H - / 2 < decimal v x * 100 < IZR H + / 2 ->
  Column.hundredths v x = H.
Proof.
  intros Hv Hb. unfold Column.hundredths, decimal in *.
  destruct (Z.leb_spec 0 (x + 2)) as [Hx|Hx].
  - assert (He : IZR v * powerRZ 10 x * 100 = IZR (v * 10 ^ (x + 2))).
    { rewrite mult_IZR, (IZR_pow 10), p10_add, p10_2 by lia. lra. }
    rewrite He in Hb.
    assert (H1 : (H - 1 < v * 10 ^ (x + 2))%Z).
    { apply lt_IZR. rewrite minus_IZR. lra. }
    assert (H2 : (v * 10 ^ (x + 2) < H + 1)%Z).
    { apply lt_IZR. rewrite plus_IZR. lra. }
    lia.
  - set (k := (- (x + 2))%Z).
    assert (HT : (0 < 10 ^ k)%Z) by (apply Z.pow_pos_nonneg; subst k; lia).
    assert (HTR : 0 < IZR (10 ^ k)) by (apply IZR_lt; exact HT).
    assert (He : IZR v * powerRZ 10 x * 100 * IZR (10 ^ k) = IZR v).
    { rewrite (IZR_pow 10) by (subst k; lia). rewrite <- p10_2.
      rewrite !Rmult_assoc, <- !p10_add.
      replace (x + (2 + k))%Z with 0%Z by (subst k; lia). cbn. lra. }
    set (T := (10 ^ k)%Z) in *. set (w := IZR v * powerRZ 10 x * 100) in *.
    assert (H1 : (2 * T * H - T < 2 * v)%Z).
    { apply lt_IZR. rewrite minus_IZR, !mult_IZR, <- He. nra. }
    assert (H2 : (2 * v < 2 * T * H + T)%Z).
    { apply lt_IZR. rewrite plus_IZR, !mult_IZR, <- He. nra. }
    symmetry. apply Z.div_unique with (r := (2 * v + T - 2 * T * H)%Z); lia.
Qed.

Lemma hundredths_exact (v x : Z) :
  (-2 <= x)%Z -> Column.hundredths v x = (v * 10 ^ (x + 2))%Z.
Proof.
  intros Hx. unfold Column.hundredths.
  replace (0 <=? x + 2)%Z with true by (symmetry; apply Z.leb_le; lia). reflexivity.
Qed.

(** The text the column gives back reads as the number stored. *)
Lemma numeric_in_out (B : Z) :
  (0 <= B)%Z ->
  Column.numeric_in (Column.numeric_out false B) = Some (Column.Num false B (-2)).
Proof.
  intros HB. unfold Column.numeric_out. cbn [andb]. rewrite append_nil.
  assert (Hq : (0 <= B / 100)%Z) by (apply Z.div_pos; lia).
  destruct (digits_spec _ Hq) as (Hall & Hval & Hlen & _).
  destruct (all_digits_head _ Hall Hlen) as (d & t & Hd & Hds).
  pose proof (Z.mod_pos_bound B 10 ltac:(lia)) as H0.
  pose proof (Z.mod_pos_bound (B / 10) 10 ltac:(lia)) as H1.
  set (b := String (JS.digit_char (B / 10 mod 10))
              (String (JS.digit_char (B mod 10)) EmptyString)).
  assert (Hb : all_digits b = true).
  { subst b. cbn [all_digits]. rewrite !digit_of_digit_char by lia. reflexivity. }
  assert (Hnum : Column.numeric_in (JS.digits (B / 100) +:+ String "." b)
                 = Column.unsigned_in false (JS.digits (B / 100) +:+ String "." b)).
  { rewrite Hds, append_cons. apply numeric_in_digit, Hd. }
  rewrite Hnum, unsigned_in_point_end by assumption.
  do 2 f_equal.
  rewrite digits_value_app, Hval by exact Hall.
  subst b. cbn [digits_value]. rewrite !digit_of_digit_char by lia.
  pose proof (Z.div_mod B 10 ltac:(lia)).
  pose proof (Z.div_mod (B / 10) 10 ltac:(lia)).
  assert (B / 10 / 10 = B / 100)%Z by (rewrite Z.div_div by lia; reflexivity).
  lia.
Qed.

Lemma decimal_hundredths (B : Z) : decimal B (-2) * 100 = IZR B.
Proof.
  unfold decimal. rewrite <- p10_2, Rmult_assoc, <- p10_add.
  change (powerRZ 10 (-2 + 2)) with 1. lra.
Qed.

Lemma p2_m21 : powerRZ 2 (-21) * 2097152 = 1.
Proof.
  replace 2097152 with (powerRZ 2 21) by (rewrite <- (IZR_pow 2) by lia; reflexivity).
  rewrite <- p2_add. reflexivity.
Qed.

Lemma p2_27 : powerRZ 2 27 = 134217728.
Proof. rewrite <- (IZR_pow 2) by lia. reflexivity. Qed.

Lemma p2_28 : powerRZ 2 28 = 268435456.
Proof. rewrite <- (IZR_pow 2) by lia. reflexivity. Qed.

Lemma p2_29 : powerRZ 2 29 = 536870912.
Proof. rewrite <- (IZR_pow 2) by lia. reflexivity. Qed.

(** The Number read from a text of [A] hundredths, [A < 10^10]. *)
Lemma parse_hundredths (a : string) (v x A : Z) :
  Column.numeric_in a = Some (Column.Num false v x) ->
  (0 <= A < 10 ^ 10)%Z -> decimal v x * 100 = IZR A ->
  is_finite (JS.parseFloat a) = true
  /\ low_exponent (JS.parseFloat a)
  /\ decimal v x - powerRZ 2 (-21) <= value (JS.parseFloat a)
     <= decimal v x + powerRZ 2 (-21).
Proof.
  intros Hin HA Hdec.
  pose proof (numeric_in_nonneg _ _ _ _ Hin) as Hv.
  rewrite (parseFloat_numeric _ _ _ _ Hin).
  assert (HAR : IZR A < 10000000000).
  { apply IZR_lt. change (10 ^ 10)%Z with 10000000000%Z in HA. lia. }
  destruct (of_decimal_close false v x 29 Hv ltac:(lia)) as (mf & ef & Hmf & Hlow & -> & Hc).
  { change (29 - 1)%Z with 28%Z. rewrite p2_28. lra. }
  destruct (value_number_of false mf ef Hmf Hlow) as (Hval & Hfin & Hl).
  split; [exact Hfin|]. split; [exact Hl|]. rewrite Hval. exact Hc.
Qed.

End Hundredths.

Section Deduction.

Local Open Scope R_scope.

(** With a balance of [B] hundredths as the column gives it back and an
    amount that reads as [A] hundredths, [A <= B], the amount is stored as
    [A] hundredths and the difference the handler computes on Numbers is
    stored as exactly [B - A] hundredths. *)
Lemma difference_exact (a : string) (A B : Z) :
  (0 <= A <= B)%Z -> (B < 10 ^ 10)%Z -> reads_as a A ->
  Column.decimal_10_2 a = Column.numeric_out false A
  /\ Column.decimal_10_2
       (JS.toString (JS.sub (JS.parseFloat (Column.numeric_out false B))
                            (JS.parseFloat a)))
     = Column.numeric_out false (B - A).
Proof.
  intros HAB HB (v & x & Hin & Hx & HA).
  pose proof (numeric_in_nonneg _ _ _ _ Hin) as Hv.
  assert (Hfits : forall H, (0 <= H <= B)%Z -> Column.fits H = true).
  { intros H HH. unfold Column.fits. apply Z.ltb_lt. lia. }
  split.
  { unfold Column.decimal_10_2. rewrite Hin, hundredths_exact, <- HA by exact Hx.
    rewrite Hfits by lia. reflexivity. }
  assert (HaR : decimal v x * 100 = IZR A).
  { unfold decimal. rewrite HA, mult_IZR, (IZR_pow 10), p10_add, p10_2 by lia. lra. }
  destruct (parse_hundredths a v x A Hin ltac:(lia) HaR) as (Fa & La & Ca).
  destruct (parse_hundredths (Column.numeric_out false B) B (-2) B
              (numeric_in_out B ltac:(lia)) ltac:(lia) (decimal_hundredths B))
    as (Fb & Lb & Cb).
  pose proof (decimal_hundredths B) as HbR.
  set (fa := JS.parseFloat a) in *.
  set (fb := JS.parseFloat (Column.numeric_out false B)) in *.
  set (aR := decimal v x) in *. set (bR := decimal B (-2)) in *.
  pose proof p2_m21 as Ht. set (t := powerRZ 2 (-21)) in *.
  assert (HBR : IZR B < 10000000000).
  { apply IZR_lt. change (10 ^ 10)%Z with 10000000000%Z in HB. exact HB. }
  assert (HAR : 0 <= IZR A <= IZR B) by (split; apply IZR_le; lia).
  destruct (sub_close fb fa 30 ltac:(lia) Fb Fa Lb La) as (Fy & Ly & Cy).
  { change (30 - 1)%Z with 29%Z. rewrite p2_29. lra. }
  { change (30 - 1)%Z with 29%Z. rewrite p2_29. lra. }
  change (30 - 51)%Z with (-21)%Z in Cy. fold t in Cy.
  set (y := JS.sub fb fa) in *.
  assert (Hy : (IZR B - IZR A) / 100 - 3 * t <= value y <= (IZR B - IZR A) / 100 + 3 * t)
    by lra.
  assert (Hzero : IZR B - IZR A < 1 -> (B - A = 0)%Z).
  { intros H. assert (B - A < 1)%Z by (apply lt_IZR; rewrite minus_IZR; lra). lia. }
  destruct y as [sy| | |sy m e]; try discriminate Fy.
  - (* the difference is zero *)
    cbn [value] in Hy. rewrite Hzero by lra. reflexivity.
  - cbn [low_exponent] in Ly. rewrite value_finite in Hy.
    set (vy := IZR (Zpos m) * powerRZ 2 e) in *.
    assert (Hvy : 0 < vy).
    { subst vy. pose proof (p2_pos e). assert (0 < IZR (Zpos m)) by (apply IZR_lt; lia). nra. }
    destruct (toString_in sy m e Ly) as (v' & x' & Hin' & Hv' & Hc').
    { fold vy. rewrite p2_27. destruct sy; lra. }
    fold vy t in Hc'.
    unfold Column.decimal_10_2. rewrite Hin'.
    destruct sy.
    + (* a rounding residue below zero: the hundredths are equal *)
      assert (HBA : (B - A = 0)%Z) by (apply Hzero; lra).
      rewrite (hundredths_round v' x' 0 Hv') by lra.
      rewrite HBA. reflexivity.
    + rewrite (hundredths_round v' x' (B - A) Hv') by (rewrite minus_IZR; lra).
      rewrite Hfits by lia. reflexivity.
Qed.

End Deduction.

(* ===================================================================== *)
(** * Settlement: the decision for one bet *)
(* ===================================================================== *)

Lemma integer_eqb_Int (a : JS.integer) (n : Z) :
  JS.integer_eqb a (JS.Int n) = true <-> a = JS.Int n.
Proof.
  destruct a as [|z]; cbn [JS.integer_eqb]; split; try discriminate.
  - intros H. apply Z.eqb_eq in H. congruence.
  - intros H. inversion H. apply Z.eqb_refl.
Qed.




(* ===================================================================== *)
(** * Running the storage layer *)
(* ===================================================================== *)

Section Storage.

Lemma bind_run {A B} (m : M A) (k : A -> M B) (s : State) :
  (m ≫= k) s = match m s with
               | (Ok a, s') => k a s'
               | (Throw, s') => (Throw, s')
               end.
Proof. reflexivity. Qed.

Lemma db_call_ok (s : State) : faults s = [] -> db_call s = (Ok tt, s).
Proof. unfold db_call. intros ->. reflexivity. Qed.

Lemma getUser_ok (id : Z) (s : State) :
  faults s = [] -> getUser id s = (Ok (users s !! id), s).
Proof. intros H. unfold getUser. rewrite bind_run, db_call_ok by exact H. reflexivity. Qed.

Lemma updateUserBalance_ok (uid : Z) (nb : string) (s : State) :
  faults s = [] ->
  updateUserBalance uid nb s
  = (Ok tt, with_users (alter (set_balance (Column.decimal_10_2 nb)) uid) s).
Proof.
  intros H. unfold updateUserBalance. rewrite bind_run, db_call_ok by exact H. reflexivity.
Qed.

Lemma updateBetResult_ok (betId : Z) (st po : string) (s : State) :
  faults s = [] ->
  updateBetResult betId st po s
  = (Ok tt, with_bets (map (fun b => if b_id b =? betId
                                     then set_result st (Column.decimal_10_2 po) b
                                     else b)) s).
Proof.
  intros H. unfold updateBetResult. rewrite bind_run, db_call_ok by exact H. reflexivity.
Qed.

Lemma getBetsByRoundId_ok (rid : Z) (s : State) :
  faults s = [] ->
  getBetsByRoundId rid s = (Ok (List.filter (fun b => roundId b =? rid) (bets s)), s).
Proof.
  intros H. unfold getBetsByRoundId. rewrite bind_run, db_call_ok by exact H. reflexivity.
Qed.


Lemma alter_credited (us : gmap Z User) (uid : Z) (u : User) (po : string) :
  us !! uid = Some u ->
  alter (set_balance
           (Column.decimal_10_2
              (JS.toString (JS.add (JS.parseFloat (balance u)) (JS.parseFloat po)))))
        uid us
  = alter (credited po) uid us.
Proof.
  intros Hu. apply map_eq. intros k. rewrite !lookup_alter.
  destruct (decide (uid = k)) as [->|]; [|reflexivity].
  rewrite Hu. reflexivity.
Qed.

Lemma alter_missing (us : gmap Z User) (uid : Z) (f : User -> User) :
  us !! uid = None -> alter f uid us = us.
Proof.
  intros Hu. apply map_eq. intros k. rewrite lookup_alter.
  destruct (decide (uid = k)) as [->|]; [|reflexivity].
  rewrite Hu. reflexivity.
Qed.

(** One turn of the settlement loop, when no storage call fails. *)
Lemma settle_one_ok (color : string) (num : Z) (b : Bet) (s : State) :
  faults s = [] ->
  settle_one color num b s = (Ok tt, apply_settle color num s b).
Proof.
  intros H. unfold settle_one, apply_settle, credit.
  rewrite bind_run, updateBetResult_ok by exact H.
  fold (update_row color num b).
  destruct (fst (decide_bet color num b)) eqn:Hw; [|reflexivity].
  rewrite bind_run, getUser_ok by exact H.
  cbn [users with_bets].
  destruct (users s !! userId b) as [u|] eqn:Hu.
  - rewrite updateUserBalance_ok by exact H.
    unfold with_users. cbn. rewrite (alter_credited _ _ _ _ Hu). reflexivity.
  - unfold ret, with_users. cbn. rewrite (alter_missing _ _ _ Hu).
    reflexivity.
Qed.

Lemma apply_settle_faults color num s b : faults (apply_settle color num s b) = faults s.
Proof. reflexivity. Qed.

Lemma for_each_settle_ok (color : string) (num : Z) (l : list Bet) : forall s,
  faults s = [] ->
  for_each l (settle_one color num) s = (Ok tt, fold_left (apply_settle color num) l s).
Proof.
  induction l as [|b l IH]; intros s H; [reflexivity|].
  cbn [for_each fold_left]. rewrite bind_run, settle_one_ok by exact H.
  apply IH. exact H.
Qed.

Lemma processRoundResult_ok (rid : Z) (color : string) (num : Z) (s : State) :
  faults s = [] ->
  processRoundResult rid color num s
  = (Ok tt, fold_left (apply_settle color num)
                      (List.filter (fun b => roundId b =? rid) (bets s)) s).
Proof.
  intros H. unfold processRoundResult, catch.
  rewrite bind_run, getBetsByRoundId_ok by exact H.
  rewrite for_each_settle_ok by exact H. reflexivity.
Qed.

(** The fields of the state after the loop. *)
Lemma fold_apply_settle_fields (color : string) (num : Z) (l : list Bet) : forall s,
  let s' := fold_left (apply_settle color num) l s in
  bets s' = fold_left (fun bs b => map (update_row color num b) bs) l (bets s)
  /\ users s' = fold_left (credit color num) l (users s)
  /\ gameRounds s' = gameRounds s
  /\ gameRounds_serial s' = gameRounds_serial s
  /\ bets_serial s' = bets_serial s
  /\ users_serial s' = users_serial s
  /\ faults s' = faults s
  /\ currentRoundId s' = currentRoundId s
  /\ currentSequence s' = currentSequence s.
Proof.
  induction l as [|b l IH]; intros s; [cbn; tauto|].
  cbn [fold_left]. specialize (IH (apply_settle color num s b)).
  cbn zeta in IH. exact IH.
Qed.

Lemma fold_update_rows (color : string) (num : Z) (l : list Bet) : forall bs,
  fold_left (fun bs b => map (update_row color num b) bs) l bs
  = map (fun x => fold_left (fun x b => update_row color num b x) l x) bs.
Proof.
  induction l as [|b l IH]; intros bs; cbn [fold_left].
  - symmetry. apply map_id.
  - rewrite IH, map_map. reflexivity.
Qed.

Lemma update_row_id color num b x : b_id (update_row color num b x) = b_id x.
Proof. unfold update_row. destruct (b_id x =? b_id b); reflexivity. Qed.

Lemma NoDup_map_inj {A B} (f : A -> B) (l : list A) (a b : A) :
  NoDup (map f l) -> In a l -> In b l -> f a = f b -> a = b.
Proof.
  induction l as [|x l IH]; cbn [map]; intros Hnd Ha Hb Hf; [destruct Ha|].
  apply NoDup_cons in Hnd as [Hx Hnd].
  assert (Hin : forall y, In y l -> f y ∈ map f l).
  { intros y Hy. apply list_elem_of_In, in_map, Hy. }
  destruct Ha as [->|Ha], Hb as [->|Hb]; auto.
  - exfalso. apply Hx. rewrite Hf. apply Hin, Hb.
  - exfalso. apply Hx. rewrite <- Hf. apply Hin, Ha.
Qed.

(** A row [x'] carrying the id of [x], under the updates of a snapshot in
    which only [x] has that id. *)
Lemma fold_update_row_unique (color : string) (num : Z) (x : Bet) (l : list Bet) :
  forall x',
  b_id x' = b_id x ->
  (forall b, In b l -> b_id b = b_id x -> b = x) ->
  fold_left (fun y b => update_row color num b y) l x'
  = if existsb (fun b => b_id b =? b_id x) l
    then set_result (status_of (decide_bet color num x))
                    (Column.decimal_10_2 (payout_of x (decide_bet color num x))) x'
    else x'.
Proof.
  induction l as [|b l IH]; intros x' Hid Hun; [reflexivity|].
  cbn [fold_left existsb].
  assert (Hun' : forall b0, In b0 l -> b_id b0 = b_id x -> b0 = x)
    by (intros b0 Hb0; apply Hun; right; exact Hb0).
  rewrite IH; [| rewrite update_row_id; exact Hid | exact Hun'].
  unfold update_row at 1 2. rewrite Hid.
  destruct (Z.eqb_spec (b_id b) (b_id x)) as [Hb|Hb].
  - assert (b = x) as -> by (apply Hun; [left; reflexivity | exact Hb]).
    rewrite Z.eqb_refl. cbn [orb].
    destruct (existsb _ l); reflexivity.
  - replace (b_id x =? b_id b) with false by (symmetry; apply Z.eqb_neq; congruence).
    reflexivity.
Qed.

Lemma settled_table (rid : Z) (color : string) (num : Z) (bs : list Bet) :
  NoDup (map b_id bs) ->
  fold_left (fun bs b => map (update_row color num b) bs)
            (List.filter (fun b => roundId b =? rid) bs) bs
  = map (settled rid color num) bs.
Proof.
  intros Hnd. rewrite fold_update_rows. apply map_ext_in. intros x Hx.
  rewrite (fold_update_row_unique color num x); [|reflexivity|].
  - unfold settled. destruct (roundId x =? rid) eqn:Hr.
    + replace (existsb _ _) with true; [reflexivity|].
      symmetry. apply existsb_exists. exists x. split; [|apply Z.eqb_refl].
      apply filter_In. split; assumption.
    + replace (existsb _ _) with false; [reflexivity|].
      symmetry. apply not_true_is_false. intros He.
      apply existsb_exists in He as (b & Hb & Hid).
      apply filter_In in Hb as [Hb Hrb]. apply Z.eqb_eq in Hid.
      assert (b = x) as -> by (eapply NoDup_map_inj; eauto).
      congruence.
  - intros b Hb Hid. apply filter_In in Hb as [Hb _].
    eapply NoDup_map_inj; eauto.
Qed.

(** Settlement of a round, when no storage call fails and bet ids are
    unique: every row of the round is rewritten from its own fields, the
    other rows stay, and the users table takes the credits in turn. *)
Lemma processRoundResult_effect (rid : Z) (color : string) (num : Z) (s : State) :
  faults s = [] -> unique_bet_ids s ->
  exists s',
    processRoundResult rid color num s = (Ok tt, s')
    /\ bets s' = map (settled rid color num) (bets s)
    /\ users s' = fold_left (credit color num)
                            (List.filter (fun b => roundId b =? rid) (bets s)) (users s)
    /\ gameRounds s' = gameRounds s
    /\ currentRoundId s' = currentRoundId s
    /\ currentSequence s' = currentSequence s
    /\ faults s' = faults s.
Proof.
  intros Hf Hnd. eexists. split; [apply processRoundResult_ok, Hf|].
  destruct (fold_apply_settle_fields color num
              (List.filter (fun b => roundId b =? rid) (bets s)) s)
    as (Hb & Hu & Hg & _ & _ & _ & Hfa & Hc & Hq).
  rewrite Hb, Hu, Hg, Hfa, Hc, Hq, settled_table by exact Hnd.
  repeat split; reflexivity.
Qed.

Lemma credit_keeps_missing (color : string) (num : Z) (uid : Z) (l : list Bet) :
  forall us, us !! uid = None -> fold_left (credit color num) l us !! uid = None.
Proof.
  induction l as [|b l IH]; intros us Hu; [exact Hu|].
  cbn [fold_left]. apply IH. unfold credit.
  destruct (fst (decide_bet color num b)); [|exact Hu].
  rewrite lookup_alter. destruct (decide (userId b = uid)) as [He|]; [|exact Hu].
  rewrite He, Hu. reflexivity.
Qed.

End Storage.

(* ===================================================================== *)
(** * The tick: [createNewRound] *)
(* ===================================================================== *)

Section Tick.



End Tick.



(** C9: when the owner of a winning bet is not in the users table, the
    bet is still rewritten to "won" with its full payout, and no user row
    is credited or created for it. *)
Theorem winning_bet_of_missing_user (rid : Z) (color : string) (num : Z)
    (b : Bet) (s : State) :
  faults s = [] -> unique_bet_ids s ->
  In b (bets s) -> roundId b = rid ->
  fst (decide_bet color num b) = true ->
  users s !! userId b = None ->
  exists s',
    processRoundResult rid color num s = (Ok tt, s')
    /\ In (set_result "won"
             (Column.decimal_10_2
                (JS.toString (JS.mul (JS.parseFloat (amount b))
                                     (snd (decide_bet color num b)))))
             b) (bets s')
    /\ users s' !! userId b = None.
Proof.
  intros Hf Hnd Hb Hr Hw Hu.
  destruct (processRoundResult_effect rid color num s Hf Hnd)
    as (s' & Hp & Hbs & Hus & _).
  exists s'. split; [exact Hp|]. split.
  - rewrite Hbs. apply in_map_iff. exists b. split; [|exact Hb].
    unfold settled, status_of, payout_of.
    rewrite Hr, Z.eqb_refl, Hw. reflexivity.
  - rewrite Hus. apply credit_keeps_missing, Hu.
Qed.

(* ===================================================================== *)
(** * Bet placement *)
(* ===================================================================== *)

Section Placement.

Lemma db_call_cases (s : State) :
  db_call s = (if next_fault s then Throw else Ok tt, pop_fault s).
Proof.
  unfold db_call, next_fault, pop_fault.
  destruct (faults s) as [|[|] fs]; reflexivity.
Qed.

Lemma pop_fault_fields (s : State) :
  users (pop_fault s) = users s
  /\ gameRounds (pop_fault s) = gameRounds s
  /\ bets (pop_fault s) = bets s
  /\ bets_serial (pop_fault s) = bets_serial s
  /\ faults (pop_fault s) = tail (faults s).
Proof. unfold pop_fault. destruct (faults s) eqn:E; cbn; rewrite ?E; tauto. Qed.

Lemma no_fault_S (n : nat) (s : State) :
  no_fault (S n) s = negb (next_fault s) && no_fault n (pop_fault s).
Proof.
  unfold no_fault, next_fault, pop_fault.
  destruct (faults s) as [|[|] fs] eqn:E; cbn; [|reflexivity..].
  rewrite E. destruct n; reflexivity.
Qed.

Lemma next_fault_with_bets f s : next_fault (with_bets f s) = next_fault s.
Proof. reflexivity. Qed.

Lemma next_fault_with_bets_serial n s : next_fault (with_bets_serial n s) = next_fault s.
Proof. reflexivity. Qed.

Lemma head_round_exists (cur : GameRound) (rs : list GameRound) :
  head rs = Some cur -> round_exists (r_id cur) rs = true.
Proof.
  destruct rs as [|r rs]; [discriminate|]. cbn. intros [= ->].
  rewrite Z.eqb_refl. reflexivity.
Qed.

End Placement.

Section PlacementOutcome.

Lemma acceptable_inv (body : gmap string json) (s : State) :
  acceptable body s ->
  exists cur uid t v a u,
    head (gameRounds s) = Some cur
    /\ insertBetSchema_parse body = Some (uid, t, v, a)
    /\ users s !! uid = Some u
    /\ JS.ltb (JS.parseFloat (balance u)) (JS.parseFloat a) = false
    /\ next_fault s = false
    /\ next_fault (pop_fault s) = false
    /\ next_fault (pop_fault (pop_fault s)) = false
    /\ next_fault (pop_fault (pop_fault (pop_fault s))) = false.
Proof.
  intros (cur & uid & t & v & a & u & H1 & H2 & H3 & H4 & H5).
  exists cur, uid, t, v, a, u. repeat (split; [assumption|]).
  rewrite !no_fault_S in H5.
  repeat (apply andb_true_iff in H5 as [?%negb_true_iff H5]).
  tauto.
Qed.

End PlacementOutcome.

Section PlacementRun.

Lemma placeBet_placement (body : gmap string json) (s : State) :
  exists r s', placeBet body s = (Ok r, s') /\ placement body s r s'.
Proof.
  destruct (pop_fault_fields s) as (Hu1 & Hg1 & Hb1 & Hs1 & _).
  destruct (pop_fault_fields (pop_fault s)) as (Hu2 & Hg2 & Hb2 & Hs2 & _).
  destruct (pop_fault_fields (pop_fault (pop_fault s))) as (Hu3 & Hg3 & Hb3 & Hs3 & _).
  unfold placeBet, catch. rewrite bind_run.
  unfold getCurrentRound at 1. rewrite bind_run, db_call_cases.
  destruct (next_fault s) eqn:F1.
  { eexists _, _. split; [reflexivity|]. apply place_read_failed. exact F1. }
  unfold state_op at 1. rewrite Hg1.
  destruct (head (gameRounds s)) as [cur|] eqn:Hcur.
  2:{ eexists _, _. split; [reflexivity|]. apply place_no_round; assumption. }
  destruct (insertBetSchema_parse body) as [[[[uid t] v] a]|] eqn:Hparse.
  2:{ eexists _, _. split; [reflexivity|]. eapply place_invalid; eassumption. }
  cbn [ib_userId ib_amount]. rewrite bind_run.
  unfold getUser at 1. rewrite bind_run, db_call_cases.
  destruct (next_fault (pop_fault s)) eqn:F2.
  { eexists _, _. split; [reflexivity|]. eapply place_user_failed; eassumption. }
  unfold state_op at 1. rewrite Hu2, Hu1.
  destruct (users s !! uid) as [u|] eqn:Huser.
  2:{ eexists _, _. split; [reflexivity|]. eapply place_no_user; eassumption. }
  destruct (JS.ltb (JS.parseFloat (balance u)) (JS.parseFloat a)) eqn:Hlt.
  { eexists _, _. split; [reflexivity|]. eapply place_insufficient; eassumption. }
  rewrite bind_run. unfold createBet at 1. rewrite bind_run, db_call_cases.
  destruct (next_fault (pop_fault (pop_fault s))) eqn:F3.
  { eexists _, _. split; [reflexivity|]. eapply place_insert_failed; eassumption. }
  unfold state_op at 1. cbn [ib_userId ib_roundId ib_betType ib_betValue ib_amount].
  rewrite Hu3, Hu2, Hu1, Huser, Hg3, Hg2, Hg1, (head_round_exists cur _ Hcur).
  rewrite Hs3, Hs2, Hs1.
  rewrite bind_run. unfold updateUserBalance at 1. rewrite bind_run, db_call_cases.
  rewrite next_fault_with_bets_serial, next_fault_with_bets.
  destruct (next_fault (pop_fault (pop_fault (pop_fault s)))) eqn:F4.
  { eexists _, _. split; [reflexivity|]. eapply place_update_failed; eassumption. }
  eexists _, _. split; [reflexivity|]. eapply place_accepted; eassumption.
Qed.

End PlacementRun.

Section PlacementFacts.

Lemma alter_present (us : gmap Z User) (uid : Z) (u : User) (f : User -> User) :
  us !! uid = Some u -> alter f uid us = <[uid := f u]> us.
Proof.
  intros Hu. apply map_eq. intros k. rewrite lookup_alter, lookup_insert.
  destruct (decide (uid = k)) as [->|]; [|reflexivity].
  rewrite Hu. reflexivity.
Qed.

Lemma fourth_fault (s : State) :
  next_fault (pop_fault (pop_fault (pop_fault s))) = true ->
  faults s !! 3%nat = Some true.
Proof.
  destruct (pop_fault_fields s) as (_ & _ & _ & _ & H1).
  destruct (pop_fault_fields (pop_fault s)) as (_ & _ & _ & _ & H2).
  destruct (pop_fault_fields (pop_fault (pop_fault s))) as (_ & _ & _ & _ & H3).
  unfold next_fault at 1. rewrite H3, H2, H1.
  destruct (faults s) as [|f1 [|f2 [|f3 [|[|] fs]]]]; cbn; congruence.
Qed.

Lemma placement_accepted_iff body s r s' :
  placement body s r s' -> (res_status r = 200 <-> acceptable body s).
Proof.
  intros Hp. split.
  - intros H200.
    inversion Hp; subst; cbn [res_status] in H200; try discriminate H200.
    exists cur, uid, t, v, a, u. repeat (split; [assumption|]).
    rewrite !no_fault_S.
    repeat match goal with H : next_fault _ = false |- _ => rewrite H; clear H end.
    reflexivity.
  - intros Hacc. apply acceptable_inv in Hacc
      as (cur & uid & t & v & a & u & A1 & A2 & A3 & A4 & A5 & A6 & A7 & A8).
    inversion Hp; subst; cbn [res_status]; try reflexivity; congruence.
Qed.

Lemma placement_accepted_effect body s r s' :
  placement body s r s' -> res_status r = 200 ->
  exists cur uid t v a u,
    head (gameRounds s) = Some cur
    /\ insertBetSchema_parse body = Some (uid, t, v, a)
    /\ users s !! uid = Some u
    /\ let bet := mkBet (bets_serial s) uid (r_id cur) t v (Column.decimal_10_2 a)
                        "0.00" "pending" in
       res_json r = reply_bet bet "Bet placed successfully"
       /\ bets s' = bets s ++ [bet]
       /\ users s'
          = <[uid := set_balance
                       (Column.decimal_10_2
                          (JS.toString (JS.sub (JS.parseFloat (balance u))
                                               (JS.parseFloat a)))) u]> (users s).
Proof.
  intros Hp H200.
  destruct (pop_fault_fields s) as (Hu1 & _ & Hb1 & _ & _).
  destruct (pop_fault_fields (pop_fault s)) as (Hu2 & _ & Hb2 & _ & _).
  destruct (pop_fault_fields (pop_fault (pop_fault s))) as (Hu3 & _ & Hb3 & _ & _).
  inversion Hp; subst; cbn [res_status] in H200; try discriminate H200.
  exists cur, uid, t, v, a, u. repeat (split; [assumption|]).
  cbn zeta. split; [reflexivity|].
  match goal with |- context [pop_fault ?x] =>
    match x with with_bets_serial _ _ =>
      destruct (pop_fault_fields x) as (Hu4 & _ & Hb4 & _ & _) end end.
  cbn [users bets with_users]. rewrite Hu4, Hb4.
  cbn [users bets with_bets with_bets_serial].
  rewrite Hu3, Hu2, Hu1, Hb3, Hb2, Hb1.
  split; [reflexivity|]. apply alter_present. assumption.
Qed.

End PlacementFacts.

(** C2, as the code has it: a placement is answered synchronously; it is
    accepted exactly when a current round exists, the body passes the
    schema, the user exists, the balance is not below the amount and the
    four storage calls succeed; then a pending bet on the current round is
    appended, its amount as the column stores it, and the balance becomes
    what the column stores for the difference.  When the amount is a
    decimal of at most two fractional digits, not above the balance, the
    bet holds that amount and the balance decreases by exactly it.  A
    rejection never changes a balance; it leaves no bet either, unless it
    is the final balance update that failed, in which case the bet just
    inserted stays. *)
Theorem placeBet_accepts_or_reports (body : gmap string json) (s : State) :
  exists r s',
    placeBet body s = (Ok r, s')
    /\ (res_status r = 200 <-> acceptable body s)
    /\ (res_status r = 200 ->
        exists cur uid t v a u,
          head (gameRounds s) = Some cur
          /\ insertBetSchema_parse body = Some (uid, t, v, a)
          /\ users s !! uid = Some u
          /\ let bet := mkBet (bets_serial s) uid (r_id cur) t v (Column.decimal_10_2 a)
                              "0.00" "pending" in
             res_json r = reply_bet bet "Bet placed successfully"
             /\ bets s' = bets s ++ [bet]
             /\ users s'
                = <[uid := set_balance
                             (Column.decimal_10_2
                                (JS.toString (JS.sub (JS.parseFloat (balance u))
                                                     (JS.parseFloat a)))) u]> (users s)
             /\ (forall A B,
                   reads_as a A -> balance u = Column.numeric_out false B ->
                   A <= B < 10 ^ 10 ->
                   amount bet = Column.numeric_out false A
                   /\ balance <$> users s' !! uid
                      = Some (Column.numeric_out false (B - A))))
    /\ (res_status r <> 200 ->
        (res_status r = 400 \/ res_status r = 404 \/ res_status r = 500)
        /\ users s' = users s
        /\ (bets s' = bets s
            \/ (faults s !! 3%nat = Some true
                /\ exists bet, status bet = "pending" /\ bets s' = bets s ++ [bet]))).
Proof.
  destruct (placeBet_placement body s) as (r & s' & Hrun & Hp).
  exists r, s'. split; [exact Hrun|]. split; [exact (placement_accepted_iff _ _ _ _ Hp)|].
  destruct (pop_fault_fields s) as (Hu1 & _ & Hb1 & _ & _).
  destruct (pop_fault_fields (pop_fault s)) as (Hu2 & _ & Hb2 & _ & _).
  destruct (pop_fault_fields (pop_fault (pop_fault s))) as (Hu3 & _ & Hb3 & _ & _).
  split.
  { intros H200.
    destruct (placement_accepted_effect _ _ _ _ Hp H200)
      as (cur & uid & t & v & a & u & E1 & E2 & E3 & E4 & E5 & E6).
    exists cur, uid, t, v, a, u. repeat (split; [assumption|]).
    cbn zeta. repeat (split; [assumption|]).
    intros A B Hread Hbal HAB.
    assert (HA : 0 <= A).
    { destruct Hread as (v0 & x0 & Hin & Hx & ->).
      apply numeric_in_nonneg in Hin.
      apply Z.mul_nonneg_nonneg; [exact Hin | apply Z.pow_nonneg; lia]. }
    destruct (difference_exact a A B ltac:(lia) ltac:(lia) Hread) as [Ha Hd].
    cbn [amount]. split; [exact Ha|].
    rewrite E6, lookup_insert_eq. cbn [fmap option_fmap option_map set_balance balance].
    rewrite Hbal, Hd. reflexivity. }
  intros Hne.
  inversion Hp; subst; cbn [res_status] in *;
    (split; [auto|]); try congruence;
    try (split; [congruence | left; congruence]).
  match goal with |- context [pop_fault ?x] =>
    match x with with_bets_serial _ _ =>
      destruct (pop_fault_fields x) as (Hu4 & _ & Hb4 & _ & _) end end.
  rewrite Hu4, Hb4. cbn [users bets with_bets with_bets_serial].
  rewrite Hu3, Hu2, Hu1, Hb3, Hb2, Hb1.
  split; [reflexivity|]. right. split; [apply fourth_fault; assumption|].
  eexists. split; [|reflexivity]. reflexivity.
Qed.

(** C2 fails as stated, twice.  With the balance update rejected, the
    caller gets an error although the bet has been created.  And a wager
    of half a cent is accepted and recorded as a bet of "0.01" while the
    balance stays at "50.00". *)
Lemma placeBet_bet_without_deduction :
  (let s := with_faults [false; false; false; true] sample_state in
   exists s',
     placeBet sample_body s
     = (Ok (mkResponse 500 (reply_error "Failed to place bet")), s')
     /\ bets s = []
     /\ bets s' = [sample_bet]
     /\ users s' = users s)
  /\ (let bet := mkBet 1 1 1 "color" "red" "0.01" "0.00" "pending" in
      exists s',
        placeBet small_body sample_state
        = (Ok (mkResponse 200 (reply_bet bet "Bet placed successfully")), s')
        /\ bets s' = [bet]
        /\ users s' = users sample_state).
Proof.
  split.
  - eexists. split; [vm_compute; reflexivity|]. repeat split.
  - eexists. split; [vm_compute; reflexivity|]. repeat split.
Qed.

(** The exact case of the theorem above on the sample data: the client
    sends "10", the balance "50.00" is 5000 hundredths, and the bet holds
    "10.00" while the balance becomes "40.00". *)
Example deduction_of_ten :
  reads_as "10" 1000
  /\ balance sample_user = Column.numeric_out false 5000
  /\ Column.decimal_10_2 "10" = "10.00"
  /\ Column.decimal_10_2
       (JS.toString (JS.sub (JS.parseFloat (balance sample_user)) (JS.parseFloat "10")))
     = "40.00"
  /\ Column.numeric_out false (5000 - 1000) = "40.00".
Proof.
  split; [exists 10, 0; repeat split; lia|].
  split; [reflexivity|]. split; [reflexivity|]. split; [vm_compute; reflexivity|].
  reflexivity.
Qed.

(* ===================================================================== *)
(** * What the decimal columns hold after a write *)
(* ===================================================================== *)

(** C4, as the code and the schema have it.  Settlement: a losing bet
    holds the payout "0.00"; a winning bet holds what its column makes of
    the Number-to-string rendering of [parseFloat(amount) * multiplier],
    that is the product rounded to two decimals, and a credited balance
    holds what its column makes of the sum of the balance and the payout.
    Placement: the bet holds what its column makes of the amount sent, and
    the balance what its column makes of the difference.  Each of these
    has exactly two fractional digits whenever the column holds the value
    as a number. *)
Theorem persisted_amounts_have_two_decimals
    (rid : Z) (color : string) (num : Z) (s : State)
    (body : gmap string json) (p p' : State) (r : response) :
  faults s = [] -> unique_bet_ids s ->
  placeBet body p = (Ok r, p') -> res_status r = 200 ->
  (exists s',
     processRoundResult rid color num s = (Ok tt, s')
     /\ (forall b, In b (bets s) -> roundId b = rid ->
         exists b',
           In b' (bets s') /\ b_id b' = b_id b
           /\ (fst (decide_bet color num b) = false -> payout b' = "0.00")
           /\ (fst (decide_bet color num b) = true ->
               let product :=
                 JS.toString (JS.mul (JS.parseFloat (amount b))
                                     (snd (decide_bet color num b))) in
               payout b' = Column.decimal_10_2 product
               /\ (Column.holds product = true ->
                   two_fraction_digits (payout b') = true)))
     /\ users s' = fold_left (credit color num)
                     (List.filter (fun b => roundId b =? rid) (bets s)) (users s)
     /\ (forall b us u,
           fst (decide_bet color num b) = true -> us !! userId b = Some u ->
           let sum :=
             JS.toString
               (JS.add (JS.parseFloat (balance u))
                       (JS.parseFloat
                          (JS.toString (JS.mul (JS.parseFloat (amount b))
                                               (snd (decide_bet color num b)))))) in
           balance <$> credit color num us b !! userId b
           = Some (Column.decimal_10_2 sum)
           /\ (Column.holds sum = true ->
               two_fraction_digits (Column.decimal_10_2 sum) = true)))
  /\ (exists uid t v a u bet,
        insertBetSchema_parse body = Some (uid, t, v, a)
        /\ users p !! uid = Some u
        /\ res_json r = reply_bet bet "Bet placed successfully"
        /\ last (bets p') = Some bet
        /\ amount bet = Column.decimal_10_2 a
        /\ (Column.holds a = true -> two_fraction_digits (amount bet) = true)
        /\ let difference :=
             JS.toString (JS.sub (JS.parseFloat (balance u)) (JS.parseFloat a)) in
           balance <$> users p' !! uid = Some (Column.decimal_10_2 difference)
           /\ (Column.holds difference = true ->
               two_fraction_digits (Column.decimal_10_2 difference) = true)).
Proof.
  intros Hf Hnd Hrun H200. split.
  - destruct (processRoundResult_effect rid color num s Hf Hnd)
      as (s' & Hp & Hbs & Hus & _).
    exists s'. split; [exact Hp|]. split; [|split; [exact Hus|]].
    + intros b Hb Hr. exists (settled rid color num b).
      split; [rewrite Hbs; apply in_map, Hb|].
      unfold settled, payout_of. rewrite Hr, Z.eqb_refl. cbn [b_id set_result payout].
      split; [reflexivity|]. split.
      * intros ->. reflexivity.
      * intros ->. cbn zeta. split; [reflexivity|]. apply decimal_two_digits.
    + intros b us u Hw Hu. cbn zeta. split; [|apply decimal_two_digits].
      unfold credit, payout_of. rewrite Hw.
      rewrite lookup_alter, decide_True by reflexivity. rewrite Hu. reflexivity.
  - destruct (placeBet_placement body p) as (r0 & s0 & Hrun0 & Hp).
    rewrite Hrun in Hrun0. injection Hrun0 as <- <-.
    destruct (placement_accepted_effect _ _ _ _ Hp H200)
      as (cur & uid & t & v & a & u & _ & Hparse & Hu & Hj & Hb & Hus).
    eexists uid, t, v, a, u, _. split; [exact Hparse|]. split; [exact Hu|].
    split; [exact Hj|]. split; [rewrite Hb; apply last_snoc|].
    split; [reflexivity|]. split; [apply decimal_two_digits|].
    cbn zeta. split; [|apply decimal_two_digits].
    rewrite Hus, lookup_insert_eq. reflexivity.
Qed.

(** C4 fails as stated: a bet whose amount is the text "NaN" passes the
    balance check and is stored; the bet's amount and the user's balance
    are then NaN, which has no fractional digits, and once the bet wins
    so is its payout. *)
Lemma nan_wager_is_persisted :
  let bet := mkBet 1 1 1 "color" "red" "NaN" "0.00" "pending" in
  exists s' s'',
    placeBet nan_body sample_state
    = (Ok (mkResponse 200 (reply_bet bet "Bet placed successfully")), s')
    /\ bets s' = [bet]
    /\ balance <$> users s' !! 1 = Some "NaN"
    /\ two_fraction_digits "NaN" = false
    /\ processRoundResult 1 "red" 2 s' = (Ok tt, s'')
    /\ bets s'' = [set_result "won" "NaN" bet].
Proof.
  eexists _, _. split; [vm_compute; reflexivity|].
  split; [reflexivity|]. split; [reflexivity|]. split; [reflexivity|].
  split; [vm_compute; reflexivity|]. reflexivity.
Qed.

(* ===================================================================== *)
(** * Registration *)
(* ===================================================================== *)

(** C10: whatever object is handed to [createUser], even one carrying a
    [balance] of its own, the user created has the balance "50.00". *)
Theorem createUser_initial_balance (insertUser : gmap string json) (s s' : State) (u : User) :
  createUser insertUser s = (Ok u, s') ->
  balance u = "50.00" /\ users s' !! u_id u = Some u.
Proof.
  unfold createUser. rewrite bind_run, db_call_cases.
  destruct (next_fault s); [discriminate|].
  unfold state_op. rewrite lookup_insert_eq.
  destruct (<["balance":=JString "50.00"]> insertUser !! "username") as [[| | |name]|];
    try discriminate.
  destruct (<["balance":=JString "50.00"]> insertUser !! "password") as [[| | |pw]|];
    try discriminate.
  destruct (username_taken name (users (pop_fault s))); [discriminate|].
  intros [= <- <-]. split; [reflexivity|].
  cbn [users with_users with_users_serial u_id]. apply lookup_insert_eq.
Qed.

Lemma createUser_initial_balance_witness :
  let input : gmap string json :=
    {[ "username" := JString "ravi"; "password" := JString "pw";
       "balance" := JString "99999.00" ]} in
  let u := mkUser 2 "ravi" "pw" "50.00" in
  balance u = "50.00"
  /\ users (with_users_serial 3 (with_users (insert 2 u) sample_state)) !! u_id u = Some u.
Proof.
  apply (createUser_initial_balance
           {[ "username" := JString "ravi"; "password" := JString "pw";
              "balance" := JString "99999.00" ]} sample_state).
  vm_compute. reflexivity.
Defined.


Lemma winning_bet_of_missing_user_witness :
  exists s',
    processRoundResult 1 "red" 2 orphan_state = (Ok tt, s')
    /\ In (set_result "won"
             (Column.decimal_10_2
                (JS.toString (JS.mul (JS.parseFloat (amount orphan_bet))
                                     (snd (decide_bet "red" 2 orphan_bet)))))
             orphan_bet) (bets s')
    /\ users s' !! userId orphan_bet = None.
Proof.
  apply (winning_bet_of_missing_user 1 "red" 2 orphan_bet orphan_state).
  - reflexivity.
  - unfold unique_bet_ids. cbn. apply NoDup_singleton.
  - left. reflexivity.
  - reflexivity.
  - reflexivity.
  - vm_compute. reflexivity.
Defined.

Lemma persisted_amounts_have_two_decimals_witness :
  let r := mkResponse 200 (reply_bet sample_bet "Bet placed successfully") in
  (exists s',
     processRoundResult 1 "red" 2 betting_state = (Ok tt, s')
     /\ (forall b, In b (bets betting_state) -> roundId b = 1 ->
         exists b',
           In b' (bets s') /\ b_id b' = b_id b
           /\ (fst (decide_bet "red" 2 b) = false -> payout b' = "0.00")
           /\ (fst (decide_bet "red" 2 b) = true ->
               let product :=
                 JS.toString (JS.mul (JS.parseFloat (amount b))
                                     (snd (decide_bet "red" 2 b))) in
               payout b' = Column.decimal_10_2 product
               /\ (Column.holds product = true ->
                   two_fraction_digits (payout b') = true)))
     /\ users s' = fold_left (credit "red" 2)
                     (List.filter (fun b => roundId b =? 1) (bets betting_state))
                     (users betting_state)
     /\ (forall b us u,
           fst (decide_bet "red" 2 b) = true -> us !! userId b = Some u ->
           let sum :=
             JS.toString
               (JS.add (JS.parseFloat (balance u))
                       (JS.parseFloat
                          (JS.toString (JS.mul (JS.parseFloat (amount b))
                                               (snd (decide_bet "red" 2 b)))))) in
           balance <$> credit "red" 2 us b !! userId b
           = Some (Column.decimal_10_2 sum)
           /\ (Column.holds sum = true ->
               two_fraction_digits (Column.decimal_10_2 sum) = true)))
  /\ (exists uid t v a u bet,
        insertBetSchema_parse sample_body = Some (uid, t, v, a)
        /\ users sample_state !! uid = Some u
        /\ res_json r = reply_bet bet "Bet placed successfully"
        /\ last (bets betting_state) = Some bet
        /\ amount bet = Column.decimal_10_2 a
        /\ (Column.holds a = true -> two_fraction_digits (amount bet) = true)
        /\ let difference :=
             JS.toString (JS.sub (JS.parseFloat (balance u)) (JS.parseFloat a)) in
           balance <$> users betting_state !! uid = Some (Column.decimal_10_2 difference)
           /\ (Column.holds difference = true ->
               two_fraction_digits (Column.decimal_10_2 difference) = true)).
Proof.
  apply (persisted_amounts_have_two_decimals 1 "red" 2 betting_state
           sample_body sample_state betting_state
           (mkResponse 200 (reply_bet sample_bet "Bet placed successfully"))).
  - reflexivity.
  - unfold unique_bet_ids. cbn. apply NoDup_singleton.
  - vm_compute. reflexivity.
  - reflexivity.
Defined.

(* ===================================================================== *)
(** * Properties kept by every computation *)
(* ===================================================================== *)

Section Preservation.

Context (P : State -> Prop).

Lemma preserves_ret {A} (a : A) : preserves P (ret a).
Proof. intros s Hs. exact Hs. Qed.

Lemma preserves_throw {A} : preserves P (@throw A).
Proof. intros s Hs. exact Hs. Qed.

Lemma preserves_bind {A B} (m : M A) (k : A -> M B) :
  preserves P m -> (forall a, preserves P (k a)) -> preserves P (m ≫= k).
Proof.
  intros Hm Hk s Hs. rewrite bind_run. specialize (Hm s Hs).
  destruct (m s) as [[a|] s1]; cbn [snd] in *; [apply Hk, Hm | exact Hm].
Qed.

Lemma preserves_catch {A} (m h : M A) :
  preserves P m -> preserves P h -> preserves P (catch m h).
Proof.
  intros Hm Hh s Hs. unfold catch. specialize (Hm s Hs).
  destruct (m s) as [[a|] s1]; cbn [snd] in *; [exact Hm | apply Hh, Hm].
Qed.

Lemma preserves_for_each {A} (xs : list A) (body : A -> M unit) :
  (forall x, preserves P (body x)) -> preserves P (for_each xs body).
Proof.
  intros Hb. induction xs as [|x xs IH]; cbn [for_each].
  - apply preserves_ret.
  - apply preserves_bind; [apply Hb | intros _; exact IH].
Qed.

Lemma preserves_modify (f : State -> State) :
  (forall s, P s -> P (f s)) -> preserves P (modify f).
Proof. intros Hf s Hs. apply Hf, Hs. Qed.

(** A storage call: the failure schedule moves on, then the tables are
    read or written. *)
Lemma preserves_db_op {A} (f : State -> outcome A * State) :
  (forall fs s, P s -> P (with_faults fs s)) ->
  (forall s, P s -> P (snd (f s))) ->
  preserves P (db_call ;; state_op f).
Proof.
  intros Hfa Hf. apply preserves_bind; [|intros _; exact Hf].
  intros s Hs. rewrite db_call_cases. cbn [snd]. unfold pop_fault.
  destruct (faults s); [exact Hs | apply Hfa, Hs].
Qed.

End Preservation.

(* ===================================================================== *)
(** * The schema's constraints are kept *)
(* ===================================================================== *)

Section WellFormed.

Lemma well_formed_tables (s s' : State) :
  users s' = users s -> users_serial s' = users_serial s ->
  gameRounds s' = gameRounds s -> gameRounds_serial s' = gameRounds_serial s ->
  bets s' = bets s -> bets_serial s' = bets_serial s ->
  well_formed s -> well_formed s'.
Proof.
  intros Hu Hus Hr Hrs Hb Hbs [H1 H2 H3 H4 H5 H6 H7 H8 H9].
  split; rewrite ?Hu, ?Hus, ?Hr, ?Hrs, ?Hb, ?Hbs; assumption.
Qed.

Lemma wf_with_faults fs s : well_formed s -> well_formed (with_faults fs s).
Proof. apply well_formed_tables; reflexivity. Qed.

Lemma wf_with_currentSequence c s : well_formed s -> well_formed (with_currentSequence c s).
Proof. apply well_formed_tables; reflexivity. Qed.

Lemma wf_with_currentRoundId r s : well_formed s -> well_formed (with_currentRoundId r s).
Proof. apply well_formed_tables; reflexivity. Qed.

Lemma wf_read {A} (f : State -> A) :
  preserves well_formed (db_call ;; state_op (fun s => (Ok (f s), s))).
Proof.
  apply preserves_db_op; [intros; apply wf_with_faults; assumption|].
  intros s Hs. exact Hs.
Qed.

Lemma set_result_fields st po b :
  b_id (set_result st po b) = b_id b
  /\ userId (set_result st po b) = userId b
  /\ roundId (set_result st po b) = roundId b.
Proof. repeat split. Qed.

Lemma wf_updateBetResult betId st po :
  preserves well_formed (updateBetResult betId st po).
Proof.
  unfold updateBetResult. apply preserves_bind; [|intros _; apply preserves_modify].
  - intros s Hs. rewrite db_call_cases. cbn [snd]. unfold pop_fault.
    destruct (faults s); [exact Hs | apply wf_with_faults, Hs].
  - intros s [H1 H2 H3 H4 H5 H6 H7 H8 H9].
    set (g := fun b => if b_id b =? betId
                       then set_result st (Column.decimal_10_2 po) b else b).
    assert (Hg : forall b, b_id (g b) = b_id b /\ userId (g b) = userId b
                           /\ roundId (g b) = roundId b).
    { intros b. unfold g. destruct (b_id b =? betId); repeat split. }
    assert (Hids : map b_id (map g (bets s)) = map b_id (bets s)).
    { rewrite map_map. apply map_ext. intros b. apply Hg. }
    split; cbn [bets bets_serial gameRounds gameRounds_serial users users_serial with_bets];
      try assumption.
    + intros b' Hb'. apply in_map_iff in Hb' as (b & <- & Hb).
      destruct (Hg b) as (-> & _ & _). apply H1, Hb.
    + rewrite Hids. exact H2.
    + intros b' Hb'. apply in_map_iff in Hb' as (b & <- & Hb).
      destruct (Hg b) as (_ & -> & _). apply H8, Hb.
    + intros b' Hb'. apply in_map_iff in Hb' as (b & <- & Hb).
      destruct (Hg b) as (_ & _ & ->). apply H9, Hb.
Qed.

Lemma wf_updateUserBalance uid nb :
  preserves well_formed (updateUserBalance uid nb).
Proof.
  unfold updateUserBalance. apply preserves_bind; [|intros _; apply preserves_modify].
  - intros s Hs. rewrite db_call_cases. cbn [snd]. unfold pop_fault.
    destruct (faults s); [exact Hs | apply wf_with_faults, Hs].
  - intros s [H1 H2 H3 H4 H5 H6 H7 H8 H9].
    assert (Hl : forall k u', alter (set_balance (Column.decimal_10_2 nb)) uid (users s) !! k = Some u' ->
                 exists u, users s !! k = Some u /\ u_id u' = u_id u
                           /\ username u' = username u).
    { intros k u'. rewrite lookup_alter. destruct (decide (uid = k)) as [->|].
      - destruct (users s !! k) as [u|]; [|discriminate].
        intros [= <-]. exists u. repeat split.
      - intros Hk. exists u'. repeat split. exact Hk. }
    split; cbn [bets bets_serial gameRounds gameRounds_serial users users_serial with_users];
      try assumption.
    + intros k u' Hk. destruct (Hl k u' Hk) as (u & Hu & -> & _). apply H6, Hu.
    + intros k1 k2 u1 u2 Hk1 Hk2 Hn.
      destruct (Hl k1 u1 Hk1) as (v1 & Hv1 & _ & E1).
      destruct (Hl k2 u2 Hk2) as (v2 & Hv2 & _ & E2).
      apply (H7 k1 k2 v1 v2 Hv1 Hv2). congruence.
    + intros b Hb. destruct (H8 b Hb) as [u Hu].
      rewrite lookup_alter. destruct (decide (uid = userId b)) as [->|]; [|eauto].
      rewrite Hu. eauto.
Qed.

Lemma wf_createBet bet : preserves well_formed (createBet bet).
Proof.
  unfold createBet. apply preserves_db_op; [intros; apply wf_with_faults; assumption|].
  intros s Hs.
  destruct (users s !! ib_userId bet) as [u|] eqn:Hu; [|exact Hs].
  destruct (round_exists (ib_roundId bet) (gameRounds s)) eqn:Hr; [|exact Hs].
  destruct Hs as [H1 H2 H3 H4 H5 H6 H7 H8 H9].
  split; cbn [snd bets bets_serial gameRounds gameRounds_serial users users_serial
              with_bets with_bets_serial]; try assumption.
  - intros b Hb. apply in_app_iff in Hb as [Hb|[<-|[]]].
    + specialize (H1 b Hb). lia.
    + cbn. lia.
  - rewrite map_app. cbn [map]. apply NoDup_app. split; [exact H2|]. split.
    + intros x Hx Hx'. apply list_elem_of_In in Hx. apply in_map_iff in Hx as (b & <- & Hb).
      apply list_elem_of_In in Hx'. destruct Hx' as [Hx'|[]]. cbn in Hx'.
      specialize (H1 b Hb). lia.
    + apply NoDup_singleton.
  - intros b Hb. apply in_app_iff in Hb as [Hb|[<-|[]]]; [apply H8, Hb|].
    cbn. rewrite Hu. eauto.
  - intros b Hb. apply in_app_iff in Hb as [Hb|[<-|[]]]; [apply H9, Hb|].
    cbn. exact Hr.
Qed.

Lemma period_taken_false p rs :
  period_taken p rs = false -> ~ In p (map periodNumber rs).
Proof.
  unfold period_taken. intros Hf Hin. apply in_map_iff in Hin as (r & <- & Hr).
  apply not_true_iff_false in Hf. apply Hf, existsb_exists.
  exists r. split; [exact Hr | apply String.eqb_refl].
Qed.

Lemma round_exists_cons rid r rs :
  round_exists rid rs = true -> round_exists rid (r :: rs) = true.
Proof. unfold round_exists. cbn. intros ->. apply orb_true_r. Qed.

Lemma wf_createGameRound round : preserves well_formed (createGameRound round).
Proof.
  unfold createGameRound. apply preserves_db_op; [intros; apply wf_with_faults; assumption|].
  intros s Hs.
  destruct (JS.to_integer (igr_number round)) as [n|]; [|exact Hs].
  destruct (int32 n); [|exact Hs]. cbn [andb].
  destruct (period_taken (igr_periodNumber round) (gameRounds s)) eqn:Hp; [exact Hs|].
  destruct Hs as [H1 H2 H3 H4 H5 H6 H7 H8 H9].
  split; cbn [negb snd bets bets_serial gameRounds gameRounds_serial users users_serial
              with_gameRounds map r_id periodNumber]; try assumption.
  - intros r [<-|Hr]; [cbn; lia|]. specialize (H3 r Hr). lia.
  - apply NoDup_cons. split; [|exact H4].
    intros Hin. apply list_elem_of_In, in_map_iff in Hin as (r & Hid & Hr).
    specialize (H3 r Hr). lia.
  - apply NoDup_cons. split; [|exact H5].
    intros Hin. apply list_elem_of_In in Hin. exact (period_taken_false _ _ Hp Hin).
  - intros b Hb. apply round_exists_cons, H9, Hb.
Qed.

Lemma username_taken_false name (us : gmap Z User) k u :
  username_taken name us = false -> us !! k = Some u -> username u <> name.
Proof.
  unfold username_taken. intros Hf Hk Hn.
  apply bool_decide_eq_false in Hf. apply Hf. exists k, u. split; assumption.
Qed.

Lemma wf_createUser insertUser : preserves well_formed (createUser insertUser).
Proof.
  unfold createUser. apply preserves_db_op; [intros; apply wf_with_faults; assumption|].
  intros s Hs.
  destruct (_ !! "username") as [[| | |name]|]; try exact Hs.
  destruct (_ !! "password") as [[| | |pw]|]; try exact Hs.
  destruct (_ !! "balance") as [[| | |bal]|]; try exact Hs.
  destruct (username_taken name (users s)) eqn:Ht; [exact Hs|].
  destruct Hs as [H1 H2 H3 H4 H5 H6 H7 H8 H9].
  set (new := mkUser (users_serial s) name pw bal).
  assert (Hfresh : users s !! users_serial s = None).
  { destruct (users s !! users_serial s) as [u|] eqn:Hu; [|reflexivity].
    destruct (H6 _ _ Hu). lia. }
  split; cbn [snd bets bets_serial gameRounds gameRounds_serial users users_serial
              with_users with_users_serial]; try assumption.
  - intros k u. rewrite lookup_insert. destruct (decide (users_serial s = k)) as [<-|].
    + intros [= <-]. cbn. lia.
    + intros Hk. destruct (H6 _ _ Hk). lia.
  - intros k1 k2 u1 u2. rewrite !lookup_insert.
    destruct (decide (users_serial s = k1)) as [<-|], (decide (users_serial s = k2)) as [<-|];
      try reflexivity.
    + intros [= <-] Hk2 Hn. exfalso. cbn in Hn.
      exact (username_taken_false _ _ _ _ Ht Hk2 (eq_sym Hn)).
    + intros Hk1 [= <-] Hn. exfalso. cbn in Hn.
      exact (username_taken_false _ _ _ _ Ht Hk1 Hn).
    + apply H7.
  - intros b Hb. destruct (H8 b Hb) as [u Hu].
    rewrite lookup_insert. destruct (decide (users_serial s = userId b)); eauto.
Qed.

Lemma wf_getUser id : preserves well_formed (getUser id).
Proof. apply wf_read. Qed.

Lemma wf_getUserByUsername name : preserves well_formed (getUserByUsername name).
Proof. apply wf_read. Qed.

Lemma wf_getCurrentRound : preserves well_formed getCurrentRound.
Proof. apply wf_read. Qed.

Lemma wf_getRecentRounds limit : preserves well_formed (getRecentRounds limit).
Proof. apply wf_read. Qed.

Lemma wf_getBetsByRoundId rid : preserves well_formed (getBetsByRoundId rid).
Proof. apply wf_read. Qed.

Lemma wf_getBetsByUserId uid limit : preserves well_formed (getBetsByUserId uid limit).
Proof. apply wf_read. Qed.

Lemma wf_settle_one color num b : preserves well_formed (settle_one color num b).
Proof.
  unfold settle_one. apply preserves_bind; [apply wf_updateBetResult|]. intros _.
  destruct (fst (decide_bet color num b)); [|apply preserves_ret].
  apply preserves_bind; [apply wf_getUser|]. intros [u|]; [|apply preserves_ret].
  apply wf_updateUserBalance.
Qed.

Lemma wf_processRoundResult rid color num :
  preserves well_formed (processRoundResult rid color num).
Proof.
  unfold processRoundResult. apply preserves_catch; [|apply preserves_ret].
  apply preserves_bind; [apply wf_getBetsByRoundId|]. intros bs.
  apply preserves_for_each. intros b. apply wf_settle_one.
Qed.

Lemma wf_createNewRound r1 r2 : preserves well_formed (createNewRound r1 r2).
Proof.
  unfold createNewRound.
  apply preserves_bind.
  { intros s Hs. apply wf_with_currentSequence, Hs. }
  intros p. apply preserves_bind; [apply wf_createGameRound|]. intros round.
  apply preserves_bind.
  { apply preserves_modify. intros s Hs. apply wf_with_currentRoundId, Hs. }
  intros _. apply preserves_bind; [apply wf_getRecentRounds|]. intros recent.
  apply preserves_bind; [|intros _; apply preserves_ret].
  destruct recent as [|r0 [|prev rest]]; try apply preserves_ret.
  apply wf_processRoundResult.
Qed.

Lemma wf_initializeSequence : preserves well_formed initializeSequence.
Proof.
  unfold initializeSequence. apply preserves_catch; [|apply preserves_ret].
  apply preserves_bind; [apply wf_getRecentRounds|]. intros [|latest rest].
  - apply preserves_ret.
  - apply preserves_modify. intros s Hs. apply wf_with_currentSequence, Hs.
Qed.

Lemma wf_placeBet body : preserves well_formed (placeBet body).
Proof.
  unfold placeBet. apply preserves_catch; [|apply preserves_ret].
  apply preserves_bind; [apply wf_getCurrentRound|]. intros [cur|]; [|apply preserves_ret].
  destruct (insertBetSchema_parse body) as [[[[uid t] v] a]|]; [|apply preserves_throw].
  apply preserves_bind; [apply wf_getUser|]. intros [u|]; [|apply preserves_ret].
  cbn [ib_amount ib_userId].
  destruct (JS.ltb _ _); [apply preserves_ret|].
  apply preserves_bind; [apply wf_createBet|]. intros bet.
  apply preserves_bind; [apply wf_updateUserBalance|]. intros _. apply preserves_ret.
Qed.

Lemma wf_register name pw : preserves well_formed (register name pw).
Proof.
  unfold register. apply preserves_catch; [|apply preserves_ret].
  apply preserves_bind; [apply wf_getUserByUsername|]. intros [u|]; [apply preserves_ret|].
  apply preserves_bind; [apply wf_createUser|]. intros user. apply preserves_ret.
Qed.

Lemma wf_login name pw : preserves well_formed (login name pw).
Proof.
  unfold login. apply preserves_catch; [|apply preserves_ret].
  apply preserves_bind; [apply wf_getUserByUsername|]. intros [u|]; [|apply preserves_ret].
  destruct (String.eqb _ _); apply preserves_ret.
Qed.

Lemma wf_getGameState now : preserves well_formed (getGameState now).
Proof.
  unfold getGameState. apply preserves_catch; [|apply preserves_ret].
  apply preserves_bind; [apply wf_getCurrentRound|]. intros cur.
  apply preserves_bind; [apply wf_getRecentRounds|]. intros recent. apply preserves_ret.
Qed.

Lemma wf_step s e : well_formed s -> well_formed (step s e).
Proof.
  destruct e; cbn [step].
  - apply wf_initializeSequence.
  - apply wf_createNewRound.
  - apply wf_placeBet.
  - apply wf_register.
  - apply wf_login.
  - apply wf_getGameState.
  - apply wf_getBetsByUserId.
  - apply wf_with_faults.
Qed.

Lemma wf_empty fs : well_formed (empty_state fs).
Proof.
  split; cbn.
  - intros b [].
  - apply NoDup_nil_2.
  - intros r [].
  - apply NoDup_nil_2.
  - apply NoDup_nil_2.
  - intros k u Hk. rewrite lookup_empty in Hk. discriminate.
  - intros k1 k2 u1 u2 Hk. rewrite lookup_empty in Hk. discriminate.
  - intros b [].
  - intros b [].
Qed.

Lemma sample_state_well_formed : well_formed sample_state.
Proof.
  split; cbn.
  - intros b [].
  - apply NoDup_nil_2.
  - intros r [<-|[]]. cbn. lia.
  - apply NoDup_singleton.
  - apply NoDup_singleton.
  - intros k u Hk. apply lookup_singleton_Some in Hk as [<- <-]. cbn. lia.
  - intros k1 k2 u1 u2 Hk1 Hk2 _.
    apply lookup_singleton_Some in Hk1 as [<- _].
    apply lookup_singleton_Some in Hk2 as [<- _]. reflexivity.
  - intros b [].
  - intros b [].
Defined.

End WellFormed.

(** Whatever the engine and the routes are made to do, and whichever
    storage calls fail, the tables keep the constraints the schema
    declares: ids below their serials and unique, period labels and
    usernames unique, every bet's user and round present. *)
Theorem reachable_states_well_formed (fs : list bool) (es : list event) :
  well_formed (run es (empty_state fs)).
Proof.
  unfold run. generalize (wf_empty fs). generalize (empty_state fs).
  induction es as [|e es IH]; intros s Hs; [exact Hs|].
  cbn [fold_left]. apply IH, wf_step, Hs.
Qed.

(* ===================================================================== *)
(** * More on the sequencer: a full cycle, and restarts *)
(* ===================================================================== *)

Section SequencerCycle.

Lemma label_round_trip_table :
  forallb (fun z => JS.integer_eqb (JS.parseInt (JS.slice_last 3 (label_of (JS.Int z))))
                                   (JS.Int z))
          (map Z.of_nat (seq 0 1000)) = true.
Proof. vm_compute. reflexivity. Qed.

(** The counter is read back from the label it produced. *)
Lemma label_round_trip (z : Z) :
  0 <= z <= 999 -> JS.parseInt (JS.slice_last 3 (label_of (JS.Int z))) = JS.Int z.
Proof.
  intros Hz. pose proof label_round_trip_table as H.
  rewrite forallb_forall in H.
  apply integer_eqb_Int, H, in_map_iff.
  exists (Z.to_nat z). split; [lia|]. apply in_seq. lia.
Qed.

Lemma next_sequence_mod (z : Z) :
  0 <= z <= 999 -> next_sequence (JS.Int z) = JS.Int ((z + 1) mod 1000).
Proof.
  intros Hz. unfold next_sequence. cbn [JS.integer_succ JS.integer_gtb].
  destruct (Z.ltb_spec 999 (z + 1)) as [H|H].
  - replace z with 999 by lia. reflexivity.
  - rewrite Z.mod_small by lia. reflexivity.
Qed.

Lemma counters_mod (n : nat) : forall z,
  0 <= z <= 999 ->
  counters n (JS.Int z)
  = map (fun k => JS.Int ((z + 1 + Z.of_nat k) mod 1000)) (seq 0 n).
Proof.
  induction n as [|n IH]; intros z Hz; [reflexivity|].
  cbn [counters]. rewrite next_sequence_mod by exact Hz.
  assert (Hz' : 0 <= (z + 1) mod 1000 <= 999)
    by (pose proof (Z.mod_pos_bound (z + 1) 1000); lia).
  rewrite IH by exact Hz'. cbn [seq map]. f_equal.
  - f_equal. f_equal. lia.
  - rewrite <- seq_shift, map_map. apply map_ext. intros k.
    f_equal. rewrite <- Z.add_assoc, Z.add_mod_idemp_l by lia. f_equal. lia.
Qed.

Lemma iter_next_sequence_mod (n : nat) (z : Z) :
  0 <= z <= 999 ->
  Nat.iter n next_sequence (JS.Int z) = JS.Int ((z + Z.of_nat n) mod 1000).
Proof.
  intros Hz. induction n as [|n IH].
  - cbn. rewrite Z.add_0_r, Z.mod_small by lia. reflexivity.
  - change (Nat.iter (S n) next_sequence (JS.Int z))
      with (next_sequence (Nat.iter n next_sequence (JS.Int z))).
    rewrite IH.
    rewrite next_sequence_mod by (pose proof (Z.mod_pos_bound (z + Z.of_nat n) 1000); lia).
    f_equal. rewrite Z.add_mod_idemp_l by lia. f_equal. lia.
Qed.

End SequencerCycle.

(** From any counter value in 0..999, the labels of up to 1000 successive
    calls are pairwise distinct, and after exactly 1000 calls the counter
    is back where it started. *)
Theorem labels_distinct_within_a_cycle (n : nat) (z : Z) (s : State) :
  0 <= z <= 999 -> (n <= 1000)%nat ->
  exists ls,
    issue_labels n (with_currentSequence (JS.Int z) s)
    = (Ok ls, with_currentSequence (JS.Int ((z + Z.of_nat n) mod 1000)) s)
    /\ length ls = n
    /\ NoDup ls
    /\ (n = 1000%nat -> (z + Z.of_nat n) mod 1000 = z).
Proof.
  intros Hz Hn. eexists. rewrite issue_labels_run, iter_next_sequence_mod by exact Hz.
  split; [reflexivity|]. split; [rewrite length_map, counters_mod, length_map by exact Hz;
                                 apply length_seq|].
  split.
  - rewrite counters_mod by exact Hz. rewrite map_map.
    apply NoDup_fmap_2_strong; [|apply NoDup_ListNoDup, seq_NoDup].
    intros i j Hi Hj Heq.
    apply list_elem_of_In, in_seq in Hi. apply list_elem_of_In, in_seq in Hj.
    assert (Hb : forall k : nat, 0 <= (z + 1 + Z.of_nat k) mod 1000 <= 999)
      by (intros k; pose proof (Z.mod_pos_bound (z + 1 + Z.of_nat k) 1000); lia).
    apply (f_equal (fun l => JS.parseInt (JS.slice_last 3 l))) in Heq.
    rewrite !label_round_trip in Heq by apply Hb.
    injection Heq as Heq.
    pose proof (Z.div_mod (z + 1 + Z.of_nat i) 1000 ltac:(lia)).
    pose proof (Z.div_mod (z + 1 + Z.of_nat j) 1000 ltac:(lia)).
    lia.
  - intros ->. change (Z.of_nat 1000) with (1 * 1000).
    rewrite Z.mod_add, Z.mod_small by lia. reflexivity.
Qed.

Lemma labels_distinct_within_a_cycle_witness :
  exists ls,
    issue_labels 1000 (with_currentSequence (JS.Int 867) sample_state)
    = (Ok ls, with_currentSequence (JS.Int ((867 + Z.of_nat 1000) mod 1000)) sample_state)
    /\ length ls = 1000%nat
    /\ NoDup ls
    /\ (1000%nat = 1000%nat -> (867 + Z.of_nat 1000) mod 1000 = 867).
Proof.
  apply (labels_distinct_within_a_cycle 1000 867 sample_state); lia.
Defined.

(** At start-up, with the latest persisted round carrying a label the
    sequencer issued at counter value [z], the counter is set to [z]: the
    first label issued after the restart is the successor of the latest
    persisted one. *)
Theorem initializeSequence_resumes_after_latest (z : Z) (latest : GameRound)
    (rest : list GameRound) (s : State) :
  0 <= z <= 999 ->
  next_fault s = false ->
  gameRounds s = latest :: rest ->
  periodNumber latest = label_of (JS.Int z) ->
  initializeSequence s = (Ok tt, with_currentSequence (JS.Int z) (pop_fault s))
  /\ generatePeriodNumber (with_currentSequence (JS.Int z) (pop_fault s))
     = (Ok (label_of (JS.Int ((z + 1) mod 1000))),
        with_currentSequence (JS.Int ((z + 1) mod 1000)) (pop_fault s)).
Proof.
  intros Hz Hf Hr Hp. split.
  - unfold initializeSequence, catch. rewrite bind_run.
    unfold getRecentRounds. rewrite bind_run, db_call_cases, Hf.
    unfold state_op. destruct (pop_fault_fields s) as (_ & -> & _).
    rewrite Hr. cbn [take]. unfold modify.
    rewrite Hp, label_round_trip by exact Hz. reflexivity.
  - unfold generatePeriodNumber. cbn [currentSequence with_currentSequence].
    rewrite next_sequence_mod by exact Hz. reflexivity.
Qed.

Lemma initializeSequence_resumes_after_latest_witness :
  initializeSequence sample_state
  = (Ok tt, with_currentSequence (JS.Int 868) (pop_fault sample_state))
  /\ generatePeriodNumber (with_currentSequence (JS.Int 868) (pop_fault sample_state))
     = (Ok (label_of (JS.Int ((868 + 1) mod 1000))),
        with_currentSequence (JS.Int ((868 + 1) mod 1000)) (pop_fault sample_state)).
Proof.
  apply (initializeSequence_resumes_after_latest 868 sample_round [] sample_state).
  - lia.
  - reflexivity.
  - reflexivity.
  - reflexivity.
Defined.

(** [initializeSequence] never throws and never touches a table; when the
    read fails or there is no round yet, the counter keeps its value. *)
Theorem initializeSequence_never_throws (s : State) :
  exists s',
    initializeSequence s = (Ok tt, s')
    /\ users s' = users s /\ gameRounds s' = gameRounds s /\ bets s' = bets s
    /\ currentRoundId s' = currentRoundId s
    /\ (next_fault s = true \/ gameRounds s = [] -> currentSequence s' = currentSequence s).
Proof.
  destruct (pop_fault_fields s) as (Hu & Hg & Hb & _ & _).
  assert (Hc : currentRoundId (pop_fault s) = currentRoundId s
               /\ currentSequence (pop_fault s) = currentSequence s).
  { unfold pop_fault. destruct (faults s); split; reflexivity. }
  destruct Hc as [Hc1 Hc2].
  unfold initializeSequence, catch. rewrite bind_run.
  unfold getRecentRounds. rewrite bind_run, db_call_cases.
  destruct (next_fault s) eqn:Hf.
  - eexists. split; [reflexivity|]. cbn [ret]. repeat split; auto.
  - unfold state_op. rewrite Hg. destruct (gameRounds s) as [|latest rest] eqn:Hr.
    + eexists. split; [reflexivity|]. repeat split; auto.
    + eexists. split; [reflexivity|]. cbn. repeat split; auto.
      intros [H|H]; discriminate.
Qed.

(* ===================================================================== *)
(** * What settlement leaves alone, and what a failed tick leaves behind *)
(* ===================================================================== *)

Section Frame.

Context (s0 : State).

Lemma same_frame_refl : same_frame s0 s0.
Proof. split; reflexivity. Qed.

Lemma same_frame_with_faults fs s : same_frame s0 s -> same_frame s0 (with_faults fs s).
Proof. intros [H1 H2 H3 H4 H5 H6 H7 H8]. split; assumption. Qed.

Lemma frame_read {A} (f : State -> A) :
  preserves (same_frame s0) (db_call ;; state_op (fun s => (Ok (f s), s))).
Proof.
  apply preserves_db_op; [intros; apply same_frame_with_faults; assumption|].
  intros s Hs. exact Hs.
Qed.

Lemma frame_db_call : preserves (same_frame s0) db_call.
Proof.
  intros s Hs. rewrite db_call_cases. cbn [snd]. unfold pop_fault.
  destruct (faults s); [exact Hs | apply same_frame_with_faults, Hs].
Qed.

Lemma frame_updateBetResult betId st po :
  preserves (same_frame s0) (updateBetResult betId st po).
Proof.
  unfold updateBetResult.
  apply preserves_bind; [apply frame_db_call | intros _; apply preserves_modify].
  intros s [H1 H2 H3 H4 H5 H6 H7 H8]. split; try assumption.
  cbn [bets with_bets]. rewrite map_map, <- H7. apply map_ext.
  intros b. destruct (b_id b =? betId); reflexivity.
Qed.

Lemma frame_updateUserBalance uid nb :
  preserves (same_frame s0) (updateUserBalance uid nb).
Proof.
  unfold updateUserBalance.
  apply preserves_bind; [apply frame_db_call | intros _; apply preserves_modify].
  intros s [H1 H2 H3 H4 H5 H6 H7 H8]. split; try assumption.
  cbn [users with_users]. rewrite <- H8. apply map_eq. intros k.
  rewrite !lookup_fmap, lookup_alter. destruct (decide (uid = k)) as [->|]; [|reflexivity].
  destruct (users s !! k); reflexivity.
Qed.

Lemma frame_settle_one color num b : preserves (same_frame s0) (settle_one color num b).
Proof.
  unfold settle_one. apply preserves_bind; [apply frame_updateBetResult|]. intros _.
  destruct (fst (decide_bet color num b)); [|apply preserves_ret].
  apply preserves_bind; [apply frame_read|]. intros [u|]; [|apply preserves_ret].
  apply frame_updateUserBalance.
Qed.

Lemma frame_processRoundResult rid color num :
  preserves (same_frame s0) (processRoundResult rid color num).
Proof.
  unfold processRoundResult. apply preserves_catch; [|apply preserves_ret].
  apply preserves_bind; [apply frame_read|]. intros bs.
  apply preserves_for_each. intros b. apply frame_settle_one.
Qed.

End Frame.

(** Whatever the failure schedule, settlement of a round returns normally
    (its errors are caught), and it changes nothing but payouts, statuses
    and balances: rounds, serials and engine fields stay, no user or bet
    appears or disappears, and no bet changes owner, round, kind, value or
    amount. *)
Theorem processRoundResult_never_throws (rid : Z) (color : string) (num : Z) (s : State) :
  exists s', processRoundResult rid color num s = (Ok tt, s') /\ same_frame s s'.
Proof.
  pose proof (frame_processRoundResult s rid color num s (same_frame_refl s)) as Hfr.
  unfold processRoundResult, catch in *.
  destruct ((bs ← getBetsByRoundId rid; for_each bs (settle_one color num)) s)
    as [[[]|] s1]; eexists; (split; [reflexivity | exact Hfr]).
Qed.

Lemma createNewRound_on_taken_label (r1 r2 : JS.number) (s : State) :
  period_taken (label_of (next_sequence (currentSequence s))) (gameRounds s) = true ->
  exists s',
    createNewRound r1 r2 s = (Throw, s')
    /\ gameRounds s' = gameRounds s
    /\ bets s' = bets s
    /\ users s' = users s
    /\ currentRoundId s' = currentRoundId s
    /\ currentSequence s' = next_sequence (currentSequence s).
Proof.
  intros Hp. unfold createNewRound. rewrite bind_run.
  unfold generatePeriodNumber at 1. rewrite bind_run.
  unfold createGameRound at 1. rewrite bind_run, db_call_cases.
  set (s1 := with_currentSequence (next_sequence (currentSequence s)) s).
  destruct (pop_fault_fields s1) as (Hu & Hg & Hb & _ & _).
  assert (Hc : currentRoundId (pop_fault s1) = currentRoundId s
               /\ currentSequence (pop_fault s1) = next_sequence (currentSequence s)).
  { unfold pop_fault. destruct (faults s1); split; reflexivity. }
  destruct Hc as [Hc1 Hc2].
  destruct (next_fault s1).
  { eexists. split; [reflexivity|]. repeat split; assumption. }
  unfold state_op. cbn [igr_number igr_periodNumber].
  rewrite Hg. cbn [gameRounds s1 with_currentSequence]. rewrite Hp.
  destruct (JS.to_integer _) as [n|];
    [rewrite andb_false_r|];
    (eexists; split; [reflexivity|]; repeat split; assumption).
Qed.

(** A tick whose label is already in the rounds table throws: no round is
    inserted, nothing is settled, the current round is not changed; only
    the counter has moved on, so the next tick tries the following label. *)
Theorem createNewRound_rejects_reissued_label (r1 r2 : JS.number) (s : State) :
  period_taken (label_of (next_sequence (currentSequence s))) (gameRounds s) = true ->
  exists s',
    createNewRound r1 r2 s = (Throw, s')
    /\ gameRounds s' = gameRounds s
    /\ bets s' = bets s
    /\ users s' = users s
    /\ currentRoundId s' = currentRoundId s
    /\ currentSequence s' = next_sequence (currentSequence s).
Proof. apply createNewRound_on_taken_label. Qed.

Lemma createNewRound_rejects_reissued_label_witness :
  exists s',
    createNewRound (JS.parseFloat "0.25") (JS.parseFloat "0.7")
                   (with_currentSequence (JS.Int 867) sample_state) = (Throw, s')
    /\ gameRounds s' = gameRounds (with_currentSequence (JS.Int 867) sample_state)
    /\ bets s' = bets (with_currentSequence (JS.Int 867) sample_state)
    /\ users s' = users (with_currentSequence (JS.Int 867) sample_state)
    /\ currentRoundId s' = currentRoundId (with_currentSequence (JS.Int 867) sample_state)
    /\ currentSequence s'
       = next_sequence (currentSequence (with_currentSequence (JS.Int 867) sample_state)).
Proof.
  apply (createNewRound_rejects_reissued_label
           (JS.parseFloat "0.25") (JS.parseFloat "0.7")
           (with_currentSequence (JS.Int 867) sample_state)).
  vm_compute. reflexivity.
Defined.

Section Exhausted.

Lemma exhausted_taken (z : Z) (s : State) :
  labels_exhausted s = true -> 0 <= z <= 999 ->
  period_taken (label_of (JS.Int z)) (gameRounds s) = true.
Proof.
  unfold labels_exhausted. intros H Hz. rewrite forallb_forall in H.
  apply H, in_map_iff. exists (Z.to_nat z). split; [lia|]. apply in_seq. lia.
Qed.

Lemma next_sequence_in_range (z : Z) :
  0 <= z <= 999 -> exists z', next_sequence (JS.Int z) = JS.Int z' /\ 0 <= z' <= 999.
Proof.
  intros Hz. exists ((z + 1) mod 1000). split; [apply next_sequence_mod, Hz|].
  pose proof (Z.mod_pos_bound (z + 1) 1000). lia.
Qed.

End Exhausted.

(** Once the rounds table holds all 1000 labels, no tick creates a round
    or settles a bet any more, however many ticks follow and whatever is
    drawn: the engine only advances its counter. *)
Theorem engine_stalls_when_labels_exhausted (draws : list (JS.number * JS.number))
    (z : Z) (s : State) :
  labels_exhausted s = true -> currentSequence s = JS.Int z -> 0 <= z <= 999 ->
  let s' := run (map (fun d => EvTick (fst d) (snd d)) draws) s in
  gameRounds s' = gameRounds s /\ bets s' = bets s /\ users s' = users s
  /\ currentRoundId s' = currentRoundId s.
Proof.
  intros Hex Hc Hz. cbn zeta. unfold run.
  revert z s Hex Hc Hz. induction draws as [|[r1 r2] draws IH]; intros z s Hex Hc Hz.
  - repeat split.
  - cbn [map fold_left fst snd step].
    destruct (next_sequence_in_range z Hz) as (z' & Hn & Hz').
    destruct (createNewRound_on_taken_label r1 r2 s) as (s1 & Hrun & Hg & Hb & Hu & Hr & Hs).
    { rewrite Hc, Hn. apply exhausted_taken; assumption. }
    rewrite Hrun. cbn [snd].
    destruct (IH z' s1) as (Hg' & Hb' & Hu' & Hr').
    + unfold labels_exhausted in *. rewrite Hg. exact Hex.
    + rewrite Hs, Hc. exact Hn.
    + exact Hz'.
    + rewrite Hg', Hb', Hu', Hr'. repeat split; assumption.
Qed.

Lemma engine_stalls_when_labels_exhausted_witness :
  let s' := run (map (fun d => EvTick (fst d) (snd d))
                     [(JS.parseFloat "0.25", JS.parseFloat "0.7");
                      (JS.parseFloat "0.5", JS.parseFloat "0.1")]) exhausted_state in
  gameRounds s' = gameRounds exhausted_state /\ bets s' = bets exhausted_state
  /\ users s' = users exhausted_state
  /\ currentRoundId s' = currentRoundId exhausted_state.
Proof.
  apply (engine_stalls_when_labels_exhausted
           [(JS.parseFloat "0.25", JS.parseFloat "0.7");
            (JS.parseFloat "0.5", JS.parseFloat "0.1")] 866 exhausted_state).
  - vm_compute. reflexivity.
  - reflexivity.
  - lia.
Defined.

(* ===================================================================== *)
(** * Client colours, silent updates, negative wagers *)
(* ===================================================================== *)

(** The label the client puts on a number button names exactly the
    colours the generator can return with that number: the colour itself,
    or for 0 and 5 the pair it is drawn from. *)
Theorem client_colours_match_generator (r1 r2 : JS.number) :
  is_random r1 = true ->
  let color := fst (generateResult r1 r2) in
  let shown := getNumberColor (snd (generateResult r1 r2)) in
  shown = color
  \/ (shown = "red-violet" /\ (color = "red" \/ color = "violet"))
  \/ (shown = "green-violet" /\ (color = "green" \/ color = "violet")).
Proof.
  intros Hr. destruct (generateResult_digit r1 r2 Hr) as (n & Hn & ->).
  cbn [fst snd]. unfold color_of. revert n Hn.
  apply digit_ind; cbn [Z.eqb Pos.eqb orb];
    try (left; reflexivity);
    destruct (JS.ltb r2 JS.lit_0_5); right; [left|left|right|right];
    (split; [reflexivity | auto]).
Qed.

Lemma client_colours_match_generator_witness :
  let color := fst (generateResult (JS.parseFloat "0.57") (JS.parseFloat "0.8")) in
  let shown := getNumberColor (snd (generateResult (JS.parseFloat "0.57")
                                                   (JS.parseFloat "0.8"))) in
  shown = color
  \/ (shown = "red-violet" /\ (color = "red" \/ color = "violet"))
  \/ (shown = "green-violet" /\ (color = "green" \/ color = "violet")).
Proof.
  apply (client_colours_match_generator (JS.parseFloat "0.57") (JS.parseFloat "0.8")).
  vm_compute. reflexivity.
Defined.

(** Updating the balance of a user, or the result of a bet, that does not
    exist is not an error: the call returns normally and the state is
    exactly as before. *)
Theorem updates_of_missing_rows_are_silent (uid betId : Z) (nb st po : string) (s : State) :
  faults s = [] ->
  users s !! uid = None ->
  (forall b, In b (bets s) -> b_id b <> betId) ->
  updateUserBalance uid nb s = (Ok tt, s)
  /\ updateBetResult betId st po s = (Ok tt, s).
Proof.
  intros Hf Hu Hb. split.
  - rewrite updateUserBalance_ok by exact Hf. f_equal.
    destruct s as [us useq rs rseq bs bseq fs cr cs].
    unfold with_users. cbn in *. f_equal. apply alter_missing, Hu.
  - rewrite updateBetResult_ok by exact Hf. f_equal.
    destruct s as [us useq rs rseq bs bseq fs cr cs].
    unfold with_bets. cbn in *. f_equal.
    rewrite <- (map_id bs) at 2. apply map_ext_in. intros b Hin.
    specialize (Hb b Hin). destruct (Z.eqb_spec (b_id b) betId); [contradiction|reflexivity].
Qed.

Lemma updates_of_missing_rows_are_silent_witness :
  updateUserBalance 7 "1.00" sample_state = (Ok tt, sample_state)
  /\ updateBetResult 9 "won" "1.00" sample_state = (Ok tt, sample_state).
Proof.
  apply (updates_of_missing_rows_are_silent 7 9 "1.00" "won" "1.00" sample_state).
  - reflexivity.
  - reflexivity.
  - intros b [].
Defined.

Section NegativeWager.

Lemma ltb_nonnegative_negative (x y : JS.number) :
  is_nonnegative x = true -> is_negative y = true -> JS.ltb x y = false.
Proof.
  destruct x as [sx|sx| |[|] mx ex]; try discriminate;
    destruct y as [sy|sy| |[|] my ey]; try discriminate; reflexivity.
Qed.

End NegativeWager.

(** The balance check never stops a negative wager: with a current round,
    an existing user whose balance is zero or more, and storage calls that
    succeed, a body whose amount parses to a number below zero is
    accepted, the bet holds the amount as its column stores it, and the
    balance is rewritten to what its column stores for balance minus that
    amount. *)
Theorem placeBet_accepts_negative_amount (body : gmap string json) (s : State)
    (cur : GameRound) (uid : Z) (t v a : string) (u : User) :
  head (gameRounds s) = Some cur ->
  insertBetSchema_parse body = Some (uid, t, v, a) ->
  users s !! uid = Some u ->
  is_nonnegative (JS.parseFloat (balance u)) = true ->
  is_negative (JS.parseFloat a) = true ->
  no_fault 4 s = true ->
  exists r s',
    placeBet body s = (Ok r, s')
    /\ res_status r = 200
    /\ bets s' = bets s ++ [mkBet (bets_serial s) uid (r_id cur) t v
                                  (Column.decimal_10_2 a) "0.00" "pending"]
    /\ users s' !! uid
       = Some (set_balance
                 (Column.decimal_10_2
                    (JS.toString (JS.sub (JS.parseFloat (balance u))
                                         (JS.parseFloat a)))) u).
Proof.
  intros Hcur Hparse Hu Hbal Hneg Hnf.
  destruct (placeBet_placement body s) as (r & s' & Hrun & Hp).
  exists r, s'. split; [exact Hrun|].
  assert (H200 : res_status r = 200).
  { apply (placement_accepted_iff _ _ _ _ Hp).
    exists cur, uid, t, v, a, u. repeat (split; [assumption|]).
    split; [apply ltb_nonnegative_negative; assumption | exact Hnf]. }
  split; [exact H200|].
  destruct (placement_accepted_effect _ _ _ _ Hp H200)
    as (cur' & uid' & t' & v' & a' & u' & E1 & E2 & E3 & _ & E5 & E6).
  rewrite Hcur in E1. rewrite Hparse in E2.
  injection E1 as <-. injection E2 as <- <- <- <-.
  rewrite Hu in E3. injection E3 as <-.
  split; [exact E5|]. rewrite E6. apply lookup_insert_eq.
Qed.

Lemma placeBet_accepts_negative_amount_witness :
  exists r s',
    placeBet negative_body sample_state = (Ok r, s')
    /\ res_status r = 200
    /\ bets s' = bets sample_state
                 ++ [mkBet (bets_serial sample_state) 1 (r_id sample_round)
                           "color" "red" (Column.decimal_10_2 "-10.00") "0.00" "pending"]
    /\ users s' !! 1
       = Some (set_balance
                 (Column.decimal_10_2
                    (JS.toString (JS.sub (JS.parseFloat (balance sample_user))
                                         (JS.parseFloat "-10.00")))) sample_user).
Proof.
  apply (placeBet_accepts_negative_amount negative_body sample_state sample_round
           1 "color" "red" "-10.00" sample_user).
  - reflexivity.
  - vm_compute. reflexivity.
  - vm_compute. reflexivity.
  - vm_compute. reflexivity.
  - vm_compute. reflexivity.
  - reflexivity.
Defined.

(** The witness above, evaluated: the balance goes from "50.00" to "60.00". *)
Example negative_wager_raises_balance :
  Column.decimal_10_2
    (JS.toString (JS.sub (JS.parseFloat (balance sample_user)) (JS.parseFloat "-10.00")))
  = "60.00"
  /\ Column.decimal_10_2 "-10.00" = "-10.00".
Proof. vm_compute. split; reflexivity. Qed.

(* ===================================================================== *)
(** * From placement to settlement *)
(* ===================================================================== *)

Section PlacementThenTick.



End PlacementThenTick.



(** The witness above, evaluated: the wager of "0.005" is stored as "0.01"
    and paid "0.02" on red. *)
Example small_wager_settled :
  let bet := mkBet 1 1 1 "color" "red" (Column.decimal_10_2 "0.005") "0.00" "pending" in
  amount bet = "0.01"
  /\ payout_of bet (decide_bet "red" 2 bet) = "0.0195"
  /\ Column.decimal_10_2 (payout_of bet (decide_bet "red" 2 bet)) = "0.02".
Proof. vm_compute. repeat split. Qed.

(* ===================================================================== *)
(** * Registration, login, bet history *)
(* ===================================================================== *)

Section Accounts.

Lemma getUserByUsername_ok (name : string) (s : State) :
  faults s = [] -> getUserByUsername name s = (Ok (find_user name (users s)), s).
Proof.
  intros H. unfold getUserByUsername. rewrite bind_run, db_call_ok by exact H. reflexivity.
Qed.

Lemma in_rows (us : gmap Z User) (u : User) :
  In u (map_to_list us).*2 <-> exists k, us !! k = Some u.
Proof.
  rewrite <- list_elem_of_In, list_elem_of_fmap. split.
  - intros ([k u'] & -> & Hin). exists k. apply elem_of_map_to_list in Hin. exact Hin.
  - intros (k & Hk). exists (k, u). split; [reflexivity|]. apply elem_of_map_to_list, Hk.
Qed.

Lemma find_user_Some name us u :
  find_user name us = Some u -> username u = name /\ exists k, us !! k = Some u.
Proof.
  unfold find_user. intros H.
  assert (Hin : In u (List.filter (fun u => String.eqb (username u) name)
                                  (map_to_list us).*2)).
  { destruct (List.filter _ _) as [|x l]; [discriminate|].
    cbn in H. injection H as ->. left. reflexivity. }
  apply filter_In in Hin as [Hin Hn]. split; [apply String.eqb_eq, Hn|].
  apply in_rows, Hin.
Qed.

Lemma find_user_None name us k u :
  find_user name us = None -> us !! k = Some u -> username u <> name.
Proof.
  unfold find_user. intros H Hk Hn.
  assert (Hin : In u (List.filter (fun u => String.eqb (username u) name)
                                  (map_to_list us).*2)).
  { apply filter_In. split; [apply in_rows; eauto | apply String.eqb_eq, Hn]. }
  destruct (List.filter _ _); [destruct Hin | discriminate].
Qed.

(** With unique usernames the query finds the one user of that name. *)
Lemma find_user_unique (s : State) name k u :
  well_formed s -> users s !! k = Some u -> username u = name ->
  find_user name (users s) = Some u.
Proof.
  intros Hwf Hk Hn. destruct (find_user name (users s)) as [u'|] eqn:Hfind.
  - destruct (find_user_Some _ _ _ Hfind) as (Hn' & k' & Hk').
    assert (k' = k) as -> by (eapply wf_username_unique; eauto; congruence).
    congruence.
  - exfalso. exact (find_user_None _ _ _ _ Hfind Hk Hn).
Qed.

Lemma createUser_ok (name pw : string) (s : State) :
  faults s = [] -> username_taken name (users s) = false ->
  createUser {[ "username" := JString name; "password" := JString pw ]} s
  = (Ok (mkUser (users_serial s) name pw "50.00"),
     with_users_serial (users_serial s + 1)
       (with_users (insert (users_serial s) (mkUser (users_serial s) name pw "50.00")) s)).
Proof.
  intros Hf Ht. unfold createUser. rewrite bind_run, db_call_ok by exact Hf.
  unfold state_op. rewrite lookup_insert_eq.
  rewrite lookup_insert_ne by discriminate.
  rewrite (lookup_insert_ne _ "balance" "password") by discriminate.
  replace (({[ "username" := JString name; "password" := JString pw ]} : gmap string json)
             !! "username") with (Some (JString name))
    by (symmetry; apply lookup_insert_eq).
  replace (({[ "username" := JString name; "password" := JString pw ]} : gmap string json)
             !! "password") with (Some (JString pw)).
  2:{ symmetry. rewrite lookup_insert_ne by discriminate. apply lookup_singleton_eq. }
  rewrite Ht. reflexivity.
Qed.

Lemma username_free name (us : gmap Z User) :
  (forall k u, us !! k = Some u -> username u <> name) -> username_taken name us = false.
Proof.
  intros H. unfold username_taken. apply bool_decide_eq_false.
  intros (k & u & Hk & Hn). exact (H k u Hk Hn).
Qed.

End Accounts.

(** Registering a free username creates a user with the next id and the
    balance "50.00"; logging in with the same username and password then
    succeeds with that user, and with any other password it is refused. *)
Theorem register_then_login (name pw : string) (s : State) :
  well_formed s -> faults s = [] ->
  (forall k u, users s !! k = Some u -> username u <> name) ->
  let new := mkUser (users_serial s) name pw "50.00" in
  exists s1,
    register name pw s = (Ok (200, auth_user (strip_password new)), s1)
    /\ users s1 = <[users_serial s := new]> (users s)
    /\ login name pw s1 = (Ok (200, auth_user (strip_password new)), s1)
    /\ (forall pw', pw' <> pw ->
        login name pw' s1 = (Ok (401, auth_error "Invalid credentials"), s1)).
Proof.
  intros Hwf Hf Hfree new.
  assert (Hreg : register name pw s
                 = (Ok (200, auth_user (strip_password new)),
                    with_users_serial (users_serial s + 1)
                      (with_users (insert (users_serial s) new) s))).
  { unfold register, catch. rewrite bind_run, getUserByUsername_ok by exact Hf.
    destruct (find_user name (users s)) as [u|] eqn:Hfind.
    - exfalso. destruct (find_user_Some _ _ _ Hfind) as (Hn & k & Hk).
      exact (Hfree k u Hk Hn).
    - rewrite bind_run, createUser_ok by (exact Hf || apply username_free, Hfree).
      reflexivity. }
  eexists. split; [exact Hreg|]. split; [reflexivity|].
  set (s1 := with_users_serial (users_serial s + 1)
               (with_users (insert (users_serial s) new) s)).
  assert (Hwf1 : well_formed s1).
  { pose proof (wf_register name pw s Hwf) as H. rewrite Hreg in H. exact H. }
  assert (Hfind1 : find_user name (users s1) = Some new).
  { apply (find_user_unique s1 name (users_serial s)); [exact Hwf1| |reflexivity].
    apply lookup_insert_eq. }
  assert (Hf1 : faults s1 = []) by exact Hf.
  split.
  - unfold login, catch. rewrite bind_run, getUserByUsername_ok, Hfind1 by exact Hf1.
    cbn [password new]. rewrite String.eqb_refl. reflexivity.
  - intros pw' Hne. unfold login, catch.
    rewrite bind_run, getUserByUsername_ok, Hfind1 by exact Hf1.
    cbn [password new].
    destruct (String.eqb_spec pw pw'); [congruence | reflexivity].
Qed.

Lemma register_then_login_witness :
  let new := mkUser (users_serial sample_state) "ravi" "pw" "50.00" in
  exists s1,
    register "ravi" "pw" sample_state = (Ok (200, auth_user (strip_password new)), s1)
    /\ users s1 = <[users_serial sample_state := new]> (users sample_state)
    /\ login "ravi" "pw" s1 = (Ok (200, auth_user (strip_password new)), s1)
    /\ (forall pw', pw' <> "pw" ->
        login "ravi" pw' s1 = (Ok (401, auth_error "Invalid credentials"), s1)).
Proof.
  apply (register_then_login "ravi" "pw" sample_state).
  - exact sample_state_well_formed.
  - reflexivity.
  - intros k u Hk. cbn in Hk. apply lookup_singleton_Some in Hk as [<- <-]. discriminate.
Defined.

(** Registering a username that some user already has is answered with
    400 and changes nothing. *)
Theorem register_refuses_taken_username (k : Z) (u : User) (pw : string) (s : State) :
  faults s = [] -> users s !! k = Some u ->
  register (username u) pw s = (Ok (400, auth_error "Username already exists"), s).
Proof.
  intros Hf Hk. unfold register, catch.
  rewrite bind_run, getUserByUsername_ok by exact Hf.
  destruct (find_user (username u) (users s)) as [u'|] eqn:Hfind; [reflexivity|].
  exfalso. exact (find_user_None _ _ _ _ Hfind Hk eq_refl).
Qed.

Lemma register_refuses_taken_username_witness :
  register (username sample_user) "other" sample_state
  = (Ok (400, auth_error "Username already exists"), sample_state).
Proof.
  apply (register_refuses_taken_username 1 sample_user "other" sample_state);
    reflexivity.
Defined.

(** With unique usernames and no storage failure, a login is answered
    with 200 exactly when some user has that username and that password,
    and with 401 otherwise; the state is not changed. *)
Theorem login_succeeds_iff_credentials_match (name pw : string) (s : State) :
  well_formed s -> faults s = [] ->
  exists code reply,
    login name pw s = (Ok (code, reply), s)
    /\ (code = 200 \/ code = 401)
    /\ (code = 200 <->
        exists k u, users s !! k = Some u /\ username u = name /\ password u = pw).
Proof.
  intros Hwf Hf. unfold login, catch.
  rewrite bind_run, getUserByUsername_ok by exact Hf.
  destruct (find_user name (users s)) as [u|] eqn:Hfind.
  - destruct (find_user_Some _ _ _ Hfind) as (Hn & k & Hk).
    destruct (String.eqb_spec (password u) pw) as [Hp|Hp].
    + eexists _, _. split; [reflexivity|]. split; [left; reflexivity|].
      split; [intros _; eauto | reflexivity].
    + eexists _, _. split; [reflexivity|]. split; [right; reflexivity|].
      split; [discriminate|]. intros (k' & u' & Hk' & Hn' & Hp').
      assert (k' = k) as -> by (eapply wf_username_unique; eauto; congruence).
      congruence.
  - eexists _, _. split; [reflexivity|]. split; [right; reflexivity|].
    split; [discriminate|]. intros (k' & u' & Hk' & Hn' & _).
    exfalso. exact (find_user_None _ _ _ _ Hfind Hk' Hn').
Qed.

Lemma login_succeeds_iff_credentials_match_witness :
  exists code reply,
    login "asha" "secret" sample_state = (Ok (code, reply), sample_state)
    /\ (code = 200 \/ code = 401)
    /\ (code = 200 <->
        exists k u, users sample_state !! k = Some u /\ username u = "asha"
                    /\ password u = "secret").
Proof.
  apply (login_succeeds_iff_credentials_match "asha" "secret" sample_state).
  - exact sample_state_well_formed.
  - reflexivity.
Defined.

(** The bet history of a user holds only that user's bets, never more
    than the limit (10 when none is given), newest first; the read changes
    nothing. *)
Theorem getBetsByUserId_newest_first (uid : Z) (limit : option nat) (s : State) :
  faults s = [] ->
  exists l,
    getBetsByUserId uid limit s = (Ok l, s)
    /\ (length l <= default 10 limit)%nat
    /\ (forall b, In b l -> userId b = uid /\ In b (bets s))
    /\ sublist l (rev (bets s))
    /\ (forall b rest, bets s = rest ++ [b] -> userId b = uid ->
        (0 < default 10 limit)%nat -> head l = Some b).
Proof.
  intros Hf. eexists. unfold getBetsByUserId.
  rewrite bind_run, db_call_ok by exact Hf. unfold state_op.
  split; [reflexivity|].
  set (mine := List.filter (fun b => userId b =? uid) (bets s)).
  split; [rewrite length_take; lia|]. split; [|split].
  - intros b Hb. apply list_elem_of_In, elem_of_take in Hb as (i & Hb & _).
    apply list_elem_of_lookup_2, list_elem_of_In, in_rev, filter_In in Hb as [Hin Hu].
    split; [apply Z.eqb_eq, Hu | exact Hin].
  - etransitivity; [apply sublist_take|].
    subst mine. rewrite <- List.filter_rev.
    clear. induction (rev (bets s)) as [|b l IH]; cbn; [constructor|].
    destruct (userId b =? uid); [apply sublist_skip | apply sublist_cons]; exact IH.
  - intros b rest Hb Hu Hl. subst mine. rewrite Hb, List.filter_app. cbn [List.filter].
    replace (userId b =? uid) with true by (symmetry; apply Z.eqb_eq, Hu).
    rewrite rev_app_distr. cbn [rev app].
    destruct (default 10%nat limit); [lia | reflexivity].
Qed.

Lemma getBetsByUserId_newest_first_witness :
  exists l,
    getBetsByUserId 7 None orphan_state = (Ok l, orphan_state)
    /\ (length l <= default 10 None)%nat
    /\ (forall b, In b l -> userId b = 7 /\ In b (bets orphan_state))
    /\ sublist l (rev (bets orphan_state))
    /\ (forall b rest, bets orphan_state = rest ++ [b] -> userId b = 7 ->
        (0 < default 10 None)%nat -> head l = Some b).
Proof.
  apply (getBetsByUserId_newest_first 7 None orphan_state). reflexivity.
Defined.

(* ===================================================================== *)
(** * Who is credited *)
(* ===================================================================== *)

Section Credits.

Lemma credit_other (color : string) (num : Z) (uid : Z) (l : list Bet) :
  forall us,
  (forall b, In b l -> fst (decide_bet color num b) = true -> userId b <> uid) ->
  fold_left (credit color num) l us !! uid = us !! uid.
Proof.
  induction l as [|b l IH]; intros us H; [reflexivity|].
  cbn [fold_left]. rewrite IH by (intros b' Hb'; apply H; right; exact Hb').
  unfold credit. destruct (fst (decide_bet color num b)) eqn:Hw; [|reflexivity].
  apply lookup_alter_ne, H; [left; reflexivity | exact Hw].
Qed.

End Credits.

(** Settlement changes the balance of nobody but the owners of winning
    bets of the round: a user with no winning bet on it has the same row
    afterwards, and a round whose bets all lose leaves the users table as
    it was. *)
Theorem settlement_credits_only_winners (rid : Z) (color : string) (num : Z) (s : State) :
  faults s = [] -> unique_bet_ids s ->
  exists s',
    processRoundResult rid color num s = (Ok tt, s')
    /\ (forall uid,
          (forall b, In b (bets s) -> roundId b = rid ->
                     fst (decide_bet color num b) = true -> userId b <> uid) ->
          users s' !! uid = users s !! uid)
    /\ ((forall b, In b (bets s) -> roundId b = rid ->
                   fst (decide_bet color num b) = false) ->
        users s' = users s).
Proof.
  intros Hf Hnd.
  destruct (processRoundResult_effect rid color num s Hf Hnd)
    as (s' & Hp & _ & Hus & _).
  exists s'. split; [exact Hp|].
  assert (Hone : forall uid,
            (forall b, In b (bets s) -> roundId b = rid ->
                       fst (decide_bet color num b) = true -> userId b <> uid) ->
            users s' !! uid = users s !! uid).
  { intros uid H. rewrite Hus. apply credit_other.
    intros b Hb. apply filter_In in Hb as [Hb Hr]. apply H; [exact Hb|].
    apply Z.eqb_eq, Hr. }
  split; [exact Hone|].
  intros Hall. apply map_eq. intros uid. apply Hone.
  intros b Hb Hr Hw. rewrite (Hall b Hb Hr) in Hw. discriminate.
Qed.

Lemma settlement_credits_only_winners_witness :
  exists s',
    processRoundResult 1 "green" 3 orphan_state = (Ok tt, s')
    /\ (forall uid,
          (forall b, In b (bets orphan_state) -> roundId b = 1 ->
                     fst (decide_bet "green" 3 b) = true -> userId b <> uid) ->
          users s' !! uid = users orphan_state !! uid)
    /\ ((forall b, In b (bets orphan_state) -> roundId b = 1 ->
                   fst (decide_bet "green" 3 b) = false) ->
        users s' = users orphan_state).
Proof.
  apply (settlement_credits_only_winners 1 "green" 3 orphan_state).
  - reflexivity.
  - unfold unique_bet_ids. cbn. apply NoDup_singleton.
Defined.
(* ===================================================================== *)
(** * The specification's end-to-end example *)
(* ===================================================================== *)

(** A user with balance "50.00" places "10.00" on red: the balance
    becomes "40.00" and a pending bet on the current round exists.  When
    the next tick settles that round, which came out red, the bet is won
    with payout "19.50" and the balance is "59.50"; had the round come out
    green, the bet would be lost with payout "0.00" and the balance still
    "40.00". *)
Theorem red_bet_end_to_end :
  exists s1 s2 s3,
    placeBet sample_body sample_state
    = (Ok (mkResponse 200 (reply_bet sample_bet "Bet placed successfully")), s1)
    /\ bets s1 = [sample_bet]
    /\ status sample_bet = "pending" /\ roundId sample_bet = r_id sample_round
    /\ balance <$> users s1 !! 1 = Some "40.00"
    /\ createNewRound (JS.parseFloat "0.25") (JS.parseFloat "0.7") s1 = (Ok tt, s2)
    /\ bets s2 = [set_result "won" "19.50" sample_bet]
    /\ balance <$> users s2 !! 1 = Some "59.50"
    /\ processRoundResult 1 "green" 3 s1 = (Ok tt, s3)
    /\ bets s3 = [set_result "lost" "0.00" sample_bet]
    /\ balance <$> users s3 !! 1 = Some "40.00".
Proof.
  eexists _, _, _. split; [vm_compute; reflexivity|].
  split; [reflexivity|]. split; [reflexivity|]. split; [reflexivity|].
  split; [reflexivity|]. split; [vm_compute; reflexivity|].
  split; [reflexivity|]. split; [reflexivity|].
  split; [vm_compute; reflexivity|]. split; reflexivity.
Qed.

(** Two winning bets of one user are credited one after the other, each
    on the balance the column holds at that moment: a cent on red pays
    "0.0195", stored as "0.02", and takes "50.00" to "50.02"; one unit on
    the number pays 9 and takes it to "59.02". *)
Theorem credits_accumulate_on_stored_balance :
  exists s',
    processRoundResult 1 "red" 2 two_wins_state = (Ok tt, s')
    /\ map payout (bets s') = ["0.02"; "9.00"]
    /\ map status (bets s') = ["won"; "won"]
    /\ balance <$> users s' !! 1 = Some "59.02".
Proof.
  eexists. split; [vm_compute; reflexivity|]. repeat split.
Qed.
